(** * poetry-cms: the content repository facade and the access gate

    A shallow embedding of the persistence hooks ([useFirebaseDB],
    [useGitHubDB]), of the [useAuth] hook, of the [Login] and [CMS]
    components and of the navigation of [App], followed by the properties
    of the specification that concern them and by further properties of
    the code.

    Conventions of the embedding:
    - React state cells ([useState]) are fields of a record; a setter call
      is a state update made at the point of the program where the setter is
      called;
    - an [async] function is a computation in a state-and-exception monad;
      [await] is sequencing, [try]/[catch] is [try_catch]; one operation
      runs at a time;
    - a call to a remote service succeeds or throws as an outcome function
      of the environment says; the remote store changes only when the call
      succeeds;
    - every effect that matters to the specification is appended to a
      trace, in program order. *)

From stdpp Require Import gmap strings list fin_maps sorting.
From Stdlib Require Import ZArith Ascii.

Open Scope string_scope.
Open Scope list_scope.
Open Scope nat_scope.

(** ** src/types/index.ts *)

Inductive ContentTypeValue := STORY | POEM | QUOTE.

Record ContentItem := {
  id : string;
  type : ContentTypeValue;
  title : option string;
  body : string;
  excerpt : option string;
  date : option string
}.

Record SiteSettings := {
  siteTitle : string;
  siteDescription : string;
  authorName : string;
  authorBio : string;
  authorRoles : list string
}.

Record ContentMeta := { contentOrder : list string }.

(** ** The part of ECMAScript the hooks rely on *)

Module JS.

(** The Number values the sort comparator can produce. *)
Inductive Number := Finite (z : Z) | PosInfinity | NegInfinity | NaN.

(** [x - y] *)
Definition sub (x y : Number) : Number :=
  match x, y with
  | NaN, _ | _, NaN => NaN
  | Finite a, Finite b => Finite (a - b)
  | Finite _, PosInfinity => NegInfinity
  | Finite _, NegInfinity => PosInfinity
  | PosInfinity, PosInfinity => NaN
  | PosInfinity, _ => PosInfinity
  | NegInfinity, NegInfinity => NaN
  | NegInfinity, _ => NegInfinity
  end.

(** [new Map(entries)]: the entries are set one after the other, a later
    entry for a key replaces the earlier one. *)
Definition Map_new {V} (entries : list (string * V)) : gmap string V :=
  foldl (fun m kv => <[kv.1 := kv.2]> m) ∅ entries.

(** [arr.map((x, index) => f x index)] *)
Definition map_with_index {A B} (f : A → nat → B) (arr : list A) : list B :=
  imap (fun index x => f x index) arr.

(** SortCompare of ECMA-262 for a comparator result [v]: NaN counts as +0;
    the answer is whether [v > 0], i.e. whether the first argument has to
    go after the second. *)
Definition comes_after (v : Number) : bool :=
  match v with
  | Finite z => (0 <? z)%Z
  | PosInfinity => true
  | NegInfinity => false
  | NaN => false
  end.

Section Sort.
Context {A : Type} (comparefn : A → A → Number).

Fixpoint sort_insert (x : A) (sorted : list A) : list A :=
  match sorted with
  | [] => [x]
  | y :: rest =>
      if comes_after (comparefn x y) then y :: sort_insert x rest
      else x :: sorted
  end.

(** [arr.sort(comparefn)].  ECMA-262 (2019 and later) requires the sort
    to be stable; for a consistent comparator that fixes the result.
    The representative taken here is the stable insertion sort. *)
Fixpoint Array_sort (arr : list A) : list A :=
  match arr with
  | [] => []
  | x :: rest => sort_insert x (Array_sort rest)
  end.
End Sort.

End JS.

(** ** The ordering step of [fetchContent] (both hooks) *)

(** [new Map(contentOrder.map((id, index) => [id, index]))] *)
Definition orderMap (contentOrder : list string) : gmap string nat :=
  JS.Map_new (JS.map_with_index (fun id index => (id, index)) contentOrder).

(** [orderMap.get(a.id) ?? Infinity] *)
Definition orderOf (contentOrder : list string) (a : ContentItem) : JS.Number :=
  match orderMap contentOrder !! id a with
  | Some index => JS.Finite (Z.of_nat index)
  | None => JS.PosInfinity
  end.

(** The comparator [(a, b) => orderA - orderB]. *)
Definition compareByOrder (contentOrder : list string) (a b : ContentItem) : JS.Number :=
  JS.sub (orderOf contentOrder a) (orderOf contentOrder b).

(** [if (contentOrder.length > 0) { ... loadedContent.sort(...) }] *)
Definition sortByContentOrder (contentOrder : list string)
    (loadedContent : list ContentItem) : list ContentItem :=
  if bool_decide (0 < length contentOrder)
  then JS.Array_sort (compareByOrder contentOrder) loadedContent
  else loadedContent.

(** The position an id is ordered by: its index in the ledger ([None] when
    the ledger does not list it). *)
Definition ledgerPosition (contentOrder : list string) (a : ContentItem) : option nat :=
  orderMap contentOrder !! id a.

(** Comparison of positions, an unlisted item being after every listed one. *)
Definition position_le (p q : option nat) : Prop :=
  match p, q with
  | Some n, Some m => n ≤ m
  | Some _, None => True
  | None, Some _ => False
  | None, None => True
  end.

Definition position_lt (p q : option nat) : Prop :=
  match p, q with
  | Some n, Some m => n < m
  | Some _, None => True
  | None, _ => False
  end.

Definition mkItem (i : string) : ContentItem :=
  {| id := i; type := QUOTE; title := None; body := EmptyString; excerpt := None; date := None |}.


(** ** Computations with state and exceptions *)

(** How a computation ends: with a value, or by throwing. *)
Inductive Completion (A : Type) : Type :=
  | Normal (a : A)
  | Throw.
Arguments Normal {A} a.
Arguments Throw {A}.

(** An [async] function over the state [S]. *)
Definition Eff (S A : Type) : Type := S → Completion A * S.

Section Eff.
Context {S : Type}.

Definition throw {A} : Eff S A := fun s => (Throw, s).

(** [try { m } catch { handler }] *)
Definition try_catch {A} (m handler : Eff S A) : Eff S A :=
  fun s =>
    match m s with
    | (Normal a, s') => (Normal a, s')
    | (Throw, s') => handler s'
    end.

Definition gets {A} (f : S → A) : Eff S A := fun s => (Normal (f s), s).

Definition modify (f : S → S) : Eff S unit := fun s => (Normal tt, f s).

(** [try { m } finally { cleanup }] *)
Definition try_finally {A} (m : Eff S A) (cleanup : Eff S unit) : Eff S A :=
  fun s =>
    match m s with
    | (c, s') =>
        match cleanup s' with
        | (Normal _, s'') => (c, s'')
        | (Throw, s'') => (Throw, s'')
        end
    end.
End Eff.

Global Instance Eff_ret {S} : MRet (Eff S) := fun A a s => (Normal a, s).

Global Instance Eff_bind {S} : MBind (Eff S) := fun A B k m s =>
  match m s with
  | (Normal a, s') => k a s'
  | (Throw, s') => (Throw, s')
  end.

(** The outcome and the final state of running a computation. *)
Definition result {S A} (r : Completion A * S) : Completion A := r.1.
Definition final {S A} (r : Completion A * S) : S := r.2.

(** ** Values read from outside the program *)

(** [JSON.parse(text)] returns a value or throws a SyntaxError; a stored
    text is represented by what parsing it gives. *)
Inductive Json (A : Type) : Type :=
  | Parses (a : A)
  | Malformed.
Arguments Parses {A} a.
Arguments Malformed {A}.

Definition JSON_parse {S A} (text : Json A) : Eff S A :=
  match text with
  | Parses a => mret a
  | Malformed => throw
  end.

(** What [await fetch(url)] gives: a rejected promise, a response that is
    not [ok], or an [ok] response with its body. *)
Inductive Response (A : Type) : Type :=
  | NetworkError
  | NotOk
  | Ok (body : Json A).
Arguments NetworkError {A}.
Arguments NotOk {A}.
Arguments Ok {A} body.

(** The two keys of [localStorage] the hooks use; a key that is absent or
    holds the empty text is [None] (both are falsy). *)
Record LocalStorage := {
  cms_content : option (Json (list ContentItem));
  cms_settings : option (Json SiteSettings)
}.

(** ** Constants of both hooks *)

Definition DEFAULT_CONTENT : list ContentItem :=
  [ {| id := "1"; type := QUOTE; title := None;
       body := "If you look at what you have in life, you'll always have more. If you look at what you don't have in life, you'll never have enough.";
       excerpt := None; date := None |};
    {| id := "2"; type := STORY;
       title := Some "This Beginning May Have Always Meant This End";
       body := "Coming from a place where we meandered mornings and met quail, scrub jay, mockingbird, i knew coyote, like everyone else...";
       excerpt := Some "Coming from a place where we meandered mornings and met quail, scrub jay, mockingbird...";
       date := Some "Oct 24, 2023" |} ].

Definition DEFAULT_SETTINGS : SiteSettings :=
  {| siteTitle := "Digital Silence";
     siteDescription := "A collection of stories, poetry, and moments crafted in the void.";
     authorName := "Jacopo";
     authorBio := "Obsessed with the silence between words and the shadows cast by the noon sun.";
     authorRoles := ["Author"; "Curator"; "Dreamer"] |}.

(** The bundled static files, in the order [fetchContent] loads them. *)
Definition contentFiles : list string :=
  [ "quote-1.json"; "quote-2.json"; "quote-3.json"; "quote-4.json";
    "story-this-beginning.json"; "story-fragments.json"; "story-silent-architect.json";
    "story-train-nowhere.json"; "story-old-clock.json"; "story-last-bookstore.json";
    "poem-first-snow.json"; "poem-jagged-winter.json"; "poem-neon-rain.json";
    "poem-paper-planes.json"; "poem-roots.json" ].

(** ** The optimistic updates of the item list (both hooks) *)

(** The updater of [saveItem]:
    [prev.find(i => i.id === item.id)] decides between
    [prev.map(i => i.id === item.id ? item : i)] and [[item, ...prev]]. *)
Definition saveItem_update (item : ContentItem) (prev : list ContentItem) : list ContentItem :=
  match list_find (λ i, id i = id item) prev with
  | Some _ => (λ i, if decide (id i = id item) then item else i) <$> prev
  | None => item :: prev
  end.

(** The updater of [deleteItem]: [prev.filter(i => i.id !== id)]. *)
Definition deleteItem_update (id' : string) (prev : list ContentItem) : list ContentItem :=
  filter (λ i, id i ≠ id') prev.

(** [currentOrder.filter(itemId => itemId !== id)] *)
Definition removeFromOrder (id' : string) (currentOrder : list string) : list string :=
  filter (λ itemId, itemId ≠ id') currentOrder.

(** ** hooks/useFirebaseDB.ts *)

Module Firebase.

(** The documents of the Firestore database the hook reads and writes:
    the collection [content] (by document id), and the documents
    [config/settings] and [config/meta]. *)
Record Firestore := {
  content : gmap string ContentItem;
  config_settings : option SiteSettings;
  config_meta : option ContentMeta
}.

(** The calls to the Firestore SDK, with the path they address. *)
Inductive Call :=
  | GetDoc (collection name : string)
  | GetDocs (collection : string)
  | SetDoc (collection name : string)
  | DeleteDoc (collection name : string).

Inductive Event :=
  | SetState (cell : string)
  | Remote (call : Call)
  | GetItem (key : string)
  | Fetch (url : string).

(** The state cells of the hook, and what is around it. *)
Record World := {
  items : list ContentItem;
  settings : SiteSettings;
  isLoading : bool;
  error : option string;
  db : Firestore;
  localStorage : LocalStorage;
  trace : list Event
}.

(** What the hook does not decide: the configuration, which calls to the
    database throw, and what the static files give. *)
Record Env := {
  isFirebaseConfigured : bool;
  throws : Call → bool;
  static_settings : Response SiteSettings;
  static_content : string → Response ContentItem
}.

Definition initial (d : Firestore) (ls : LocalStorage) : World :=
  {| items := []; settings := DEFAULT_SETTINGS; isLoading := true; error := None;
     db := d; localStorage := ls; trace := [] |}.

Definition log (e : Event) (w : World) : World :=
  {| items := items w; settings := settings w; isLoading := isLoading w;
     error := error w; db := db w; localStorage := localStorage w;
     trace := trace w ++ [e] |}.

Definition with_db (f : Firestore → Firestore) (w : World) : World :=
  {| items := items w; settings := settings w; isLoading := isLoading w;
     error := error w; db := f (db w); localStorage := localStorage w;
     trace := trace w |}.

(** [setItems(updater)] *)
Definition setItems (updater : list ContentItem → list ContentItem) : Eff World unit :=
  modify (λ w,
    log (SetState "items")
      {| items := updater (items w); settings := settings w; isLoading := isLoading w;
         error := error w; db := db w; localStorage := localStorage w;
         trace := trace w |}).

Definition setSettings (s : SiteSettings) : Eff World unit :=
  modify (λ w,
    log (SetState "settings")
      {| items := items w; settings := s; isLoading := isLoading w;
         error := error w; db := db w; localStorage := localStorage w;
         trace := trace w |}).

Definition setIsLoading (b : bool) : Eff World unit :=
  modify (λ w,
    log (SetState "isLoading")
      {| items := items w; settings := settings w; isLoading := b;
         error := error w; db := db w; localStorage := localStorage w;
         trace := trace w |}).

Definition setError (e : option string) : Eff World unit :=
  modify (λ w,
    log (SetState "error")
      {| items := items w; settings := settings w; isLoading := isLoading w;
         error := e; db := db w; localStorage := localStorage w;
         trace := trace w |}).

Section Hook.
Context (env : Env).

(** A call to the database: it is made, then throws or goes through. *)
Definition remote {A} (call : Call) (read : Firestore → A)
    (write : Firestore → Firestore) : Eff World A :=
  modify (log (Remote call)) ;;
  if throws env call then throw
  else modify (with_db write) ;; gets (λ w, read (db w)).

(** [getDoc(doc(db, 'config', 'settings'))]; the result is the data of
    the document when [exists()]. *)
Definition getDoc_settings : Eff World (option SiteSettings) :=
  remote (GetDoc "config" "settings") config_settings (λ d, d).

Definition getDoc_meta : Eff World (option ContentMeta) :=
  remote (GetDoc "config" "meta") config_meta (λ d, d).

(** [getDocs(collection(db, 'content'))] with
    [loadedContent.push({ ...doc.data(), id: doc.id })] for each document,
    in the order in which the store enumerates them. *)
Definition getDocs_content : Eff World (list ContentItem) :=
  remote (GetDocs "content")
    (λ d, (λ kv, {| id := kv.1; type := type kv.2; title := title kv.2;
                    body := body kv.2; excerpt := excerpt kv.2; date := date kv.2 |})
          <$> map_to_list (content d))
    (λ d, d).

(** [setDoc(doc(db, 'content', item.id), item)] *)
Definition setDoc_content (item : ContentItem) : Eff World unit :=
  remote (SetDoc "content" (id item)) (λ _, tt)
    (λ d, {| content := <[id item := item]> (content d);
             config_settings := config_settings d; config_meta := config_meta d |}).

(** [deleteDoc(doc(db, 'content', id))] *)
Definition deleteDoc_content (id' : string) : Eff World unit :=
  remote (DeleteDoc "content" id') (λ _, tt)
    (λ d, {| content := delete id' (content d);
             config_settings := config_settings d; config_meta := config_meta d |}).

(** [setDoc(doc(db, 'config', 'meta'), meta)] *)
Definition setDoc_meta (meta : ContentMeta) : Eff World unit :=
  remote (SetDoc "config" "meta") (λ _, tt)
    (λ d, {| content := content d;
             config_settings := config_settings d; config_meta := Some meta |}).

(** [setDoc(doc(db, 'config', 'settings'), newSettings)] *)
Definition setDoc_settings (s : SiteSettings) : Eff World unit :=
  remote (SetDoc "config" "settings") (λ _, tt)
    (λ d, {| content := content d;
             config_settings := Some s; config_meta := config_meta d |}).

(** [localStorage.getItem('cms_content')] *)
Definition getItem_content : Eff World (option (Json (list ContentItem))) :=
  modify (log (GetItem "cms_content")) ;; gets (λ w, cms_content (localStorage w)).

Definition getItem_settings : Eff World (option (Json SiteSettings)) :=
  modify (log (GetItem "cms_settings")) ;; gets (λ w, cms_settings (localStorage w)).

(** [await fetch(url)]: a rejected promise is an exception. *)
Definition fetch {A} (url : string) (r : Response A) : Eff World (option (Json A)) :=
  modify (log (Fetch url)) ;;
  match r with
  | NetworkError => throw
  | NotOk => mret None
  | Ok body => mret (Some body)
  end.

(** The loop over [contentFiles]: each file in its own [try]; a file
    that cannot be fetched or parsed is skipped. *)
Fixpoint loadStaticFiles (files : list string) (loadedContent : list ContentItem)
    : Eff World (list ContentItem) :=
  match files with
  | [] => mret loadedContent
  | file :: files' =>
      loaded ← try_catch
        (res ← fetch ("/content/" +:+ file) (static_content env file);
         match res with
         | Some text => item ← JSON_parse text; mret (loadedContent ++ [item])
         | None => mret loadedContent
         end)
        (mret loadedContent);
      loadStaticFiles files' loaded
  end.

(** The part of [fetchContent] under [if (isFirebaseConfigured)]; the
    result tells whether the function has returned there. *)
Definition fetchFromFirebase : Eff World bool :=
  settingsDoc ← getDoc_settings;
  match settingsDoc with
  | Some data => setSettings data
  | None => mret tt
  end ;;
  loadedContent ← getDocs_content;
  metaDoc ← getDoc_meta;
  let contentOrder :=
    match metaDoc with Some meta => contentOrder meta | None => [] end in
  let loadedContent := sortByContentOrder contentOrder loadedContent in
  if bool_decide (0 < length loadedContent)
  then setItems (λ _, loadedContent) ;; setIsLoading false ;; mret true
  else mret false.

(** The rest of the [try] block of [fetchContent]. *)
Definition fetchFallback : Eff World unit :=
  savedContent ← getItem_content;
  savedSettings ← getItem_settings;
  match savedContent with
  | Some text =>
      parsed ← JSON_parse text;
      setItems (λ _, parsed) ;;
      match savedSettings with
      | Some text' => s ← JSON_parse text'; setSettings s
      | None => mret tt
      end ;;
      setIsLoading false
  | None =>
      settingsRes ← fetch "/content/settings.json" (static_settings env);
      match settingsRes with
      | Some text => staticSettings ← JSON_parse text; setSettings staticSettings
      | None => mret tt
      end ;;
      loadedContent ← loadStaticFiles contentFiles [];
      let finalContent :=
        if bool_decide (0 < length loadedContent) then loadedContent
        else DEFAULT_CONTENT in
      setItems (λ _, finalContent) ;;
      setIsLoading false
  end.

(** The [catch] block of [fetchContent]. *)
Definition fetchFailed : Eff World unit :=
  setError (Some "Failed to load content") ;;
  setItems (λ _, DEFAULT_CONTENT) ;;
  setIsLoading false.

Definition fetchContent : Eff World unit :=
  setIsLoading true ;;
  setError None ;;
  try_catch
    (returned ← (if isFirebaseConfigured env then fetchFromFirebase else mret false);
     if returned : bool then mret tt else fetchFallback)
    fetchFailed.

Definition saveItem (item : ContentItem) : Eff World bool :=
  setItems (saveItem_update item) ;;
  if isFirebaseConfigured env then
    try_catch
      (setDoc_content item ;;
       try_catch
         (metaDoc ← getDoc_meta;
          let currentOrder :=
            match metaDoc with Some meta => contentOrder meta | None => [] end in
          if bool_decide (id item ∈ currentOrder) then mret tt
          else setDoc_meta {| contentOrder := id item :: currentOrder |})
         (mret tt) ;;
       mret true)
      (mret false)
  else mret true.

Definition deleteItem (id' : string) : Eff World bool :=
  setItems (deleteItem_update id') ;;
  if isFirebaseConfigured env then
    try_catch
      (deleteDoc_content id' ;;
       metaDoc ← getDoc_meta;
       match metaDoc with
       | Some meta =>
           setDoc_meta {| contentOrder := removeFromOrder id' (contentOrder meta) |}
       | None => mret tt
       end ;;
       mret true)
      (mret false)
  else mret true.

Definition saveSettings (newSettings : SiteSettings) : Eff World bool :=
  setSettings newSettings ;;
  if isFirebaseConfigured env then
    try_catch (setDoc_settings newSettings ;; mret true) (mret false)
  else mret true.

Definition saveMeta (meta : ContentMeta) : Eff World bool :=
  if isFirebaseConfigured env then
    try_catch (setDoc_meta meta ;; mret true) (mret false)
  else mret true.

End Hook.

(** The ledger as [fetchContent] reads it:
    [metaDoc.exists() ? metaDoc.data().contentOrder : []]. *)
Definition ledger (d : Firestore) : list string :=
  match config_meta d with Some meta => contentOrder meta | None => [] end.

End Firebase.

(** ** The hook [useGitHubDB] (second part of hooks/useFirebaseDB.ts) *)

Module GitHub.

(** *** String helpers of [generateFilename] and of the file filter

    Texts are byte strings: a text of the program is represented by its
    UTF-8 encoding. *)

Definition toLowerCase_char (c : ascii) : ascii :=
  let n := nat_of_ascii c in
  if bool_decide (65 ≤ n ≤ 90) then ascii_of_nat (n + 32) else c.

(** The two characters outside ASCII whose lower case holds an ASCII
    letter: U+0130 (bytes C4 B0), which becomes [i] followed by U+0307
    (bytes CC 87), and U+212A (bytes E2 84 AA), which becomes [k]. *)
Definition is_capital_I_with_dot (c1 c2 : ascii) : bool :=
  bool_decide (nat_of_ascii c1 = 196) && bool_decide (nat_of_ascii c2 = 176).

Definition is_kelvin_sign (c1 c2 c3 : ascii) : bool :=
  bool_decide (nat_of_ascii c1 = 226) && bool_decide (nat_of_ascii c2 = 132)
  && bool_decide (nat_of_ascii c3 = 170).

(** [s.toLowerCase()], as far as [generateFilename] can tell: the ASCII
    letters and the two characters above are lowered; every other character
    outside ASCII is left as it is (its lower case is outside ASCII as
    well, and the replacement that follows turns either into a dash). *)
Fixpoint toLowerCase (s : string) : string :=
  match s with
  | EmptyString => EmptyString
  | String c s' =>
      match s' with
      | String c2 s2 =>
          if is_capital_I_with_dot c c2
          then String "i"%char
                 (String (ascii_of_nat 204) (String (ascii_of_nat 135) (toLowerCase s2)))
          else
            match s2 with
            | String c3 s3 =>
                if is_kelvin_sign c c2 c3 then String "k"%char (toLowerCase s3)
                else String (toLowerCase_char c) (toLowerCase s')
            | EmptyString => String (toLowerCase_char c) (toLowerCase s')
            end
      | EmptyString => String (toLowerCase_char c) (toLowerCase s')
      end
  end.

(** the class [[a-z0-9]] *)
Definition is_slug_char (c : ascii) : bool :=
  let n := nat_of_ascii c in
  bool_decide (97 ≤ n ≤ 122) || bool_decide (48 ≤ n ≤ 57).

(** [.replace(/[^a-z0-9]+/g, '-')]; [in_run] tells that the previous
    character was outside the class. *)
Fixpoint replace_runs (in_run : bool) (s : string) : string :=
  match s with
  | EmptyString => EmptyString
  | String c s' =>
      if is_slug_char c then String c (replace_runs false s')
      else if in_run then replace_runs true s'
      else String "-"%char (replace_runs true s')
  end.

Definition strip_leading_dash (s : string) : string :=
  match s with
  | String "-"%char s' => s'
  | _ => s
  end.

(** [.replace(/^-|-$/g, '')] *)
Definition strip_dashes (s : string) : string :=
  String.rev (strip_leading_dash (String.rev (strip_leading_dash s))).

(** [s.endsWith(suffix)] *)
Definition endsWith (s suffix : string) : bool :=
  String.prefix (String.rev suffix) (String.rev s).

Definition generateFilename (item : ContentItem) : string :=
  let suffix :=
    match type item with STORY => "story" | POEM => "poem" | QUOTE => "quote" end in
  match type item with
  | QUOTE => suffix +:+ "-" +:+ id item +:+ ".json"
  | _ =>
      let slug :=
        match title item with
        | Some (String c t) =>
            String.substring 0 30
              (strip_dashes (replace_runs false (toLowerCase (String c t))))
        | _ => id item
        end in
      suffix +:+ "-" +:+ slug +:+ ".json"
  end.

(** *** The repository folder behind the GitHub API *)

(** A file: its revision token and what decoding and parsing its content
    gives.  A file holds the JSON text of a value of its kind, or a text
    that cannot be decoded or parsed. *)
Record File (A : Type) := { sha : string; text : Json A }.
Arguments sha {A} _.
Arguments text {A} _.

(** The folder [CONTENT_PATH] on the branch: [settings.json], [meta.json]
    and the other files, by name. *)
Record Repo := {
  settings_json : option (File SiteSettings);
  meta_json : option (File ContentMeta);
  content_json : gmap string (File ContentItem)
}.

Inductive Call :=
  | Get (path : string)
  | List (path : string)
  | Put (path : string) (sha : option string)
  | Delete (path : string) (sha : string).

Inductive Event :=
  | SetState (cell : string)
  | Remote (call : Call)
  | GetItem (key : string)
  | SetItem (key : string)
  | Fetch (url : string).

Record World := {
  items : list ContentItem;
  settings : SiteSettings;
  isLoading : bool;
  error : option string;
  repo : Repo;
  localStorage : LocalStorage;
  trace : list Event
}.

(** What the hook does not decide: the configuration (the branch only
    occurs in the addresses of the calls; [CONTENT_PATH] is the value after
    the default ['content'] is applied), which calls the API refuses, the
    revision tokens the server gives, and what the static files give. *)
Record Env := {
  GITHUB_TOKEN : string;
  GITHUB_REPO : string;
  CONTENT_PATH : string;
  throws : Call → bool;
  sha_of_item : ContentItem → string;
  sha_of_settings : SiteSettings → string;
  sha_of_meta : ContentMeta → string;
  static_settings : Response SiteSettings;
  static_meta : Response ContentMeta;
  static_content : string → Response ContentItem
}.

Definition log (e : Event) (w : World) : World :=
  {| items := items w; settings := settings w; isLoading := isLoading w;
     error := error w; repo := repo w; localStorage := localStorage w;
     trace := trace w ++ [e] |}.

Definition with_repo (f : Repo → Repo) (w : World) : World :=
  {| items := items w; settings := settings w; isLoading := isLoading w;
     error := error w; repo := f (repo w); localStorage := localStorage w;
     trace := trace w |}.

Definition with_items (f : list ContentItem → list ContentItem) (w : World) : World :=
  {| items := f (items w); settings := settings w; isLoading := isLoading w;
     error := error w; repo := repo w; localStorage := localStorage w;
     trace := trace w |}.

(** [localStorage.setItem('cms_content', JSON.stringify(newItems))] *)
Definition store_content (newItems : list ContentItem) (w : World) : World :=
  log (SetItem "cms_content")
    {| items := items w; settings := settings w; isLoading := isLoading w;
       error := error w; repo := repo w;
       localStorage := {| cms_content := Some (Parses newItems);
                          cms_settings := cms_settings (localStorage w) |};
       trace := trace w |}.

Definition store_settings (s : SiteSettings) (w : World) : World :=
  log (SetItem "cms_settings")
    {| items := items w; settings := settings w; isLoading := isLoading w;
       error := error w; repo := repo w;
       localStorage := {| cms_content := cms_content (localStorage w);
                          cms_settings := Some (Parses s) |};
       trace := trace w |}.

Definition setItems (updater : list ContentItem → list ContentItem) : Eff World unit :=
  modify (λ w, log (SetState "items") (with_items updater w)).

(** [setItems(prev => { const newItems = ...; localStorage.setItem(...);
    return newItems; })] *)
Definition setItems_stored (updater : list ContentItem → list ContentItem)
    : Eff World unit :=
  modify (λ w, store_content (updater (items w))
                 (log (SetState "items") (with_items updater w))).

Definition setSettings (s : SiteSettings) : Eff World unit :=
  modify (λ w,
    log (SetState "settings")
      {| items := items w; settings := s; isLoading := isLoading w;
         error := error w; repo := repo w; localStorage := localStorage w;
         trace := trace w |}).

Definition setIsLoading (b : bool) : Eff World unit :=
  modify (λ w,
    log (SetState "isLoading")
      {| items := items w; settings := settings w; isLoading := b;
         error := error w; repo := repo w; localStorage := localStorage w;
         trace := trace w |}).

Definition setError (e : option string) : Eff World unit :=
  modify (λ w,
    log (SetState "error")
      {| items := items w; settings := settings w; isLoading := isLoading w;
         error := e; repo := repo w; localStorage := localStorage w;
         trace := trace w |}).

Section Hook.
Context (env : Env).

(** [Boolean(GITHUB_TOKEN && GITHUB_REPO)] *)
Definition isGitHubConfigured : bool :=
  negb (bool_decide (GITHUB_TOKEN env = EmptyString)) && negb (bool_decide (GITHUB_REPO env = EmptyString)).

Definition settings_path : string := CONTENT_PATH env +:+ "/settings.json".
Definition meta_path : string := CONTENT_PATH env +:+ "/meta.json".
Definition content_path (name : string) : string := CONTENT_PATH env +:+ "/" +:+ name.

(** [githubApi]: throws when the hook is not configured, when the
    request fails or when the response is not [ok] (as for a file that
    does not exist). *)
Definition githubApi {A} (call : Call) (respond : Repo → option A)
    (write : Repo → Repo) : Eff World A :=
  if negb isGitHubConfigured then throw
  else
    modify (log (Remote call)) ;;
    if throws env call then throw
    else
      response ← gets (λ w, respond (repo w));
      match response with
      | Some a => modify (with_repo write) ;; mret a
      | None => throw
      end.

(** [getFileContent(path)]: the parsed content and the revision token,
    or [null] on any failure. *)
Definition getFileContent {A} (path : string) (lookup : Repo → option (File A))
    : Eff World (option (A * string)) :=
  try_catch
    (file ← githubApi (Get path) lookup (λ r, r);
     match text file with
     | Parses a => mret (Some (a, sha file))
     | Malformed => mret None
     end)
    (mret None).

(** [...(sha && { sha })]: an empty token is left out. *)
Definition sent_sha (sha : option string) : option string :=
  match sha with
  | Some EmptyString => None
  | _ => sha
  end.

(** [btoa(text)] throws when the text holds a code unit above 0xFF, which
    is when its UTF-8 encoding holds a byte from 0xC4 on. *)
Fixpoint btoa_accepts (s : string) : bool :=
  match s with
  | EmptyString => true
  | String c s' => bool_decide (nat_of_ascii c < 196) && btoa_accepts s'
  end.

(** Whether [btoa(JSON.stringify(content, null, 2))] goes through: the
    keys, the punctuation and the escapes of the JSON text are ASCII, so
    this is decided by the texts the content holds. *)
Definition encodes_item (item : ContentItem) : bool :=
  btoa_accepts (id item)
  && from_option btoa_accepts true (title item)
  && btoa_accepts (body item)
  && from_option btoa_accepts true (excerpt item)
  && from_option btoa_accepts true (date item).

Definition encodes_meta (meta : ContentMeta) : bool :=
  forallb btoa_accepts (contentOrder meta).

Definition encodes_settings (s : SiteSettings) : bool :=
  btoa_accepts (siteTitle s) && btoa_accepts (siteDescription s)
  && btoa_accepts (authorName s) && btoa_accepts (authorBio s)
  && forallb btoa_accepts (authorRoles s).

(** [saveFileToGitHub(path, content, sha)]; [encodes] tells whether the
    encoding of the content, which comes before the request, goes
    through. *)
Definition saveFileToGitHub (path : string) (encodes : bool) (sha : option string)
    (write : Repo → Repo) : Eff World bool :=
  try_catch
    ((if encodes then mret tt else throw) ;;
     githubApi (Put path (sent_sha sha)) (λ _, Some tt) write ;; mret true)
    (mret false).

(** [deleteFileFromGitHub(path, sha)] *)
Definition deleteFileFromGitHub (path sha : string) (write : Repo → Repo)
    : Eff World bool :=
  try_catch
    (githubApi (Delete path sha) (λ _, Some tt) write ;; mret true)
    (mret false).

Definition put_item (name : string) (item : ContentItem) (r : Repo) : Repo :=
  {| settings_json := settings_json r; meta_json := meta_json r;
     content_json :=
       <[name := {| sha := sha_of_item env item; text := Parses item |}]> (content_json r) |}.

Definition put_meta (meta : ContentMeta) (r : Repo) : Repo :=
  {| settings_json := settings_json r;
     meta_json := Some {| sha := sha_of_meta env meta; text := Parses meta |};
     content_json := content_json r |}.

Definition put_settings (s : SiteSettings) (r : Repo) : Repo :=
  {| settings_json := Some {| sha := sha_of_settings env s; text := Parses s |};
     meta_json := meta_json r;
     content_json := content_json r |}.

Definition remove_item (name : string) (r : Repo) : Repo :=
  {| settings_json := settings_json r; meta_json := meta_json r;
     content_json := delete name (content_json r) |}.

(** The names of the files of the folder. *)
Definition folder (r : Repo) : list string :=
  (map_to_list (content_json r)).*1
  ++ match settings_json r with Some _ => ["settings.json"] | None => [] end
  ++ match meta_json r with Some _ => ["meta.json"] | None => [] end.

(** [listFiles(CONTENT_PATH)], then the filter on the names. *)
Definition listContentFiles : Eff World (list string) :=
  files ← try_catch
    (githubApi (List (CONTENT_PATH env)) (λ r, Some (folder r)) (λ r, r))
    (mret []);
  mret (filter (λ name, endsWith name ".json" = true
                        ∧ name ≠ "settings.json" ∧ name ≠ "meta.json") files).

Definition getFileContent_item (name : string) : Eff World (option (ContentItem * string)) :=
  getFileContent (content_path name) (λ r, content_json r !! name).

Definition getFileContent_meta : Eff World (option (ContentMeta * string)) :=
  getFileContent meta_path meta_json.

Definition getFileContent_settings : Eff World (option (SiteSettings * string)) :=
  getFileContent settings_path settings_json.

(** [localStorage.getItem('cms_content')] *)
Definition getItem_content : Eff World (option (Json (list ContentItem))) :=
  modify (log (GetItem "cms_content")) ;; gets (λ w, cms_content (localStorage w)).

Definition getItem_settings : Eff World (option (Json SiteSettings)) :=
  modify (log (GetItem "cms_settings")) ;; gets (λ w, cms_settings (localStorage w)).

(** [await fetch(url)]: a rejected promise is an exception. *)
Definition fetch {A} (url : string) (r : Response A) : Eff World (option (Json A)) :=
  modify (log (Fetch url)) ;;
  match r with
  | NetworkError => throw
  | NotOk => mret None
  | Ok body => mret (Some body)
  end.

(** The loop over the content files of the repository:
    [if (data?.content) loadedContent.push(data.content)]. *)
Fixpoint loadContentFiles (names : list string) (loadedContent : list ContentItem)
    : Eff World (list ContentItem) :=
  match names with
  | [] => mret loadedContent
  | name :: rest =>
      data ← getFileContent_item name;
      loadContentFiles rest
        match data with
        | Some (item, _) => loadedContent ++ [item]
        | None => loadedContent
        end
  end.

(** The loop over the bundled static files, each file in its own [try]. *)
Fixpoint loadStaticFiles (files : list string) (loadedContent : list ContentItem)
    : Eff World (list ContentItem) :=
  match files with
  | [] => mret loadedContent
  | file :: files' =>
      loaded ← try_catch
        (res ← fetch ("/content/" +:+ file) (static_content env file);
         match res with
         | Some text => item ← JSON_parse text; mret (loadedContent ++ [item])
         | None => mret loadedContent
         end)
        (mret loadedContent);
      loadStaticFiles files' loaded
  end.

(** The inner [try] block of [fetchContent], under [if (isGitHubConfigured)];
    the result tells whether the function has returned there. *)
Definition fetchFromGitHub (savedSettings : option (Json SiteSettings)) : Eff World bool :=
  settingsData ← getFileContent_settings;
  match settingsData with
  | Some (s, _) => setSettings s ;; modify (store_settings s)
  | None =>
      match savedSettings with
      | Some text => s ← JSON_parse text; setSettings s
      | None => mret tt
      end
  end ;;
  metaData ← getFileContent_meta;
  let contentOrder :=
    match metaData with Some (meta, _) => contentOrder meta | None => [] end in
  names ← listContentFiles;
  loadedContent ← loadContentFiles names [];
  let loadedContent := sortByContentOrder contentOrder loadedContent in
  if bool_decide (0 < length loadedContent) then
    setItems (λ _, loadedContent) ;;
    modify (store_content loadedContent) ;;
    setIsLoading false ;;
    mret true
  else mret false.

(** The block under [if (savedContent)], in its own [try]. *)
Definition fetchFromCache (savedContent : option (Json (list ContentItem)))
    (savedSettings : option (Json SiteSettings)) : Eff World bool :=
  match savedContent with
  | Some text =>
      try_catch
        (parsed ← JSON_parse text;
         setItems (λ _, parsed) ;;
         match savedSettings with
         | Some text' => s ← JSON_parse text'; setSettings s
         | None => mret tt
         end ;;
         setIsLoading false ;;
         mret true)
        (mret false)
  | None => mret false
  end.

(** The static files: settings, ledger and content, then the copy to the
    local cache. *)
Definition fetchStatic : Eff World unit :=
  siteSettings ← try_catch
    (res ← fetch "/content/settings.json" (static_settings env);
     match res with
     | Some text => s ← JSON_parse text; setSettings s ;; mret s
     | None => mret DEFAULT_SETTINGS
     end)
    (mret DEFAULT_SETTINGS);
  contentOrder ← try_catch
    (res ← fetch "/content/meta.json" (static_meta env);
     match res with
     | Some text => meta ← JSON_parse text; mret (contentOrder meta)
     | None => mret []
     end)
    (mret []);
  loadedContent ← loadStaticFiles contentFiles [];
  let loadedContent := sortByContentOrder contentOrder loadedContent in
  let finalContent :=
    if bool_decide (0 < length loadedContent) then loadedContent else DEFAULT_CONTENT in
  setItems (λ _, finalContent) ;;
  modify (store_content finalContent) ;;
  modify (store_settings siteSettings).

(** The outer [catch] block of [fetchContent]. *)
Definition fetchFailed : Eff World unit :=
  setError (Some "Failed to load content") ;;
  setItems (λ _, DEFAULT_CONTENT).

Definition fetchContent : Eff World unit :=
  setIsLoading true ;;
  setError None ;;
  try_finally
    (try_catch
       (savedContent ← getItem_content;
        savedSettings ← getItem_settings;
        returned ← (if isGitHubConfigured
                    then try_catch (fetchFromGitHub savedSettings) (mret false)
                    else mret false);
        if returned : bool then mret tt
        else
          returned' ← fetchFromCache savedContent savedSettings;
          if returned' : bool then mret tt else fetchStatic)
       fetchFailed)
    (setIsLoading false).

Definition saveItem (item : ContentItem) : Eff World bool :=
  setItems_stored (saveItem_update item) ;;
  if isGitHubConfigured then
    let filename := generateFilename item in
    existing ← getFileContent_item filename;
    success ← saveFileToGitHub (content_path filename) (encodes_item item)
                (snd <$> existing) (put_item filename item);
    (if success : bool then
       metaData ← getFileContent_meta;
       let currentOrder :=
         match metaData with Some (meta, _) => contentOrder meta | None => [] end in
       if bool_decide (id item ∈ currentOrder) then mret tt
       else
         let newOrder := id item :: filter (λ i, i ≠ id item) currentOrder in
         saveFileToGitHub meta_path (encodes_meta {| contentOrder := newOrder |})
           (snd <$> metaData) (put_meta {| contentOrder := newOrder |}) ;;
         mret tt
     else mret tt) ;;
    mret success
  else mret true.

(** The loop of [deleteItem] over the content files; [Some success] when
    the function has returned from inside the loop. *)
Fixpoint deleteFirstMatch (id' : string) (contentFiles : list string)
    : Eff World (option bool) :=
  match contentFiles with
  | [] => mret None
  | name :: rest =>
      data ← getFileContent_item name;
      match data with
      | Some (item, file_sha) =>
          if decide (id item = id') then
            success ← deleteFileFromGitHub (content_path name) file_sha
                        (remove_item name);
            (if success : bool then
               metaData ← getFileContent_meta;
               match metaData with
               | Some (meta, meta_sha) =>
                   let newOrder := removeFromOrder id' (contentOrder meta) in
                   saveFileToGitHub meta_path (encodes_meta {| contentOrder := newOrder |})
                     (Some meta_sha) (put_meta {| contentOrder := newOrder |}) ;;
                   mret tt
               | None => mret tt
               end
             else mret tt) ;;
            mret (Some success)
          else deleteFirstMatch id' rest
      | None => deleteFirstMatch id' rest
      end
  end.

Definition deleteItem (id' : string) : Eff World bool :=
  setItems_stored (deleteItem_update id') ;;
  if isGitHubConfigured then
    contentFiles ← listContentFiles;
    returned ← deleteFirstMatch id' contentFiles;
    match returned with
    | Some success => mret success
    | None => mret true
    end
  else mret true.

Definition saveSettings (newSettings : SiteSettings) : Eff World bool :=
  setSettings newSettings ;;
  modify (store_settings newSettings) ;;
  if isGitHubConfigured then
    existing ← getFileContent_settings;
    saveFileToGitHub settings_path (encodes_settings newSettings)
      (snd <$> existing) (put_settings newSettings)
  else mret true.

Definition saveMeta (meta : ContentMeta) : Eff World bool :=
  if isGitHubConfigured then
    existing ← getFileContent_meta;
    saveFileToGitHub meta_path (encodes_meta meta) (snd <$> existing) (put_meta meta)
  else mret true.

End Hook.

(** The ledger as the hook reads it:
    [metaData?.content?.contentOrder || []]. *)
Definition ledger (r : Repo) : list string :=
  match meta_json r with
  | Some {| text := Parses meta |} => contentOrder meta
  | _ => []
  end.

End GitHub.

(** ** hooks/useAuth.ts *)

Module useAuth.

Record State := {
  isAuthenticated : bool;
  isLoading : bool;
  sessionStorage : gmap string string
}.

Section Hook.
(** [import.meta.env.VITE_ADMIN_PASSWORD], absent or a text. *)
Context (VITE_ADMIN_PASSWORD : option string).

(** [import.meta.env.VITE_ADMIN_PASSWORD || 'jacopo'] *)
Definition ADMIN_PASSWORD : string :=
  match VITE_ADMIN_PASSWORD with
  | Some (String c s) => String c s
  | _ => "jacopo"
  end.

(** The effect run on mount. *)
Definition checkAuth (st : State) : State :=
  {| isAuthenticated :=
       if decide (sessionStorage st !! "cms_authenticated" = Some "true") then true
       else isAuthenticated st;
     isLoading := false;
     sessionStorage := sessionStorage st |}.

Definition login (password : string) (st : State) : bool * State :=
  if decide (password = ADMIN_PASSWORD) then
    (true,
     {| isAuthenticated := true;
        isLoading := isLoading st;
        sessionStorage := <["cms_authenticated" := "true"]> (sessionStorage st) |})
  else (false, st).

Definition logout (st : State) : State :=
  {| isAuthenticated := false;
     isLoading := isLoading st;
     sessionStorage := delete "cms_authenticated" (sessionStorage st) |}.
End Hook.

(** The state of the hook before its mount effect, in a browsing session
    with the given session storage. *)
Definition initial (storage : gmap string string) : State :=
  {| isAuthenticated := false; isLoading := true; sessionStorage := storage |}.

End useAuth.

(** ** components/Login.tsx *)

Module Login.

Definition MAX_ATTEMPTS : nat := 3.
Definition LOCKOUT_DURATION : Z := 30.

Record State := {
  password : string;
  error : bool;
  attempts : nat;
  isLocked : bool;
  lockoutTimer : Z
}.

Definition initial : State :=
  {| password := EmptyString; error := false; attempts := 0; isLocked := false; lockoutTimer := 0 |}.

(** What a call of the [onLogin] property gives back at run time: the
    property is declared to return a boolean; an [async] function passed
    for it returns a promise. *)
Inductive Returned :=
  | Boolean (b : bool)
  | Promise (settles_to : bool).

(** The truth value of [if (success)]: a promise is an object, and an
    object is truthy. *)
Definition ToBoolean (v : Returned) : bool :=
  match v with
  | Boolean b => b
  | Promise _ => true
  end.

Inductive Event :=
  | Change (value : string)   (* typing in the field: [setPassword] *)
  | Submit                    (* the form is submitted: [handleSubmit] *)
  | Tick                      (* one second of the interval elapses *)
  | ErrorTimeout.             (* the 800 ms timeout set by a failed submit *)

(** The effect on [[isLocked, lockoutTimer]]: it keeps an interval while
    the form is locked and the timer is positive, and releases the lock
    when the timer is at zero. *)
Definition interval_active (st : State) : bool :=
  isLocked st && (0 <? lockoutTimer st)%Z.

Definition effect (st : State) : State :=
  if isLocked st && (0 <? lockoutTimer st)%Z then st
  else if (lockoutTimer st =? 0)%Z && isLocked st then
    {| password := password st; error := error st; attempts := 0;
       isLocked := false; lockoutTimer := lockoutTimer st |}
  else st.

(** The callback of the interval: [setLockoutTimer(prev => prev - 1)]. *)
Definition tick (st : State) : State :=
  if interval_active st then
    {| password := password st; error := error st; attempts := attempts st;
       isLocked := isLocked st; lockoutTimer := (lockoutTimer st - 1)%Z |}
  else st.

Section Component.
(** The property [onLogin], acting on the state of the parent. *)
Context {Parent : Type} (onLogin : string → Parent → Returned * Parent).

Definition handleSubmit (st : State) (parent : Parent) : State * Parent :=
  if isLocked st then (st, parent)
  else
    let '(success, parent') := onLogin (password st) parent in
    if ToBoolean success then
      ({| password := password st; error := false; attempts := attempts st;
          isLocked := isLocked st; lockoutTimer := lockoutTimer st |}, parent')
    else
      let nextAttempts := attempts st + 1 in
      let locks := bool_decide (MAX_ATTEMPTS ≤ nextAttempts) in
      ({| password := password st; error := true; attempts := nextAttempts;
          isLocked := if locks then true else isLocked st;
          lockoutTimer := if locks then LOCKOUT_DURATION else lockoutTimer st |},
       parent').

(** One event of the mounted component, followed by its effect. *)
Definition step (ev : Event) (st : State) (parent : Parent) : State * Parent :=
  match ev with
  | Change value =>
      ({| password := value; error := error st; attempts := attempts st;
          isLocked := isLocked st; lockoutTimer := lockoutTimer st |}, parent)
  | Submit =>
      let '(st', parent') := handleSubmit st parent in (effect st', parent')
  | Tick => (effect (tick st), parent)
  | ErrorTimeout =>
      ({| password := password st; error := false; attempts := attempts st;
          isLocked := isLocked st; lockoutTimer := lockoutTimer st |}, parent)
  end.

Fixpoint run (evs : list Event) (st : State) (parent : Parent) : State * Parent :=
  match evs with
  | [] => (st, parent)
  | ev :: evs' => let '(st', parent') := step ev st parent in run evs' st' parent'
  end.
End Component.

(** The component used as its interface declares it: [onLogin] checks the
    password against a secret and returns a boolean. *)
Definition checks (secret : string) (password : string) (parent : unit)
    : Returned * unit :=
  (Boolean (bool_decide (password = secret)), parent).

End Login.

(** ** App.tsx: the views and the wiring of the access gate *)

Module App.

Inductive ViewType :=
  | HOME
  | Content (t : ContentTypeValue)
  | CMS
  | LOGIN.

(** The state of [App] that [handleLoginSubmit] acts on. *)
Record Gate := {
  currentView : ViewType;
  auth : useAuth.State
}.

(** The gate and the [Login] component, which has a state while it is
    mounted, that is while the view is [LOGIN]. *)
Record State := {
  gate : Gate;
  loginForm : option Login.State
}.

Inductive Event :=
  | Nav (view : ViewType)        (* a link of the menu: [handleNav] *)
  | Form (ev : Login.Event)      (* an event of the mounted [Login] *)
  | Logout.                      (* [handleLogout], from the rendered CMS *)

Section App.
Context (VITE_ADMIN_PASSWORD : option string).

(** [const handleLoginSubmit = async (password) => { ... return success; }]:
    the body runs at the call, the caller gets a promise. *)
Definition handleLoginSubmit (password : string) (g : Gate)
    : Login.Returned * Gate :=
  let '(success, auth') := useAuth.login VITE_ADMIN_PASSWORD password (auth g) in
  (Login.Promise success,
   {| currentView := if success then CMS else currentView g; auth := auth' |}).

(** Rendering: [{currentView === "LOGIN" && <Login onLogin={handleLoginSubmit} />}]
    mounts the component with its initial state and drops its state when
    the view changes. *)
Definition render (g : Gate) (form : option Login.State) : State :=
  {| gate := g;
     loginForm :=
       match currentView g with
       | LOGIN => Some (default Login.initial form)
       | _ => None
       end |}.

(** [handleNav], at the end of its delay of 400 ms. *)
Definition handleNav (view : ViewType) (g : Gate) : Gate :=
  {| currentView :=
       match view with
       | CMS => if useAuth.isAuthenticated (auth g) then CMS else LOGIN
       | _ => view
       end;
     auth := auth g |}.

Definition handleLogout (g : Gate) : Gate :=
  {| currentView := HOME; auth := useAuth.logout (auth g) |}.

Definition step (ev : Event) (s : State) : State :=
  match ev with
  | Nav view => render (handleNav view (gate s)) (loginForm s)
  | Form ev =>
      match loginForm s with
      | Some form =>
          let '(form', g') := Login.step handleLoginSubmit ev form (gate s) in
          render g' (Some form')
      | None => s
      end
  | Logout =>
      match currentView (gate s) with
      | CMS =>
          if useAuth.isAuthenticated (auth (gate s))
          then render (handleLogout (gate s)) (loginForm s)
          else s
      | _ => s
      end
  end.

Definition run (evs : list Event) (s : State) : State := foldl (λ s ev, step ev s) s evs.

Definition initial (storage : gmap string string) : State :=
  render {| currentView := HOME;
            auth := useAuth.checkAuth (useAuth.initial storage) |} None.
End App.

End App.

(** ** Notions used to state the properties *)

(** The items the static files give: those that are fetched and parsed. *)
Definition staticItems (env : Firebase.Env) (files : list string) : list ContentItem :=
  omap (λ file,
          match Firebase.static_content env file with
          | Ok (Parses item) => Some item
          | _ => None
          end) files.

(** The documents of the collection [content] as [fetchContent] loads them. *)
Definition loadedDocs (d : Firebase.Firestore) : list ContentItem :=
  (λ kv, {| id := kv.1; type := type kv.2; title := title kv.2;
            body := body kv.2; excerpt := excerpt kv.2; date := date kv.2 |})
  <$> map_to_list (Firebase.content d).

(** A read of the backend by [fetchContent] throws. *)
Definition backend_read_throws (env : Firebase.Env) : Prop :=
  Firebase.throws env (Firebase.GetDoc "config" "settings") = true
  ∨ Firebase.throws env (Firebase.GetDocs "content") = true
  ∨ Firebase.throws env (Firebase.GetDoc "config" "meta") = true.

(** The backend is not configured, or it is read without error and holds no
    item. *)
Definition backend_gives_nothing (env : Firebase.Env) (w : Firebase.World) : Prop :=
  Firebase.isFirebaseConfigured env = false
  ∨ (Firebase.throws env (Firebase.GetDoc "config" "settings") = false
     ∧ Firebase.throws env (Firebase.GetDocs "content") = false
     ∧ Firebase.throws env (Firebase.GetDoc "config" "meta") = false
     ∧ Firebase.content (Firebase.db w) = ∅).

(** The settings after the reads of the backend by [fetchContent]: those
    of the document [config/settings] when the backend is configured, the
    read of the document goes through and the document exists; otherwise
    the settings the hook held before (on the first run
    [DEFAULT_SETTINGS], the initial value of the state cell). *)
Definition backendSettings (env : Firebase.Env) (w : Firebase.World) : SiteSettings :=
  if Firebase.isFirebaseConfigured env
     && negb (Firebase.throws env (Firebase.GetDoc "config" "settings"))
  then default (Firebase.settings w) (Firebase.config_settings (Firebase.db w))
  else Firebase.settings w.

(** The events of [fetchContent] that consult a fallback source. *)
Definition is_fetch (e : Firebase.Event) : bool :=
  match e with Firebase.Fetch _ => true | _ => false end.

Definition is_cache_read (e : Firebase.Event) : bool :=
  match e with Firebase.GetItem _ => true | _ => false end.

(** In a trace, the local cache is read before any static file is
    fetched. *)
Definition cache_before_static (events : list Firebase.Event) : Prop :=
  ∀ i url, events !! i = Some (Firebase.Fetch url) →
    ∃ k, k < i ∧ events !! k = Some (Firebase.GetItem "cms_content").

(** The events an operation adds to the trace. *)
Definition new_events (before after : Firebase.World) : list Firebase.Event :=
  drop (length (Firebase.trace before)) (Firebase.trace after).

Definition set_trace (t : list Firebase.Event) (w : Firebase.World) : Firebase.World :=
  {| Firebase.items := Firebase.items w; Firebase.settings := Firebase.settings w;
     Firebase.isLoading := Firebase.isLoading w; Firebase.error := Firebase.error w;
     Firebase.db := Firebase.db w; Firebase.localStorage := Firebase.localStorage w;
     Firebase.trace := t |}.

(** ** Sample environments *)

Definition item_a : ContentItem :=
  {| id := "1"; type := QUOTE; title := None; body := "a"; excerpt := None; date := None |}.
Definition item_b : ContentItem :=
  {| id := "1"; type := QUOTE; title := None; body := "b"; excerpt := None; date := None |}.
Definition item_c : ContentItem :=
  {| id := "1"; type := QUOTE; title := None; body := "c"; excerpt := None; date := None |}.

(** [useFirebaseDB] without a configured backend. *)
Definition firebase_local_only : Firebase.Env :=
  {| Firebase.isFirebaseConfigured := false;
     Firebase.throws := λ _, false;
     Firebase.static_settings := NotOk;
     Firebase.static_content := λ _, NotOk |}.

(** [useFirebaseDB] with a backend that cannot be reached. *)
Definition firebase_unreachable : Firebase.Env :=
  {| Firebase.isFirebaseConfigured := true;
     Firebase.throws := λ _, true;
     Firebase.static_settings := NotOk;
     Firebase.static_content := λ _, NotOk |}.

(** [useFirebaseDB] with a backend on which the read of the ledger fails. *)
Definition firebase_meta_down : Firebase.Env :=
  {| Firebase.isFirebaseConfigured := true;
     Firebase.throws := λ call,
       match call with
       | Firebase.GetDoc "config" "meta" => true
       | _ => false
       end;
     Firebase.static_settings := NotOk;
     Firebase.static_content := λ _, NotOk |}.

Definition firebase_world (l : list ContentItem) (d : Firebase.Firestore) : Firebase.World :=
  {| Firebase.items := l; Firebase.settings := DEFAULT_SETTINGS;
     Firebase.isLoading := false; Firebase.error := None;
     Firebase.db := d;
     Firebase.localStorage := {| cms_content := None; cms_settings := None |};
     Firebase.trace := [] |}.

Definition empty_db : Firebase.Firestore :=
  {| Firebase.content := ∅; Firebase.config_settings := None; Firebase.config_meta := None |}.

(** A database holding item "1", listed by the ledger. *)
Definition db_one : Firebase.Firestore :=
  {| Firebase.content := {[ "1" := item_a ]};
     Firebase.config_settings := None;
     Firebase.config_meta := Some {| contentOrder := ["1"] |} |}.

(** Settings that are not the default ones. *)
Definition custom_settings : SiteSettings :=
  {| siteTitle := "Custom"; siteDescription := "d"; authorName := "n"; authorBio := "b";
     authorRoles := [] |}.

(** [useFirebaseDB] without a configured backend, deployed with a
    [settings.json] and no content file. *)
Definition firebase_static_settings_only : Firebase.Env :=
  {| Firebase.isFirebaseConfigured := false;
     Firebase.throws := λ _, false;
     Firebase.static_settings := Ok (Parses custom_settings);
     Firebase.static_content := λ _, NotOk |}.

(** A browser whose local cache holds a copy of the content. *)
Definition cached_world : Firebase.World :=
  Firebase.initial db_one {| cms_content := Some (Parses [item_a]); cms_settings := None |}.

(** [useGitHubDB] with a repository that accepts every call. *)
Definition github_ok : GitHub.Env :=
  {| GitHub.GITHUB_TOKEN := "token";
     GitHub.GITHUB_REPO := "owner/repo";
     GitHub.CONTENT_PATH := "content";
     GitHub.throws := λ _, false;
     GitHub.sha_of_item := λ _, "sha-item";
     GitHub.sha_of_settings := λ _, "sha-settings";
     GitHub.sha_of_meta := λ _, "sha-meta";
     GitHub.static_settings := NotOk;
     GitHub.static_meta := NotOk;
     GitHub.static_content := λ _, NotOk |}.

(** [useGitHubDB] with a repository that refuses the write of [meta.json]. *)
Definition github_meta_refused : GitHub.Env :=
  {| GitHub.GITHUB_TOKEN := "token";
     GitHub.GITHUB_REPO := "owner/repo";
     GitHub.CONTENT_PATH := "content";
     GitHub.throws := λ call,
       match call with
       | GitHub.Put path _ => bool_decide (path = "content/meta.json")
       | _ => false
       end;
     GitHub.sha_of_item := λ _, "sha-item";
     GitHub.sha_of_settings := λ _, "sha-settings";
     GitHub.sha_of_meta := λ _, "sha-meta";
     GitHub.static_settings := NotOk;
     GitHub.static_meta := NotOk;
     GitHub.static_content := λ _, NotOk |}.

Definition github_world (l : list ContentItem) (r : GitHub.Repo) : GitHub.World :=
  {| GitHub.items := l; GitHub.settings := DEFAULT_SETTINGS;
     GitHub.isLoading := false; GitHub.error := None;
     GitHub.repo := r;
     GitHub.localStorage := {| cms_content := None; cms_settings := None |};
     GitHub.trace := [] |}.

Definition empty_repo : GitHub.Repo :=
  {| GitHub.settings_json := None; GitHub.meta_json := None; GitHub.content_json := ∅ |}.

(** A repository with one content file, of item "1", and a ledger that
    lists "9" and "1". *)
Definition repo_stale_ledger : GitHub.Repo :=
  {| GitHub.settings_json := None;
     GitHub.meta_json :=
       Some {| GitHub.sha := "sha-meta";
               GitHub.text := Parses {| contentOrder := ["9"; "1"] |} |};
     GitHub.content_json :=
       {[ "quote-1.json" := {| GitHub.sha := "sha-1"; GitHub.text := Parses item_a |} ]} |}.

(** ** Notions of the access gate *)

Definition wrong (secret : string) (guess : string) : Prop := guess ≠ secret.

(** [n] seconds of the countdown. *)
Fixpoint ticks (n : nat) (st : Login.State) : Login.State :=
  match n with
  | 0 => st
  | S n' => ticks n' (Login.effect (Login.tick st))
  end.

(** The mounted form, if any, is not locked and has counted no failure. *)
Definition never_locked (s : App.State) : Prop :=
  ∀ form, App.loginForm s = Some form →
    Login.isLocked form = false ∧ Login.attempts form = 0.

(** [useGitHubDB] with a repository that cannot be reached, in a browser
    whose local cache holds a copy of the content. *)
Definition github_unreachable : GitHub.Env :=
  {| GitHub.GITHUB_TOKEN := "token";
     GitHub.GITHUB_REPO := "owner/repo";
     GitHub.CONTENT_PATH := "content";
     GitHub.throws := λ _, true;
     GitHub.sha_of_item := λ _, "sha-item";
     GitHub.sha_of_settings := λ _, "sha-settings";
     GitHub.sha_of_meta := λ _, "sha-meta";
     GitHub.static_settings := NotOk;
     GitHub.static_meta := NotOk;
     GitHub.static_content := λ _, NotOk |}.

Definition github_cached_world : GitHub.World :=
  {| GitHub.items := []; GitHub.settings := DEFAULT_SETTINGS;
     GitHub.isLoading := true; GitHub.error := None;
     GitHub.repo := repo_stale_ledger;
     GitHub.localStorage :=
       {| cms_content := Some (Parses [item_a]); cms_settings := None |};
     GitHub.trace := [] |}.

(** A story in three versions: as first saved, with a new title, and with
    the new title and an edited body. *)
Definition story : ContentItem :=
  {| id := "7"; type := STORY; title := Some "Old title"; body := "text";
     excerpt := None; date := None |}.
Definition story_renamed : ContentItem :=
  {| id := "7"; type := STORY; title := Some "New title"; body := "text";
     excerpt := None; date := None |}.
Definition story_edited : ContentItem :=
  {| id := "7"; type := STORY; title := Some "New title"; body := "edited";
     excerpt := None; date := None |}.

(** A repository with the file of the story as first saved. *)
Definition repo_one_story : GitHub.Repo :=
  {| GitHub.settings_json := None;
     GitHub.meta_json := None;
     GitHub.content_json :=
       {[ "story-old-title.json" := {| GitHub.sha := "sha-7"; GitHub.text := Parses story |} ]} |}.

(** The session of [useGitHubDB] in which the story is loaded and saved
    with its new title, and the next session, which loads the repository
    again. *)
Definition renamed_session : GitHub.World :=
  final (GitHub.saveItem github_ok story_renamed
           (final (GitHub.fetchContent github_ok (github_world [] repo_one_story)))).

Definition reloaded_session : GitHub.World :=
  final (GitHub.fetchContent github_ok renamed_session).

(** ** The hooks at mount *)

(** The state cells of [useGitHubDB] when the hook mounts, over the
    repository and the local storage of the browser. *)
Definition GitHub_initial (r : GitHub.Repo) (ls : LocalStorage) : GitHub.World :=
  {| GitHub.items := []; GitHub.settings := DEFAULT_SETTINGS;
     GitHub.isLoading := true; GitHub.error := None;
     GitHub.repo := r; GitHub.localStorage := ls; GitHub.trace := [] |}.

(** A new session of [useGitHubDB] after the state [w]: the hook mounts
    over what [w] left outside the page, and its mount effect runs
    [fetchContent]. *)
Definition GitHub_reload (env : GitHub.Env) (w : GitHub.World) : GitHub.World :=
  final (GitHub.fetchContent env (GitHub_initial (GitHub.repo w) (GitHub.localStorage w))).

(** The same for [useFirebaseDB], whose mount effect runs [fetchContent]
    at once when no backend is configured, and once the sign-in has
    settled otherwise. *)
Definition Firebase_reload (env : Firebase.Env) (w : Firebase.World) : Firebase.World :=
  final (Firebase.fetchContent env
           (Firebase.initial (Firebase.db w) (Firebase.localStorage w))).

(** A backend that is configured and on which every call goes through. *)
Definition firebase_ok : Firebase.Env :=
  {| Firebase.isFirebaseConfigured := true;
     Firebase.throws := λ _, false;
     Firebase.static_settings := NotOk;
     Firebase.static_content := λ _, NotOk |}.

(** [useGitHubDB] without a token. *)
Definition github_local_only : GitHub.Env :=
  {| GitHub.GITHUB_TOKEN := EmptyString;
     GitHub.GITHUB_REPO := EmptyString;
     GitHub.CONTENT_PATH := "content";
     GitHub.throws := λ _, false;
     GitHub.sha_of_item := λ _, "sha-item";
     GitHub.sha_of_settings := λ _, "sha-settings";
     GitHub.sha_of_meta := λ _, "sha-meta";
     GitHub.static_settings := NotOk;
     GitHub.static_meta := NotOk;
     GitHub.static_content := λ _, NotOk |}.

(** ** Notions of the access gate, continued *)

(** The lock and the countdown agree: a locked form has counted three
    failures and shows between 1 and 30 seconds; a form that is not locked
    has its timer at zero and has counted fewer than three failures. *)
Definition Login_consistent (st : Login.State) : Prop :=
  if Login.isLocked st
  then (1 ≤ Login.lockoutTimer st ≤ Login.LOCKOUT_DURATION)%Z
       ∧ Login.attempts st = Login.MAX_ATTEMPTS
  else Login.lockoutTimer st = 0%Z ∧ Login.attempts st < Login.MAX_ATTEMPTS.

(** What the form renders after an event, before the effect of that
    render has run: [useEffect] runs once the render is committed, so what
    [handleSubmit] or the callback of the interval has set is rendered as
    it is, and the effect changes it afterwards. *)
Definition Login_rendered {Parent : Type}
    (onLogin : string → Parent → Login.Returned * Parent)
    (ev : Login.Event) (st : Login.State) (parent : Parent) : Login.State :=
  match ev with
  | Login.Submit => (Login.handleSubmit onLogin st parent).1
  | Login.Tick => Login.tick st
  | _ => (Login.step onLogin ev st parent).1
  end.

(** Navigation as [handleNav] does it, in two steps: the click sets a
    timeout, and the callback of the timeout, 400 ms later, decides with the
    [isAuthenticated] of the render in which the click was handled.
    [handleHomeClick] sets the view at once. *)
Record Pending := {
  target : App.ViewType;
  wasAuthenticated : bool
}.

(** The application and the timeouts of [handleNav] that have not fired. *)
Record Session := {
  app : App.State;
  timeouts : list Pending
}.

Inductive Action :=
  | Click (view : App.ViewType)   (* a link of the menu *)
  | Timeout (k : nat)             (* the [k]-th pending timeout fires *)
  | HomeClick                     (* the site title, the menu being closed *)
  | Form (ev : Login.Event)       (* an event of the mounted [Login] *)
  | Logout.                       (* the logout button of the CMS *)

(** The callback of the timeout. *)
Definition navigate (p : Pending) (g : App.Gate) : App.Gate :=
  {| App.currentView :=
       match target p with
       | App.CMS => if wasAuthenticated p then App.CMS else App.LOGIN
       | view => view
       end;
     App.auth := App.auth g |}.

Definition act (VITE_ADMIN_PASSWORD : option string) (a : Action) (s : Session) : Session :=
  match a with
  | Click view =>
      {| app := app s;
         timeouts :=
           timeouts s
           ++ [{| target := view;
                  wasAuthenticated :=
                    useAuth.isAuthenticated (App.auth (App.gate (app s))) |}] |}
  | Timeout k =>
      match timeouts s !! k with
      | Some p =>
          {| app := App.render (navigate p (App.gate (app s))) (App.loginForm (app s));
             timeouts := delete k (timeouts s) |}
      | None => s
      end
  | HomeClick =>
      {| app := App.render {| App.currentView := App.HOME;
                              App.auth := App.auth (App.gate (app s)) |}
                  (App.loginForm (app s));
         timeouts := timeouts s |}
  | Form ev =>
      {| app := App.step VITE_ADMIN_PASSWORD (App.Form ev) (app s);
         timeouts := timeouts s |}
  | Logout =>
      {| app := App.step VITE_ADMIN_PASSWORD App.Logout (app s);
         timeouts := timeouts s |}
  end.

Definition acts (VITE_ADMIN_PASSWORD : option string) (l : list Action) (s : Session)
    : Session :=
  foldl (λ s a, act VITE_ADMIN_PASSWORD a s) s l.

(** The application as it starts in a browsing session. *)
Definition startSession (storage : gmap string string) : Session :=
  {| app := App.initial storage; timeouts := [] |}.

(** The texts typed into the password field in a run of actions. *)
Definition typed (l : list Action) : list string :=
  omap (λ a, match a with
             | Form (Login.Change value) => Some value
             | _ => None
             end) l.

(** Nobody is authenticated, the view is not that of the CMS, and the
    password field, if mounted, does not hold the secret. *)
Definition App_locked_out (secret : string) (s : App.State) : Prop :=
  useAuth.isAuthenticated (App.auth (App.gate s)) = false
  ∧ App.currentView (App.gate s) ≠ App.CMS
  ∧ ∀ form, App.loginForm s = Some form → Login.password form ≠ secret.

(** ** Notions of the file names *)

(** Every character of the text satisfies [p]. *)
Fixpoint all_chars (p : ascii → bool) (s : string) : bool :=
  match s with
  | EmptyString => true
  | String c s' => p c && all_chars p s'
  end.

(** The class [[a-z0-9-]]. *)
Definition is_filename_char (c : ascii) : bool :=
  GitHub.is_slug_char c || bool_decide (c = "-"%char).

(** The prefix of the file name of an item: the name of its type. *)
Definition filename_prefix (t : ContentTypeValue) : string :=
  match t with STORY => "story-" | POEM => "poem-" | QUOTE => "quote-" end.

(** The file [saveItem] writes for an item. *)
Definition file_of (env : GitHub.Env) (item : ContentItem) : GitHub.File ContentItem :=
  {| GitHub.sha := GitHub.sha_of_item env item; GitHub.text := Parses item |}.

(** Two stories whose titles differ in case and punctuation only. *)
Definition hello_1 : ContentItem :=
  {| id := "1700000000001"; type := STORY; title := Some "Hello World"; body := "one";
     excerpt := None; date := None |}.
Definition hello_2 : ContentItem :=
  {| id := "1700000000002"; type := STORY; title := Some "hello, world!"; body := "two";
     excerpt := None; date := None |}.

(** ** components/CMS.tsx *)

Module CMS.

Inductive Tab := ContentTab | SettingsTab.

(** ['idle' | 'saving' | 'saved' | 'error'] *)
Inductive SaveStatus := idle | saving | saved | error.

(** [Partial<ContentItem>]: the content of the form. *)
Record FormData := {
  form_id : option string;
  form_type : option ContentTypeValue;
  form_title : option string;
  form_body : option string;
  form_excerpt : option string;
  form_date : option string
}.

Record State := {
  activeTab : Tab;
  editingItem : option ContentItem;
  isCreating : bool;
  showDeleteConfirm : option string;
  saveStatus : SaveStatus;
  errorMessage : option string;
  formData : FormData;
  settingsForm : SiteSettings
}.

(** The form filled from an item: [setFormData(editingItem)]. *)
Definition formOf (item : ContentItem) : FormData :=
  {| form_id := Some (id item); form_type := Some (type item);
     form_title := title item; form_body := Some (body item);
     form_excerpt := excerpt item; form_date := date item |}.

(** The form of a new piece; [today] is what
    [new Date().toLocaleDateString('en-US', ...)] gives. *)
Definition blankForm (today : string) : FormData :=
  {| form_id := None; form_type := Some STORY;
     form_title := Some EmptyString; form_body := Some EmptyString;
     form_excerpt := Some EmptyString; form_date := Some today |}.

(** The state of the component when it mounts with the settings of the
    hook. *)
Definition initial (settings : SiteSettings) : State :=
  {| activeTab := ContentTab; editingItem := None; isCreating := false;
     showDeleteConfirm := None; saveStatus := idle; errorMessage := None;
     formData := blankForm EmptyString; settingsForm := settings |}.

Definition setFormData (f : FormData) (st : State) : State :=
  {| activeTab := activeTab st; editingItem := editingItem st;
     isCreating := isCreating st; showDeleteConfirm := showDeleteConfirm st;
     saveStatus := saveStatus st; errorMessage := errorMessage st;
     formData := f; settingsForm := settingsForm st |}.

Definition setSaveStatus (s : SaveStatus) (st : State) : State :=
  {| activeTab := activeTab st; editingItem := editingItem st;
     isCreating := isCreating st; showDeleteConfirm := showDeleteConfirm st;
     saveStatus := s; errorMessage := errorMessage st;
     formData := formData st; settingsForm := settingsForm st |}.

Definition setErrorMessage (m : option string) (st : State) : State :=
  {| activeTab := activeTab st; editingItem := editingItem st;
     isCreating := isCreating st; showDeleteConfirm := showDeleteConfirm st;
     saveStatus := saveStatus st; errorMessage := m;
     formData := formData st; settingsForm := settingsForm st |}.

Definition setShowDeleteConfirm (c : option string) (st : State) : State :=
  {| activeTab := activeTab st; editingItem := editingItem st;
     isCreating := isCreating st; showDeleteConfirm := c;
     saveStatus := saveStatus st; errorMessage := errorMessage st;
     formData := formData st; settingsForm := settingsForm st |}.

(** The fields of the editor: each [onChange] is
    [setFormData({ ...formData, field: e.target.value })]. *)
Inductive Input :=
  | InputType (t : ContentTypeValue)
  | InputDate (value : string)
  | InputTitle (value : string)
  | InputExcerpt (value : string)
  | InputBody (value : string).

Definition onChange (i : Input) (st : State) : State :=
  let f := formData st in
  setFormData
    match i with
    | InputType t =>
        {| form_id := form_id f; form_type := Some t; form_title := form_title f;
           form_body := form_body f; form_excerpt := form_excerpt f;
           form_date := form_date f |}
    | InputDate value =>
        {| form_id := form_id f; form_type := form_type f; form_title := form_title f;
           form_body := form_body f; form_excerpt := form_excerpt f;
           form_date := Some value |}
    | InputTitle value =>
        {| form_id := form_id f; form_type := form_type f; form_title := Some value;
           form_body := form_body f; form_excerpt := form_excerpt f;
           form_date := form_date f |}
    | InputExcerpt value =>
        {| form_id := form_id f; form_type := form_type f; form_title := form_title f;
           form_body := form_body f; form_excerpt := Some value;
           form_date := form_date f |}
    | InputBody value =>
        {| form_id := form_id f; form_type := form_type f; form_title := form_title f;
           form_body := Some value; form_excerpt := form_excerpt f;
           form_date := form_date f |}
    end
    st.

Definition handleEdit (item : ContentItem) (st : State) : State :=
  {| activeTab := ContentTab; editingItem := Some item; isCreating := false;
     showDeleteConfirm := showDeleteConfirm st; saveStatus := saveStatus st;
     errorMessage := None; formData := formData st; settingsForm := settingsForm st |}.

Definition handleCreateNew (st : State) : State :=
  {| activeTab := ContentTab; editingItem := None; isCreating := true;
     showDeleteConfirm := showDeleteConfirm st; saveStatus := saveStatus st;
     errorMessage := None; formData := formData st; settingsForm := settingsForm st |}.

(** The effect on [[editingItem, isCreating]], which runs after a render
    in which one of the two has changed. *)
Definition resetForm (today : string) (st : State) : State :=
  match editingItem st with
  | Some item => setFormData (formOf item) st
  | None => if isCreating st then setFormData (blankForm today) st else st
  end.

(** [if (editingItem || isCreating) return <the editor>] *)
Definition showsEditor (st : State) : bool :=
  match editingItem st with Some _ => true | None => isCreating st end.

(** The timeout a successful [handleSaveItem] sets, 1000 ms later. *)
Definition savedTimeout (st : State) : State :=
  {| activeTab := activeTab st; editingItem := None; isCreating := false;
     showDeleteConfirm := showDeleteConfirm st; saveStatus := idle;
     errorMessage := errorMessage st; formData := formData st;
     settingsForm := settingsForm st |}.

Section Component.
(** The properties: [isGitHubConfigured] is [None] when the parent does
    not pass it (the component then reads [undefined]); the three
    callbacks act on the state [W] of the parent. *)
Context {W : Type}.
Context (isGitHubConfigured : option bool).
Context (onSaveItem : ContentItem → Eff W bool).
Context (onDeleteItem : string → Eff W bool).
Context (onSaveSettings : SiteSettings → Eff W bool).

(** The item [handleSaveItem] builds from the form; [now] is
    [Date.now().toString()]. *)
Definition newItem (now : string) (st : State) (body : string) : ContentItem :=
  {| id := match editingItem st with
           | Some item => if decide (id item = EmptyString) then now else id item
           | None => now
           end;
     type := default STORY (form_type (formData st));
     title := form_title (formData st);
     body := body;
     excerpt := form_excerpt (formData st);
     date := form_date (formData st) |}.

(** [handleSaveItem]; when the promise of [onSaveItem] rejects, the
    handler ends there. *)
Definition handleSaveItem (now : string) (st : State) (w : W) : State * W :=
  match form_body (formData st) with
  | Some (String c rest) =>
      let st := setErrorMessage None (setSaveStatus saving st) in
      match onSaveItem (newItem now st (String c rest)) w with
      | (Normal true, w') => (setSaveStatus saved st, w')
      | (Normal false, w') =>
          (setErrorMessage
             (Some (if default false isGitHubConfigured
                    then "Failed to save to GitHub. Check your token permissions."
                    else "Saved locally. Configure GitHub to persist changes."))
             (setSaveStatus error st), w')
      | (Throw, w') => (st, w')
      end
  | _ => (st, w)
  end.

Definition handleSaveSettings (st : State) (w : W) : State * W :=
  let st := setErrorMessage None (setSaveStatus saving st) in
  match onSaveSettings (settingsForm st) w with
  | (Normal true, w') => (setSaveStatus saved st, w')
  | (Normal false, w') =>
      (setErrorMessage
         (Some (if default false isGitHubConfigured
                then "Failed to save settings to GitHub."
                else "Settings saved locally."))
         (setSaveStatus error st), w')
  | (Throw, w') => (st, w')
  end.

Definition handleDelete (id' : string) (st : State) (w : W) : State * W :=
  match onDeleteItem id' w with
  | (Normal success, w') =>
      let st := setShowDeleteConfirm None st in
      (if success then st
       else setErrorMessage (Some "Failed to delete item. Please try again.") st, w')
  | (Throw, w') => (st, w')
  end.
End Component.

End CMS.

(** [App] renders
    [<CMS items={items} settings={settings}
          isFirebaseConfigured={isFirebaseConfigured}
          onSaveItem={saveItem} onDeleteItem={deleteItem}
          onSaveSettings={saveSettings} onLogout={handleLogout} />]:
    the callbacks are those of [useFirebaseDB], and the property
    [isGitHubConfigured], which the component reads, is not among those
    passed. *)
Definition App_handleSaveItem (env : Firebase.Env) (now : string)
    : CMS.State → Firebase.World → CMS.State * Firebase.World :=
  CMS.handleSaveItem None (Firebase.saveItem env) now.

Definition App_handleDelete (env : Firebase.Env) (id' : string)
    : CMS.State → Firebase.World → CMS.State * Firebase.World :=
  CMS.handleDelete (Firebase.deleteItem env) id'.

Definition App_handleSaveSettings (env : Firebase.Env)
    : CMS.State → Firebase.World → CMS.State * Firebase.World :=
  CMS.handleSaveSettings None (Firebase.saveSettings env).

(** The user opens an item of the dashboard in the editor (the render that
    follows runs the effect on the form, [editingItem] having changed),
    changes fields and saves. *)
Definition editSession (env : Firebase.Env) (today now : string)
    (item : ContentItem) (inputs : list CMS.Input)
    (st : CMS.State) (w : Firebase.World) : CMS.State * Firebase.World :=
  App_handleSaveItem env now
    (foldl (λ st i, CMS.onChange i st) (CMS.resetForm today (CMS.handleEdit item st)) inputs)
    w.

(** The user opens the editor for a new piece from the dashboard (the
    effect on the form runs, [isCreating] having changed), fills the form
    and saves. *)
Definition createSession (env : Firebase.Env) (today now : string)
    (inputs : list CMS.Input)
    (st : CMS.State) (w : Firebase.World) : CMS.State * Firebase.World :=
  App_handleSaveItem env now
    (foldl (λ st i, CMS.onChange i st) (CMS.resetForm today (CMS.handleCreateNew st)) inputs)
    w.

(** The body the form holds after the inputs, starting from [start]. *)
Definition typedBody (start : option string) (inputs : list CMS.Input) : option string :=
  foldl (λ b i, match i with CMS.InputBody value => Some value | _ => b end) start inputs.

(** *** The field of the author roles (settings tab of the CMS)

    The field shows [settingsForm.authorRoles.join(', ')] and stores
    [e.target.value.split(',').map(r => r.trim()).filter(Boolean)].
    Texts are byte strings; [trim] is modelled on the ASCII white space,
    and the properties are stated for texts of ASCII characters. *)

(** [s.split(',')] *)
Fixpoint split_comma (s : string) : list string :=
  match s with
  | EmptyString => [EmptyString]
  | String c s' =>
      if decide (c = ","%char) then EmptyString :: split_comma s'
      else match split_comma s' with
           | piece :: pieces => String c piece :: pieces
           | [] => [String c EmptyString]
           end
  end.

(** Tab, line feed, vertical tab, form feed, carriage return, space. *)
Definition is_white_space (c : ascii) : bool :=
  let n := nat_of_ascii c in
  bool_decide (9 ≤ n ≤ 13) || bool_decide (n = 32).

Fixpoint trimStart (s : string) : string :=
  match s with
  | EmptyString => EmptyString
  | String c s' => if is_white_space c then trimStart s' else s
  end.

Definition trimEnd (s : string) : string := String.rev (trimStart (String.rev s)).

(** [s.trim()] *)
Definition trim (s : string) : string := trimEnd (trimStart s).

(** [arr.join(sep)] *)
Fixpoint join (sep : string) (arr : list string) : string :=
  match arr with
  | [] => EmptyString
  | [x] => x
  | x :: rest => x +:+ sep +:+ join sep rest
  end.

(** What the field stores for the text it holds. *)
Definition parseRoles (value : string) : list string :=
  filter (λ r, r ≠ EmptyString) (trim <$> split_comma value).

(** What the field shows for the stored roles. *)
Definition showRoles (roles : list string) : string := join ", " roles.

Definition is_ascii (c : ascii) : bool := bool_decide (nat_of_ascii c < 128).

(** A role as the field stores it: not empty, without comma, without
    white space at its ends. *)
Definition is_role (r : string) : Prop :=
  r ≠ EmptyString
  ∧ all_chars (λ c, negb (bool_decide (c = ","%char))) r = true
  ∧ all_chars is_ascii r = true
  ∧ trim r = r.

(** ** The two columns of the home view (App.tsx) *)

(** [arr.filter((x, i) => p x i)]: the elements are visited in order,
    [i] being the index of the element in the array. *)
Fixpoint filter_from {A} (p : A → nat → bool) (i : nat) (arr : list A) : list A :=
  match arr with
  | [] => []
  | x :: rest =>
      if p x i then x :: filter_from p (S i) rest else filter_from p (S i) rest
  end.

Definition filter_with_index {A} (p : A → nat → bool) (arr : list A) : list A :=
  filter_from p 0 arr.

Global Instance ContentTypeValue_eq_dec : EqDecision ContentTypeValue.
Proof. solve_decision. Defined.

(** [items.filter(item => item.type === STORY || item.type === POEM ||
    item.type === QUOTE)] *)
Definition feedItems (items : list ContentItem) : list ContentItem :=
  filter (λ item, type item = STORY ∨ type item = POEM ∨ type item = QUOTE) items.

(** [feedItems.filter((_, i) => i % 2 === 0)] *)
Definition leftColItems (items : list ContentItem) : list ContentItem :=
  filter_with_index (λ _ i, bool_decide (i mod 2 = 0)) (feedItems items).

(** [feedItems.filter((_, i) => i % 2 !== 0)] *)
Definition rightColItems (items : list ContentItem) : list ContentItem :=
  filter_with_index (λ _ i, bool_decide (i mod 2 ≠ 0)) (feedItems items).

(** The elements of two lists taken in turn, the first list first. *)
Fixpoint interleave {A} (l r : list A) : list A :=
  match l, r with
  | x :: l', y :: r' => x :: y :: interleave l' r'
  | _, [] => l
  | [], _ => r
  end.

(** * Properties *)

(** ** Positions *)

Lemma position_lt_le p q : position_lt p q → position_le p q.
Proof. destruct p, q; simpl; lia || tauto. Qed.

Lemma position_not_lt_le p q : ¬ position_lt q p → position_le p q.
Proof. destruct p, q; simpl; lia || tauto. Qed.

Lemma position_lt_not_eq p q : position_lt p q → p ≠ q.
Proof. destruct p, q; simpl; intros H E; simplify_eq; lia || tauto. Qed.

Lemma position_le_antisym p q : position_le p q → position_le q p → p = q.
Proof. destruct p, q; simpl; intros; try tauto; f_equal; lia. Qed.

Lemma position_le_refl p : position_le p p.
Proof. destruct p; simpl; lia || tauto. Qed.

Lemma position_le_trans p q r : position_le p q → position_le q r → position_le p r.
Proof. destruct p, q, r; simpl; lia || tauto. Qed.

Lemma position_trichotomy p q : position_lt p q ∨ p = q ∨ position_lt q p.
Proof.
  destruct p as [n|], q as [m|]; simpl; auto.
  destruct (lt_eq_lt_dec n m) as [[?| ->]|?]; auto.
Qed.

(** ** A stable sort by a key: what [Array.prototype.sort] yields when the
    comparator orders by a key *)

Section StableSort.
Context {A : Type} (comparefn : A → A → JS.Number) (key : A → option nat).
Hypothesis comparefn_key :
  ∀ a b, JS.comes_after (comparefn a b) = true ↔ position_lt (key b) (key a).

Let by_key (a b : A) : Prop := position_le (key a) (key b).

Lemma sort_insert_perm x l : JS.sort_insert comparefn x l ≡ₚ x :: l.
Proof.
  induction l as [|y l IH]; simpl; [done|].
  destruct (JS.comes_after _); [|done].
  rewrite IH. apply Permutation_swap.
Qed.

Lemma Array_sort_perm l : JS.Array_sort comparefn l ≡ₚ l.
Proof.
  induction l as [|x l IH]; simpl; [done|].
  by rewrite sort_insert_perm, IH.
Qed.

Lemma sort_insert_sorted x l :
  StronglySorted by_key l → StronglySorted by_key (JS.sort_insert comparefn x l).
Proof.
  induction 1 as [|y l Hl IH Hy]; simpl.
  - repeat constructor.
  - destruct (JS.comes_after (comparefn x y)) eqn:E.
    + constructor; [done|].
      rewrite sort_insert_perm. constructor; [|done].
      apply comparefn_key in E. by apply position_lt_le.
    + assert (by_key x y) as Hxy.
      { apply position_not_lt_le. rewrite <- comparefn_key. congruence. }
      constructor; [by constructor|].
      constructor; [done|].
      eapply Forall_impl; [exact Hy|].
      intros z Hz. eapply position_le_trans; [exact Hxy|exact Hz].
Qed.

Lemma Array_sort_sorted l : StronglySorted by_key (JS.Array_sort comparefn l).
Proof.
  induction l as [|x l IH]; simpl; [constructor|].
  by apply sort_insert_sorted.
Qed.

(** Stability: an element only moves past elements of a smaller key. *)
Lemma sort_insert_stable k x l :
  filter (λ a, key a = k) (JS.sort_insert comparefn x l)
  = filter (λ a, key a = k) (x :: l).
Proof.
  induction l as [|y l IH]; simpl; [done|].
  destruct (JS.comes_after (comparefn x y)) eqn:E; [|done].
  apply comparefn_key, position_lt_not_eq in E.
  rewrite filter_cons, IH, !filter_cons.
  repeat case_decide; simplify_eq; done.
Qed.

Lemma Array_sort_stable k l :
  filter (λ a, key a = k) (JS.Array_sort comparefn l) = filter (λ a, key a = k) l.
Proof.
  induction l as [|x l IH]; simpl; [done|].
  by rewrite sort_insert_stable, !filter_cons, IH.
Qed.

(** There is one sorted and stable rearrangement of a list: the result
    does not depend on the sorting algorithm. *)
Lemma stable_sorted_unique l1 l2 :
  StronglySorted by_key l1 → StronglySorted by_key l2 →
  (∀ k, filter (λ a, key a = k) l1 = filter (λ a, key a = k) l2) →
  l1 = l2.
Proof.
  intros H1. revert l2.
  induction H1 as [|a l1 Hl1 IH Ha]; intros l2 H2 Hf.
  - destruct l2 as [|b l2]; [done|].
    specialize (Hf (key b)). rewrite filter_nil, filter_cons_True in Hf by done.
    discriminate.
  - destruct H2 as [|b l2 Hl2 Hb].
    { specialize (Hf (key a)). rewrite filter_nil, filter_cons_True in Hf by done.
      discriminate. }
    assert (key a = key b) as Hk.
    { destruct (decide (key a = key b)) as [|Hne]; [done|].
      apply position_le_antisym.
      - specialize (Hf (key b)).
        rewrite (filter_cons_True _ b), filter_cons_False in Hf by done.
        assert (b ∈ filter (λ x, key x = key b) l1) as Hin
          by (rewrite Hf; left).
        apply list_elem_of_filter in Hin as [_ Hin].
        rewrite Forall_forall in Ha. by apply Ha.
      - specialize (Hf (key a)).
        rewrite (filter_cons_True _ a), filter_cons_False in Hf by done.
        assert (a ∈ filter (λ x, key x = key a) l2) as Hin
          by (rewrite <- Hf; left).
        apply list_elem_of_filter in Hin as [_ Hin].
        rewrite Forall_forall in Hb. by apply Hb. }
    assert (a = b) as ->.
    { specialize (Hf (key a)).
      rewrite !filter_cons_True in Hf by done. congruence. }
    f_equal. apply IH; [done|].
    intros k. specialize (Hf k). rewrite !filter_cons in Hf.
    case_decide; congruence.
Qed.

End StableSort.

(** ** The order map of a ledger *)

Lemma orderMap_nil : orderMap [] = ∅.
Proof. reflexivity. Qed.

Lemma orderMap_snoc l x : orderMap (l ++ [x]) = <[x := length l]> (orderMap l).
Proof.
  unfold orderMap, JS.Map_new, JS.map_with_index.
  rewrite imap_app, foldl_app. simpl. by rewrite Nat.add_0_r.
Qed.

Lemma orderMap_lookup_snoc l x i :
  orderMap (l ++ [x]) !! i = if decide (x = i) then Some (length l) else orderMap l !! i.
Proof. rewrite orderMap_snoc. apply lookup_insert. Qed.

(** The map sends an id to the index of its last occurrence in the ledger. *)
Lemma orderMap_lookup_Some l i n :
  orderMap l !! i = Some n ↔ l !! n = Some i ∧ ∀ m, n < m → l !! m ≠ Some i.
Proof.
  revert n. induction l as [|x l IH] using rev_ind; intros n.
  - rewrite orderMap_nil, lookup_empty. split; [done|]. by intros [? _].
  - rewrite orderMap_lookup_snoc. case_decide as Hx.
    + subst i. split.
      * intros [= <-]. split.
        { by rewrite lookup_app_r, Nat.sub_diag. }
        intros m Hm Hl. apply lookup_lt_Some in Hl.
        rewrite length_app in Hl. simpl in Hl. lia.
      * intros [Hn Hlast]. f_equal.
        assert (n < length (l ++ [x])) as Hlt by (by eapply lookup_lt_Some).
        rewrite length_app in Hlt. simpl in Hlt.
        destruct (decide (n = length l)) as [|Hne]; [done|].
        exfalso. apply (Hlast (length l)); [lia|].
        by rewrite lookup_app_r, Nat.sub_diag.
    + rewrite IH. split.
      * intros [Hn Hlast]. split.
        { by apply lookup_app_l_Some. }
        intros m Hm Hl. apply lookup_app_Some in Hl as [Hl|[_ Hl]].
        { by apply (Hlast m). }
        apply list_lookup_singleton_Some in Hl as [_ ?]. done.
      * intros [Hn Hlast].
        apply lookup_app_Some in Hn as [Hn|[_ Hn]].
        2:{ apply list_lookup_singleton_Some in Hn as [_ ?]. done. }
        split; [done|]. intros m Hm Hl. apply (Hlast m Hm).
        by apply lookup_app_l_Some.
Qed.

Lemma orderMap_lookup_None l i : orderMap l !! i = None ↔ i ∉ l.
Proof.
  induction l as [|x l IH] using rev_ind.
  - rewrite orderMap_nil, lookup_empty. split; [|done]. intros _. apply not_elem_of_nil.
  - rewrite orderMap_lookup_snoc, not_elem_of_app. case_decide as Hx.
    + subst. split; [done|]. intros [_ []]. apply list_elem_of_singleton. done.
    + rewrite IH. split; [|tauto]. intros ?. split; [done|].
      rewrite list_elem_of_singleton. congruence.
Qed.

Lemma orderMap_lookup_lt l i n : orderMap l !! i = Some n → n < length l.
Proof. rewrite orderMap_lookup_Some. intros [H _]. by eapply lookup_lt_Some. Qed.

(** In a ledger without repetition the position is the index. *)
Lemma orderMap_lookup_NoDup l i n :
  NoDup l → orderMap l !! i = Some n ↔ l !! n = Some i.
Proof.
  intros Hnd. rewrite orderMap_lookup_Some. split; [by intros [? _]|].
  intros Hn. split; [done|]. intros m Hm Hl.
  pose proof (NoDup_lookup _ _ _ _ Hnd Hn Hl). lia.
Qed.

(** Removing ids from a ledger keeps the relative order of the ids kept. *)
Lemma orderMap_filter_lt (P : string → Prop) `{!∀ i, Decision (P i)} l i j :
  P i → P j →
  position_lt (orderMap l !! i) (orderMap l !! j) →
  position_lt (orderMap (filter P l) !! i) (orderMap (filter P l) !! j).
Proof.
  intros Hi Hj. induction l as [|x l IH] using rev_ind; [done|].
  rewrite filter_app, filter_cons, filter_nil.
  rewrite !orderMap_lookup_snoc.
  destruct (decide (P x)) as [Hx|Hx].
  - rewrite !orderMap_lookup_snoc.
    destruct (decide (x = i)) as [Hxi|Hxi], (decide (x = j)) as [Hxj|Hxj];
      simplify_eq; simpl.
    + lia.
    + destruct (orderMap l !! j) as [m|] eqn:Em.
      * apply orderMap_lookup_lt in Em. lia.
      * intros _. apply orderMap_lookup_None in Em.
        assert (orderMap (filter P l) !! j = None) as ->; [|done].
        apply orderMap_lookup_None. rewrite list_elem_of_filter. tauto.
    + destruct (orderMap l !! i) as [n|] eqn:En; [|done]. intros _.
      destruct (orderMap (filter P l) !! i) as [n'|] eqn:En'.
      * by apply orderMap_lookup_lt in En'.
      * apply orderMap_lookup_None in En'. exfalso. apply En'.
        apply list_elem_of_filter. split; [done|].
        apply orderMap_lookup_Some in En as [En _]. by eapply list_elem_of_lookup_2.
    + exact IH.
  - rewrite app_nil_r.
    destruct (decide (x = i)) as [->|Hxi]; [done|].
    destruct (decide (x = j)) as [->|Hxj]; [done|].
    exact IH.
Qed.

Lemma orderMap_filter_eq (P : string → Prop) `{!∀ i, Decision (P i)} l i j :
  orderMap l !! i = orderMap l !! j →
  orderMap (filter P l) !! i = orderMap (filter P l) !! j.
Proof.
  intros E. destruct (decide (i = j)) as [->|Hne]; [done|].
  destruct (orderMap l !! i) as [n|] eqn:En.
  - symmetry in E. apply orderMap_lookup_Some in En as [En _].
    apply orderMap_lookup_Some in E as [E _]. congruence.
  - symmetry in E. apply orderMap_lookup_None in En, E.
    assert (orderMap (filter P l) !! i = None) as ->.
    { apply orderMap_lookup_None. rewrite list_elem_of_filter. tauto. }
    symmetry. apply orderMap_lookup_None. rewrite list_elem_of_filter. tauto.
Qed.

Lemma position_lt_asym p q : position_lt p q → position_lt q p → False.
Proof. destruct p, q; simpl; lia || tauto. Qed.

Lemma orderMap_filter_lt_iff (P : string → Prop) `{!∀ i, Decision (P i)} l i j :
  P i → P j →
  position_lt (orderMap l !! i) (orderMap l !! j) ↔
  position_lt (orderMap (filter P l) !! i) (orderMap (filter P l) !! j).
Proof.
  intros Hi Hj. split; [by apply orderMap_filter_lt|]. intros Hf.
  destruct (position_trichotomy (orderMap l !! i) (orderMap l !! j)) as [?|[E|Hlt]]; [done| |].
  - apply (orderMap_filter_eq P) in E. by apply position_lt_not_eq in Hf.
  - apply (orderMap_filter_lt P) in Hlt; [|done..].
    destruct (position_lt_asym _ _ Hf Hlt).
Qed.

(** ** The ordering step *)

Lemma compareByOrder_key l a b :
  JS.comes_after (compareByOrder l a b) = true
  ↔ position_lt (ledgerPosition l b) (ledgerPosition l a).
Proof.
  unfold compareByOrder, orderOf, ledgerPosition.
  destruct (orderMap l !! id a), (orderMap l !! id b); simpl;
    rewrite ?Z.ltb_lt; split; try done; lia.
Qed.

Lemma sort_insert_ext {A} (f g : A → A → JS.Number) x l :
  (∀ y, y ∈ l → JS.comes_after (f x y) = JS.comes_after (g x y)) →
  JS.sort_insert f x l = JS.sort_insert g x l.
Proof.
  induction l as [|y l IH]; intros H; simpl; [done|].
  rewrite <- (H y) by left. rewrite IH; [done|].
  intros z Hz. apply H. by right.
Qed.

Lemma Array_sort_ext {A} (f g : A → A → JS.Number) l :
  (∀ x y, x ∈ l → y ∈ l → JS.comes_after (f x y) = JS.comes_after (g x y)) →
  JS.Array_sort f l = JS.Array_sort g l.
Proof.
  induction l as [|x l IH]; intros H; simpl; [done|].
  rewrite <- IH.
  - apply sort_insert_ext. intros y Hy. apply H; [left|].
    right. by rewrite <- (Array_sort_perm f l).
  - intros y z Hy Hz. apply H; by right.
Qed.

Lemma Array_sort_no_swap {A} (f : A → A → JS.Number) l :
  (∀ x y, JS.comes_after (f x y) = false) → JS.Array_sort f l = l.
Proof.
  intros H. induction l as [|x l IH]; simpl; [done|].
  rewrite IH. destruct l as [|y l]; simpl; [done|]. by rewrite H.
Qed.

(** The guard on the length of the ledger changes nothing: with an empty
    ledger the comparator never asks for a swap. *)
Lemma sortByContentOrder_Array_sort l items :
  sortByContentOrder l items = JS.Array_sort (compareByOrder l) items.
Proof.
  unfold sortByContentOrder. case_bool_decide as Hl; [done|].
  destruct l; [|simpl in Hl; lia].
  symmetry. apply Array_sort_no_swap. reflexivity.
Qed.

Lemma sort_insert_app_l {A} (f : A → A → JS.Number) x l1 l2 :
  (∀ y, y ∈ l2 → JS.comes_after (f x y) = false) →
  JS.sort_insert f x (l1 ++ l2) = JS.sort_insert f x l1 ++ l2.
Proof.
  intros H. induction l1 as [|y l1 IH]; simpl.
  - destruct l2 as [|z l2]; simpl; [done|]. rewrite H; [done|left].
  - destruct (JS.comes_after _); [|done]. by rewrite IH.
Qed.

Lemma sort_insert_app_r {A} (f : A → A → JS.Number) x l1 l2 :
  (∀ y, y ∈ l1 → JS.comes_after (f x y) = true) →
  (∀ y, y ∈ l2 → JS.comes_after (f x y) = false) →
  JS.sort_insert f x (l1 ++ l2) = l1 ++ x :: l2.
Proof.
  intros H1 H2. induction l1 as [|y l1 IH]; simpl.
  - destruct l2 as [|z l2]; simpl; [done|]. rewrite H2; [done|left].
  - rewrite H1 by left. rewrite IH; [done|]. intros z Hz. apply H1. by right.
Qed.

Lemma ledgerPosition_None l a : ledgerPosition l a = None ↔ id a ∉ l.
Proof. apply orderMap_lookup_None. Qed.

Lemma Array_sort_unlisted_last l items :
  JS.Array_sort (compareByOrder l) items
  = JS.Array_sort (compareByOrder l) (filter (λ a, id a ∈ l) items)
    ++ filter (λ a, id a ∉ l) items.
Proof.
  induction items as [|x items IH]; [done|].
  assert (∀ y, y ∈ filter (λ a, id a ∉ l) items →
            JS.comes_after (compareByOrder l x y) = false) as Hunlisted.
  { intros y [Hy _]%list_elem_of_filter.
    apply not_true_iff_false. rewrite compareByOrder_key.
    apply ledgerPosition_None in Hy. rewrite Hy. simpl. tauto. }
  simpl JS.Array_sort at 1. rewrite IH, !filter_cons.
  destruct (decide (id x ∈ l)) as [Hx|Hx].
  - rewrite decide_False by tauto. simpl. by apply sort_insert_app_l.
  - rewrite decide_True by done. apply sort_insert_app_r; [|done].
    intros y Hy. rewrite (Array_sort_perm (compareByOrder l)) in Hy.
    apply list_elem_of_filter in Hy as [Hy _].
    apply compareByOrder_key.
    apply ledgerPosition_None in Hx. rewrite Hx.
    destruct (ledgerPosition l y) eqn:E; [done|].
    by apply ledgerPosition_None in E.
Qed.

Lemma sortByContentOrder_stale_ids l l' items :
  filter (λ i, i ∈ id <$> items) l' = filter (λ i, i ∈ id <$> items) l →
  sortByContentOrder l' items = sortByContentOrder l items.
Proof.
  intros Hl. rewrite !sortByContentOrder_Array_sort.
  apply Array_sort_ext. intros x y Hx Hy.
  assert (∀ a, a ∈ items → id a ∈ id <$> items) as Hin
    by (intros a Ha; by apply list_elem_of_fmap_2).
  apply eq_true_iff_eq. rewrite !compareByOrder_key. unfold ledgerPosition.
  rewrite (orderMap_filter_lt_iff (λ i, i ∈ id <$> items) l') by auto.
  rewrite (orderMap_filter_lt_iff (λ i, i ∈ id <$> items) l) by auto.
  by rewrite Hl.
Qed.

(** C1. For every list of loaded items and every ledger, the sorting step
    of [fetchContent] yields a rearrangement of the items that is ordered by
    the position of their id in the ledger (the index the order map holds
    for the id: that of its occurrence in the ledger, the last one should
    the ledger repeat it); items at the same position, and so the items the
    ledger does not list, keep their arrival order; ledger ids that occur
    among no item have no effect: two ledgers that agree on the ids of the
    items give the same result; the items the ledger does not list come
    after all the others, in arrival order.  Items with ids "1", "2", "3"
    and the ledger ["3"; "1"] come out in the order "3", "1", "2". *)
Theorem sortByContentOrder_orders_by_ledger
    (contentOrder : list string) (loadedContent : list ContentItem) :
  let sorted := sortByContentOrder contentOrder loadedContent in
  let position := ledgerPosition contentOrder in
  sorted ≡ₚ loadedContent
  ∧ StronglySorted (λ a b, position_le (position a) (position b)) sorted
  ∧ (∀ a n, position a = Some n ↔
       contentOrder !! n = Some (id a) ∧ ∀ m, n < m → contentOrder !! m ≠ Some (id a))
  ∧ (∀ a, position a = None ↔ id a ∉ contentOrder)
  ∧ (∀ p, filter (λ a, position a = p) sorted = filter (λ a, position a = p) loadedContent)
  ∧ (∀ contentOrder',
       filter (λ i, i ∈ id <$> loadedContent) contentOrder'
       = filter (λ i, i ∈ id <$> loadedContent) contentOrder →
       sortByContentOrder contentOrder' loadedContent = sorted)
  ∧ sorted = sortByContentOrder contentOrder (filter (λ a, id a ∈ contentOrder) loadedContent)
             ++ filter (λ a, id a ∉ contentOrder) loadedContent
  ∧ (∀ a1 a2 a3, id a1 = "1" → id a2 = "2" → id a3 = "3" →
       sortByContentOrder ["3"; "1"] [a1; a2; a3] = [a3; a1; a2]).
Proof.
  intros sorted position. subst sorted position.
  rewrite !sortByContentOrder_Array_sort.
  pose proof (compareByOrder_key contentOrder) as Hkey.
  split; [by apply (Array_sort_perm (compareByOrder contentOrder))|].
  split; [by apply (Array_sort_sorted _ _ Hkey)|].
  split; [intros a n; apply orderMap_lookup_Some|].
  split; [intros a; apply ledgerPosition_None|].
  split; [intros p; by apply (Array_sort_stable _ _ Hkey)|].
  split.
  { intros l' Hl'. rewrite <- sortByContentOrder_Array_sort.
    by apply sortByContentOrder_stale_ids. }
  split; [apply Array_sort_unlisted_last|].
  intros a1 a2 a3 H1 H2 H3.
  assert (orderMap ["3"; "1"] !! "1" = Some 1) as E1 by (vm_compute; reflexivity).
  assert (orderMap ["3"; "1"] !! "2" = None) as E2 by (vm_compute; reflexivity).
  assert (orderMap ["3"; "1"] !! "3" = Some 0) as E3 by (vm_compute; reflexivity).
  rewrite sortByContentOrder_Array_sort.
  cbn [JS.Array_sort JS.sort_insert].
  assert (JS.comes_after (compareByOrder ["3"; "1"] a2 a3) = true) as ->
    by (unfold compareByOrder, orderOf; by rewrite H2, H3, E2, E3).
  cbn [JS.sort_insert].
  assert (JS.comes_after (compareByOrder ["3"; "1"] a1 a3) = true) as ->
    by (unfold compareByOrder, orderOf; by rewrite H1, H3, E1, E3).
  assert (JS.comes_after (compareByOrder ["3"; "1"] a1 a2) = false) as ->
    by (unfold compareByOrder, orderOf; by rewrite H1, H2, E1, E2).
  reflexivity.
Qed.

(** In a ledger that lists no id twice the position of an item is the index
    of its id. *)
Lemma ledgerPosition_NoDup contentOrder a n :
  NoDup contentOrder →
  ledgerPosition contentOrder a = Some n ↔ contentOrder !! n = Some (id a).
Proof. apply orderMap_lookup_NoDup. Qed.

(** Every sorted, stable rearrangement of the items is the one computed:
    the embedding of [Array.prototype.sort] as an insertion sort loses
    nothing. *)
Lemma sortByContentOrder_unique contentOrder loadedContent l :
  StronglySorted (λ a b, position_le (ledgerPosition contentOrder a)
                                     (ledgerPosition contentOrder b)) l →
  (∀ p, filter (λ a, ledgerPosition contentOrder a = p) l
        = filter (λ a, ledgerPosition contentOrder a = p) loadedContent) →
  l = sortByContentOrder contentOrder loadedContent.
Proof.
  intros Hs Hf. rewrite sortByContentOrder_Array_sort.
  pose proof (compareByOrder_key contentOrder) as Hkey.
  apply (stable_sorted_unique (ledgerPosition contentOrder)); [done| |].
  - by apply (Array_sort_sorted _ _ Hkey).
  - intros p. rewrite Hf. symmetry. by apply (Array_sort_stable _ _ Hkey).
Qed.

Example sort_example :
  id <$> sortByContentOrder ["3"; "1"] [mkItem "1"; mkItem "2"; mkItem "3"] = ["3"; "1"; "2"].
Proof. vm_compute. reflexivity. Qed.

(** A ledger that repeats an id orders it by its last occurrence. *)
Example sort_repeated_ledger_id :
  id <$> sortByContentOrder ["a"; "b"; "a"] [mkItem "a"; mkItem "b"] = ["b"; "a"].
Proof. vm_compute. reflexivity. Qed.

(** ** The optimistic updates of the item list *)

Lemma saveItem_update_new item (prev : list ContentItem) :
  (∀ old, old ∈ prev → id old ≠ id item) → saveItem_update item prev = item :: prev.
Proof.
  intros H. unfold saveItem_update.
  destruct (list_find _ prev) as [[k old]|] eqn:E; [|done].
  apply list_find_Some in E as (Hk & Hid & _).
  destruct (H old); [by eapply list_elem_of_lookup_2|done].
Qed.

Lemma saveItem_update_existing item (prev : list ContentItem) :
  (∃ old, old ∈ prev ∧ id old = id item) →
  saveItem_update item prev = (λ i, if decide (id i = id item) then item else i) <$> prev.
Proof.
  intros (old & Hin & Hid). unfold saveItem_update.
  destruct (list_find _ prev) as [[k old']|] eqn:E; [done|].
  rewrite list_find_None, Forall_forall in E. destruct (E old Hin Hid).
Qed.

Lemma saveItem_update_ids_existing item (prev : list ContentItem) :
  (∃ old, old ∈ prev ∧ id old = id item) →
  id <$> saveItem_update item prev = id <$> prev.
Proof.
  intros H. rewrite saveItem_update_existing by done.
  rewrite <- list_fmap_compose. apply list_fmap_ext.
  intros _ i _. simpl. by case_decide.
Qed.

Lemma saveItem_update_cases item (prev : list ContentItem) :
  (∃ old, old ∈ prev ∧ id old = id item) ∨ (∀ old, old ∈ prev → id old ≠ id item).
Proof.
  destruct (decide (id item ∈ id <$> prev)) as [Hin|Hin].
  - left. apply list_elem_of_fmap in Hin as (old & ? & ?). eauto.
  - right. intros old Hold Hid. apply Hin. rewrite <- Hid. by apply list_elem_of_fmap_2.
Qed.

Lemma list_insert_fmap_unique (item : ContentItem) (prev : list ContentItem) k old :
  prev !! k = Some old → id old = id item →
  (∀ j o, prev !! j = Some o → id o = id item → j = k) →
  (λ i, if decide (id i = id item) then item else i) <$> prev = <[k := item]> prev.
Proof.
  intros Hk Hid Huniq. apply list_eq. intros j.
  rewrite list_lookup_fmap.
  destruct (decide (j = k)) as [->|Hne].
  - rewrite list_lookup_insert_eq by (by eapply lookup_lt_Some).
    rewrite Hk. simpl. by rewrite decide_True.
  - rewrite list_lookup_insert_ne by done.
    destruct (prev !! j) as [o|] eqn:Ej; [|done]. simpl.
    case_decide as Ho; [|done]. destruct Hne. by eapply Huniq.
Qed.

(** ** Running the hooks *)

(** Unfolds the monad so that a hook applied to a world computes. *)
Ltac run_eff :=
  unfold result, final, mbind, mret, Eff_bind, Eff_ret, modify, gets, throw,
    try_catch, try_finally in *.

Ltac run_firebase :=
  unfold Firebase.saveItem, Firebase.deleteItem, Firebase.saveSettings,
    Firebase.saveMeta, Firebase.setDoc_content, Firebase.deleteDoc_content,
    Firebase.setDoc_meta, Firebase.setDoc_settings, Firebase.getDoc_meta,
    Firebase.getDoc_settings, Firebase.remote, Firebase.setItems,
    Firebase.setSettings, Firebase.setIsLoading, Firebase.setError,
    Firebase.ledger in *;
  run_eff.

(** Case analysis on what the environment decides. *)
Ltac firebase_cases :=
  repeat (simpl;
    match goal with
    | H : Firebase.isFirebaseConfigured _ = _ |- _ => rewrite H
    | H : Firebase.throws _ _ = _ |- _ => rewrite H
    | H : Firebase.config_meta _ = _ |- _ => rewrite H
    | |- context [Firebase.isFirebaseConfigured ?e] =>
        destruct (Firebase.isFirebaseConfigured e) eqn:?
    | |- context [Firebase.throws ?e ?c] => destruct (Firebase.throws e c) eqn:?
    | |- context [Firebase.config_meta (Firebase.db ?w)] =>
        is_var w; destruct (Firebase.config_meta (Firebase.db w)) eqn:?
    | |- context [bool_decide ?P] => destruct (bool_decide P) eqn:?
    end);
  simpl.

Lemma Firebase_saveItem_local env item w :
  Firebase.items (final (Firebase.saveItem env item w))
  = saveItem_update item (Firebase.items w).
Proof. run_firebase. firebase_cases; done. Qed.

Ltac run_github :=
  unfold GitHub.saveItem, GitHub.deleteItem, GitHub.saveSettings, GitHub.saveMeta,
    GitHub.listContentFiles,
    GitHub.getFileContent_item, GitHub.getFileContent_meta,
    GitHub.getFileContent_settings, GitHub.getFileContent,
    GitHub.saveFileToGitHub, GitHub.deleteFileFromGitHub, GitHub.githubApi,
    GitHub.setItems_stored, GitHub.setItems, GitHub.setSettings,
    GitHub.setIsLoading, GitHub.setError, GitHub.ledger in *;
  run_eff.

Ltac github_cases :=
  repeat (simpl;
    match goal with
    | H : GitHub.isGitHubConfigured _ = _ |- _ => rewrite H
    | H : context [GitHub.throws _ _ = _] |- _ => rewrite H
    | |- context [GitHub.isGitHubConfigured ?e] =>
        destruct (GitHub.isGitHubConfigured e) eqn:?
    | |- context [GitHub.throws ?e ?c] => destruct (GitHub.throws e c) eqn:?
    | H : GitHub.encodes_item _ = _ |- _ => rewrite H
    | H : GitHub.encodes_meta _ = _ |- _ => rewrite H
    | H : GitHub.encodes_settings _ = _ |- _ => rewrite H
    | |- context [GitHub.encodes_item ?i] => destruct (GitHub.encodes_item i) eqn:?
    | |- context [GitHub.encodes_meta ?m] => destruct (GitHub.encodes_meta m) eqn:?
    | |- context [GitHub.encodes_settings ?m] => destruct (GitHub.encodes_settings m) eqn:?
    | |- context [GitHub.content_json (GitHub.repo ?w) !! ?n] =>
        is_var w; destruct (GitHub.content_json (GitHub.repo w) !! n) as [[? []]|] eqn:?
    | H : GitHub.meta_json (GitHub.repo ?w) = _
      |- context [GitHub.meta_json (GitHub.repo ?w)] => rewrite H
    | |- context [GitHub.meta_json (GitHub.repo ?w)] =>
        is_var w; destruct (GitHub.meta_json (GitHub.repo w)) as [[? []]|] eqn:?
    | |- context [GitHub.settings_json (GitHub.repo ?w)] =>
        is_var w; destruct (GitHub.settings_json (GitHub.repo w)) as [[? []]|] eqn:?
    | |- context [bool_decide ?P] => destruct (bool_decide P) eqn:?
    end);
  simpl.

Lemma GitHub_saveItem_local env item w :
  GitHub.items (final (GitHub.saveItem env item w))
  = saveItem_update item (GitHub.items w).
Proof. run_github. github_cases; done. Qed.

Lemma Firebase_deleteItem_local env id' w :
  Firebase.items (final (Firebase.deleteItem env id' w))
  = deleteItem_update id' (Firebase.items w).
Proof. run_firebase. firebase_cases; done. Qed.

(** ** The access gate *)

(** C8. The check of [login] is a comparison of the submitted text with the
    configured secret: it returns [true] exactly when they are equal,
    whatever the state and so whatever was attempted before; on success it
    sets the authenticated flag and the flag of the session storage (which
    the mount effect reads back), on failure it changes nothing; [logout]
    clears both. *)
Theorem login_is_stateless_comparison
    (VITE_ADMIN_PASSWORD : option string) (password : string) (st : useAuth.State) :
  let secret := useAuth.ADMIN_PASSWORD VITE_ADMIN_PASSWORD in
  let login := useAuth.login VITE_ADMIN_PASSWORD password in
  ((login st).1 = true ↔ password = secret)
  ∧ (∀ st', (login st').1 = (login st).1)
  ∧ (password = secret →
       useAuth.isAuthenticated (login st).2 = true
       ∧ useAuth.sessionStorage (login st).2 !! "cms_authenticated" = Some "true"
       ∧ useAuth.isAuthenticated
           (useAuth.checkAuth
              (useAuth.initial (useAuth.sessionStorage (login st).2))) = true)
  ∧ (password ≠ secret → (login st).2 = st)
  ∧ useAuth.isAuthenticated (useAuth.logout st) = false
  ∧ useAuth.sessionStorage (useAuth.logout st) !! "cms_authenticated" = None
  ∧ useAuth.isAuthenticated
      (useAuth.checkAuth (useAuth.initial (useAuth.sessionStorage (useAuth.logout st))))
    = false.
Proof.
  intros secret login. subst secret login. unfold useAuth.login.
  split_and!.
  - case_decide; split; done.
  - intros st'. by repeat case_decide.
  - intros E. rewrite decide_True by done. simpl. split_and!; [done| |].
    + apply lookup_insert_eq.
    + unfold useAuth.checkAuth. simpl. rewrite lookup_insert_eq. by rewrite decide_True.
  - intros E. by rewrite decide_False.
  - done.
  - simpl. apply lookup_delete_eq.
  - unfold useAuth.checkAuth. simpl. rewrite lookup_delete_eq. by rewrite decide_False.
Qed.

(** The secret is the configured text, or ['jacopo'] when none is
    configured. *)
Lemma ADMIN_PASSWORD_default : useAuth.ADMIN_PASSWORD None = "jacopo"
  ∧ useAuth.ADMIN_PASSWORD (Some EmptyString) = "jacopo"
  ∧ useAuth.ADMIN_PASSWORD (Some "s3cret") = "s3cret".
Proof. done. Qed.

(** *** The [Login] component with a boolean check *)

Section LoginComponent.
Context {Parent : Type} (onLogin : string → Parent → Login.Returned * Parent).

(** While locked, a submission is rejected before [onLogin] is called. *)
Lemma Login_locked_submit_rejected st parent :
  Login.isLocked st = true →
  Login.handleSubmit onLogin st parent = (st, parent).
Proof. intros H. unfold Login.handleSubmit. by rewrite H. Qed.

(** A failed check counts one more attempt and locks at the third. *)
Lemma Login_failed_submit st parent b parent' :
  Login.isLocked st = false →
  onLogin (Login.password st) parent = (Login.Boolean false, parent') →
  Login.handleSubmit onLogin st parent = (b, parent') →
  Login.attempts b = Login.attempts st + 1
  ∧ (Login.isLocked b = true ↔ 3 ≤ Login.attempts st + 1)
  ∧ (Login.isLocked b = true → Login.lockoutTimer b = 30%Z).
Proof.
  intros Hl Hf. unfold Login.handleSubmit. rewrite Hl, Hf. simpl.
  intros [= <-]. simpl. unfold Login.MAX_ATTEMPTS.
  case_bool_decide; split_and!; try done; split; try done; lia.
Qed.

(** A successful check leaves the count of the component as it is. *)
Lemma Login_successful_submit st parent parent' :
  Login.isLocked st = false →
  onLogin (Login.password st) parent = (Login.Boolean true, parent') →
  Login.attempts (Login.handleSubmit onLogin st parent).1 = Login.attempts st
  ∧ Login.isLocked (Login.handleSubmit onLogin st parent).1 = false.
Proof. intros Hl Hs. unfold Login.handleSubmit. rewrite Hl, Hs. done. Qed.
End LoginComponent.

(** X30. The countdown: a form locked with [t] seconds left stays locked for
    [t - 1] ticks and is released, with the count at zero, by the next. *)
Lemma Login_countdown (t : nat) st :
  Login.isLocked st = true → Login.lockoutTimer st = Z.of_nat (S t) →
  (∀ k, k ≤ t → Login.isLocked (ticks k st) = true
                ∧ Login.lockoutTimer (ticks k st) = Z.of_nat (S t - k))
  ∧ Login.isLocked (ticks (S t) st) = false
  ∧ Login.attempts (ticks (S t) st) = 0.
Proof.
  revert st. induction t as [|t IH]; intros st Hl Ht.
  - split.
    + intros k Hk. assert (k = 0) as -> by lia. done.
    + simpl. unfold Login.tick, Login.interval_active, Login.effect.
      rewrite Hl, Ht. simpl. done.
  - assert (Login.effect (Login.tick st)
            = {| Login.password := Login.password st; Login.error := Login.error st;
                 Login.attempts := Login.attempts st; Login.isLocked := true;
                 Login.lockoutTimer := Z.of_nat (S t) |}) as Hstep.
    { unfold Login.tick, Login.interval_active, Login.effect. rewrite Hl, Ht.
      replace (0 <? Z.of_nat (S (S t)))%Z with true by (symmetry; apply Z.ltb_lt; lia).
      simpl Login.isLocked. simpl Login.lockoutTimer.
      replace (Z.of_nat (S (S t)) - 1)%Z with (Z.of_nat (S t)) by lia.
      replace (0 <? Z.of_nat (S t))%Z with true by (symmetry; apply Z.ltb_lt; lia).
      simpl. done. }
    destruct (IH (Login.effect (Login.tick st))) as (Hk & Hrel & Hatt).
    { by rewrite Hstep. } { by rewrite Hstep. }
    split; [|by split].
    intros [|k] Hle; [done|].
    simpl ticks. destruct (Hk k) as [-> ->]; [lia|]. split; [done|]. f_equal.
Qed.

(** X13. With a boolean check, three failed submissions in a row lock the form
    for 30 seconds, and two do not. *)
Lemma Login_locks_on_third_failure secret p1 p2 p3 :
  wrong secret p1 → wrong secret p2 → wrong secret p3 →
  let two := Login.run (Login.checks secret)
               [Login.Change p1; Login.Submit; Login.Change p2; Login.Submit]
               Login.initial () in
  let three := Login.run (Login.checks secret)
                 [Login.Change p3; Login.Submit] two.1 () in
  Login.isLocked two.1 = false
  ∧ Login.isLocked three.1 = true
  ∧ Login.lockoutTimer three.1 = 30%Z
  ∧ Login.attempts three.1 = 3.
Proof.
  intros H1 H2 H3. unfold wrong in *. simpl.
  unfold Login.handleSubmit, Login.checks. simpl.
  repeat (rewrite !bool_decide_eq_false_2 by done; simpl). done.
Qed.

(** The component itself does not reset its count on a successful check:
    were it to stay mounted, the third failure would lock it although a
    success came in between. *)
Lemma Login_success_keeps_count :
  let st := Login.run (Login.checks "jacopo")
              [Login.Change "a"; Login.Submit; Login.Change "b"; Login.Submit;
               Login.Change "jacopo"; Login.Submit; Login.Change "c"; Login.Submit]
              Login.initial () in
  Login.isLocked st.1 = true.
Proof. vm_compute. reflexivity. Qed.

(** *** The gate as [App] wires it *)

(** [handleLoginSubmit] gives [Login] a promise: the branch of a failed
    check is never taken, whatever the password. *)
Lemma handleLoginSubmit_truthy env password g :
  Login.ToBoolean (App.handleLoginSubmit env password g).1 = true.
Proof.
  unfold App.handleLoginSubmit. by destruct (useAuth.login _ _ _).
Qed.

Lemma App_render_never_locked g form :
  (∀ f, form = Some f → Login.isLocked f = false ∧ Login.attempts f = 0) →
  never_locked (App.render g form).
Proof.
  intros H f. unfold App.render. simpl.
  destruct (App.currentView g); try done.
  intros [= <-]. destruct form as [f|]; simpl; [by apply H|done].
Qed.

Lemma App_step_never_locked env ev s :
  never_locked s → never_locked (App.step env ev s).
Proof.
  intros Hs. destruct ev as [view|ev|]; simpl.
  - by apply App_render_never_locked.
  - destruct (App.loginForm s) as [form|] eqn:Ef; [|done].
    destruct (Hs form Ef) as [Hl Ha].
    destruct (Login.step _ ev form (App.gate s)) as [form' g'] eqn:Estep.
    apply App_render_never_locked. intros f [= <-].
    destruct ev; simpl in Estep.
    + by injection Estep as <- <-.
    + unfold Login.handleSubmit in Estep. rewrite Hl in Estep.
      pose proof (handleLoginSubmit_truthy env (Login.password form) (App.gate s)) as Ht.
      destruct (App.handleLoginSubmit env (Login.password form) (App.gate s)) as [r g''].
      simpl in Ht. rewrite Ht in Estep. injection Estep as <- <-.
      unfold Login.effect. simpl. rewrite andb_false_r. done.
    + injection Estep as <- <-.
      unfold Login.tick, Login.interval_active, Login.effect. rewrite Hl. simpl.
      rewrite ?Hl. simpl. rewrite ?andb_false_r. done.
    + by injection Estep as <- <-.
  - destruct (App.currentView (App.gate s)); try done.
    destruct (useAuth.isAuthenticated _); [|done].
    by apply App_render_never_locked.
Qed.

(** In the application the lockout never triggers: whatever is typed and
    submitted, the mounted form has counted no failure and is not locked. *)
Lemma App_lockout_never_triggers env storage evs :
  never_locked (App.run env evs (App.initial storage)).
Proof.
  unfold App.run.
  assert (never_locked (App.initial storage)) as Hinit.
  { apply App_render_never_locked. done. }
  revert Hinit. generalize (App.initial storage).
  induction evs as [|ev evs IH]; intros s Hs; simpl; [done|].
  apply IH. by apply App_step_never_locked.
Qed.

(** C4 (the code at the failing input). Three wrong passwords submitted in
    a row through the login view of the application: each check fails
    ([login] returns [false], the user is not authenticated), and yet the
    form is not locked and has counted no failed attempt. *)
Theorem three_failed_logins_do_not_lock :
  let s := App.run None
             [App.Nav App.CMS;
              App.Form (Login.Change "a"); App.Form Login.Submit;
              App.Form (Login.Change "b"); App.Form Login.Submit;
              App.Form (Login.Change "c"); App.Form Login.Submit]
             (App.initial ∅) in
  (useAuth.login None "a" (App.auth (App.gate s))).1 = false
  ∧ (useAuth.login None "b" (App.auth (App.gate s))).1 = false
  ∧ (useAuth.login None "c" (App.auth (App.gate s))).1 = false
  ∧ useAuth.isAuthenticated (App.auth (App.gate s)) = false
  ∧ App.currentView (App.gate s) = App.LOGIN
  ∧ (Login.isLocked <$> App.loginForm s) = Some false
  ∧ (Login.attempts <$> App.loginForm s) = Some 0.
Proof. vm_compute. repeat split; reflexivity. Qed.

(** ** Saving and deleting in the item list *)

Lemma GitHub_deleteFirstMatch_items env id' files w :
  GitHub.items (final (GitHub.deleteFirstMatch env id' files w)) = GitHub.items w.
Proof.
  revert w. induction files as [|name files IH]; intros w; [done|].
  simpl GitHub.deleteFirstMatch. run_github.
  destruct (negb (GitHub.isGitHubConfigured env)); simpl; [apply IH|].
  destruct (GitHub.throws env (GitHub.Get _)); simpl; [by rewrite IH|].
  destruct (GitHub.content_json (GitHub.repo w) !! name) as [[fsha [item|]]|];
    simpl; try (by rewrite IH).
  destruct (decide (id item = id')); [|by rewrite IH].
  github_cases; done.
Qed.

Lemma GitHub_listContentFiles_normal env w :
  ∃ files w', GitHub.listContentFiles env w = (Normal files, w')
    ∧ GitHub.items w' = GitHub.items w
    ∧ GitHub.repo w' = GitHub.repo w
    ∧ GitHub.localStorage w' = GitHub.localStorage w.
Proof. run_github. github_cases; eauto 10. Qed.

Lemma GitHub_deleteItem_local env id' w :
  GitHub.items (final (GitHub.deleteItem env id' w))
  = deleteItem_update id' (GitHub.items w).
Proof.
  unfold GitHub.deleteItem, GitHub.setItems_stored. run_eff.
  destruct (GitHub.isGitHubConfigured env); [|done].
  unfold mbind, Eff_bind.
  match goal with
  | |- context [GitHub.listContentFiles env ?w'] =>
      destruct (GitHub_listContentFiles_normal env w') as (fs & w2 & -> & Hi & _)
  end.
  pose proof (GitHub_deleteFirstMatch_items env id' fs w2) as H.
  unfold final in H.
  destruct (GitHub.deleteFirstMatch env id' fs w2) as [[[b|]|] w3];
    simpl in *; by rewrite H, Hi.
Qed.

(** C2 as stated fails on a list that holds the id twice: [saveItem]
    replaces both elements, so the result is not the old list with one
    element replaced.  [useGitHubDB] comes to such a list by itself: the file
    name of a story follows its title, so saving the story with a new title
    writes a second file, and the next load gives two items of the same
    id. *)
Lemma saveItem_replaces_every_element_of_the_id :
  let prev := GitHub.items reloaded_session in
  let next := GitHub.items (final (GitHub.saveItem github_ok story_edited reloaded_session)) in
  GitHub.items renamed_session = [story_renamed]
  ∧ prev = [story; story_renamed]
  ∧ (∃ old, old ∈ prev ∧ id old = id story_edited)
  ∧ next = [story_edited; story_edited]
  ∧ ¬ (∃ k, next = <[k := story_edited]> prev).
Proof.
  assert (GitHub.items reloaded_session = [story; story_renamed]) as Hprev
    by (vm_compute; reflexivity).
  assert (GitHub.items (final (GitHub.saveItem github_ok story_edited reloaded_session))
          = [story_edited; story_edited]) as Hnext
    by (vm_compute; reflexivity).
  cbv zeta. rewrite Hprev, Hnext. split_and!.
  - vm_compute. reflexivity.
  - reflexivity.
  - exists story. split; [left|done].
  - reflexivity.
  - intros [k Hk]. destruct k as [|[|k]]; discriminate.
Qed.

(** The same on a list given outright, in [useFirebaseDB]. *)
Lemma Firebase_saveItem_replaces_every_element_of_the_id :
  Firebase.items (final (Firebase.saveItem firebase_local_only item_c
                           (firebase_world [item_a; item_b] empty_db)))
  = [item_c; item_c].
Proof. vm_compute. reflexivity. Qed.

(** C2 (amended). After [saveItem] the item list of either hook is
    [saveItem_update item prev].  When elements of the list have the id of
    the item, the list keeps its length and each position holds the new item
    if the element there had that id and the old element otherwise; so when
    exactly one element has the id, the result is the old list with that
    element replaced at its position.  When no element has the id, the item
    is put in front of the old list and the length grows by one. *)
Theorem saveItem_replaces_in_place_or_prepends
    (item : ContentItem) (prev : list ContentItem) :
  let next := saveItem_update item prev in
  (∀ env w, Firebase.items w = prev →
     Firebase.items (final (Firebase.saveItem env item w)) = next)
  ∧ (∀ env w, GitHub.items w = prev →
       GitHub.items (final (GitHub.saveItem env item w)) = next)
  ∧ ((∃ old, old ∈ prev ∧ id old = id item) →
       length next = length prev
       ∧ (∀ k old, prev !! k = Some old →
            next !! k = Some (if decide (id old = id item) then item else old))
       ∧ (∀ k old, prev !! k = Some old → id old = id item →
            (∀ j o, prev !! j = Some o → id o = id item → j = k) →
            next = <[k := item]> prev))
  ∧ ((∀ old, old ∈ prev → id old ≠ id item) →
       next = item :: prev ∧ length next = S (length prev)).
Proof.
  intros next. subst next. split_and!.
  - intros env w <-. apply Firebase_saveItem_local.
  - intros env w <-. apply GitHub_saveItem_local.
  - intros Hex. rewrite saveItem_update_existing by done. split_and!.
    + by rewrite length_fmap.
    + intros k old Hk. by rewrite list_lookup_fmap, Hk.
    + intros k old Hk Hid Huniq. by eapply list_insert_fmap_unique.
  - intros Hnew. rewrite saveItem_update_new by done. done.
Qed.

(** ** Uniqueness of the ids *)

Lemma deleteItem_update_ids id' (prev : list ContentItem) :
  id <$> deleteItem_update id' prev = filter (λ i, i ≠ id') (id <$> prev).
Proof.
  unfold deleteItem_update. induction prev as [|x prev IH]; [done|].
  rewrite fmap_cons, !filter_cons. simpl.
  destruct (decide (id x ≠ id')); by rewrite ?fmap_cons, IH.
Qed.

(** C10. On a list in which no two items share an id, [saveItem] and
    [deleteItem] (of either hook) give a list in which no two items share an
    id: a replacement leaves the list of ids as it is, a new item is put in
    front only when its id is not in the list, and a deletion leaves no
    occurrence of the id. *)
Theorem item_ids_stay_unique (prev : list ContentItem) (item : ContentItem) (id' : string) :
  NoDup (id <$> prev) →
  NoDup (id <$> saveItem_update item prev)
  ∧ NoDup (id <$> deleteItem_update id' prev)
  ∧ ((∃ old, old ∈ prev ∧ id old = id item) →
       id <$> saveItem_update item prev = id <$> prev)
  ∧ ((∀ old, old ∈ prev → id old ≠ id item) →
       id <$> saveItem_update item prev = id item :: (id <$> prev)
       ∧ (id item ∉ id <$> prev))
  ∧ (id' ∉ id <$> deleteItem_update id' prev)
  ∧ (∀ env w, Firebase.items w = prev →
       NoDup (id <$> Firebase.items (final (Firebase.saveItem env item w)))
       ∧ NoDup (id <$> Firebase.items (final (Firebase.deleteItem env id' w))))
  ∧ (∀ env w, GitHub.items w = prev →
       NoDup (id <$> GitHub.items (final (GitHub.saveItem env item w)))
       ∧ NoDup (id <$> GitHub.items (final (GitHub.deleteItem env id' w)))).
Proof.
  intros Hnd.
  assert (NoDup (id <$> saveItem_update item prev)) as Hsave.
  { destruct (saveItem_update_cases item prev) as [Hex|Hnew].
    - by rewrite saveItem_update_ids_existing.
    - rewrite saveItem_update_new by done. rewrite fmap_cons.
      apply NoDup_cons. split; [|done].
      intros (old & Hid & Hin)%list_elem_of_fmap. by destruct (Hnew old). }
  assert (NoDup (id <$> deleteItem_update id' prev)) as Hdel.
  { rewrite deleteItem_update_ids. by apply NoDup_filter. }
  split_and!; try done.
  - apply saveItem_update_ids_existing.
  - intros Hnew. rewrite saveItem_update_new by done. split; [done|].
    intros (old & Hid & Hin)%list_elem_of_fmap. by destruct (Hnew old).
  - rewrite deleteItem_update_ids, list_elem_of_filter. tauto.
  - intros env w <-. by rewrite Firebase_saveItem_local, Firebase_deleteItem_local.
  - intros env w <-. by rewrite GitHub_saveItem_local, GitHub_deleteItem_local.
Qed.

Lemma item_ids_stay_unique_witness :
  NoDup (id <$> [item_a; mkItem "2"])
  ∧ NoDup (id <$> saveItem_update item_c [item_a; mkItem "2"])
  ∧ NoDup (id <$> deleteItem_update "2" [item_a; mkItem "2"]).
Proof.
  assert (NoDup (id <$> [item_a; mkItem "2"])) as H
    by (apply (bool_decide_unpack _); vm_compute; exact I).
  split; [exact H|].
  destruct (item_ids_stay_unique [item_a; mkItem "2"] item_c "2" H) as (H1 & H2 & _).
  split; [exact H1|exact H2].
Defined.

(** ** What the operations report, and what they leave behind *)

(** Finds the remote calls of a trace that is known after case analysis. *)
Ltac trace_calls :=
  simpl; rewrite <- ?app_assoc; simpl;
  first [ by exists []
        | by (eexists [_]; simpl)
        | by (eexists [_; _]; simpl)
        | by (eexists [_; _; _]; simpl) ].

(** C9. Without a configured backend [saveItem], [deleteItem],
    [saveSettings] and [saveMeta] return [true], for every item, id,
    settings and ledger; the database is not touched. *)
Theorem local_only_operations_return_true
    (env : Firebase.Env) (w : Firebase.World)
    (item : ContentItem) (id' : string) (newSettings : SiteSettings) (meta : ContentMeta) :
  Firebase.isFirebaseConfigured env = false →
  (result (Firebase.saveItem env item w) = Normal true
   ∧ Firebase.db (final (Firebase.saveItem env item w)) = Firebase.db w)
  ∧ (result (Firebase.deleteItem env id' w) = Normal true
     ∧ Firebase.db (final (Firebase.deleteItem env id' w)) = Firebase.db w)
  ∧ (result (Firebase.saveSettings env newSettings w) = Normal true
     ∧ Firebase.db (final (Firebase.saveSettings env newSettings w)) = Firebase.db w)
  ∧ (result (Firebase.saveMeta env meta w) = Normal true
     ∧ Firebase.db (final (Firebase.saveMeta env meta w)) = Firebase.db w).
Proof. intros Hcfg. run_firebase. rewrite Hcfg. simpl. done. Qed.

Lemma local_only_operations_return_true_witness :
  Firebase.isFirebaseConfigured firebase_local_only = false
  ∧ result (Firebase.saveItem firebase_local_only item_c (firebase_world [item_a] empty_db))
    = Normal true
  ∧ result (Firebase.deleteItem firebase_local_only "1" (firebase_world [item_a] empty_db))
    = Normal true.
Proof.
  split; [reflexivity|].
  destruct (local_only_operations_return_true firebase_local_only
              (firebase_world [item_a] empty_db) item_c "1" DEFAULT_SETTINGS
              {| contentOrder := [] |} eq_refl) as ([H1 _] & [H2 _] & _).
  split; [exact H1|exact H2].
Defined.

(** The same holds of the hook [useGitHubDB]. *)
Lemma GitHub_local_only_operations_return_true env w item newSettings meta :
  GitHub.isGitHubConfigured env = false →
  result (GitHub.saveItem env item w) = Normal true
  ∧ result (GitHub.saveSettings env newSettings w) = Normal true
  ∧ result (GitHub.saveMeta env meta w) = Normal true
  ∧ ∀ id', result (GitHub.deleteItem env id' w) = Normal true.
Proof.
  intros Hcfg. split_and!; run_github; by rewrite Hcfg.
Qed.

(** With only the read of the ledger failing, [deleteItem] deletes the
    document and returns [false]: no write has failed (the one write that
    was made went through), the document is gone, the ledger still lists
    the id. *)
Lemma deleteItem_reports_false_after_successful_delete :
  let w := firebase_world [item_a] db_one in
  let r := Firebase.deleteItem firebase_meta_down "1" w in
  Firebase.throws firebase_meta_down (Firebase.DeleteDoc "content" "1") = false
  ∧ (∀ collection name,
       Firebase.throws firebase_meta_down (Firebase.SetDoc collection name) = false)
  ∧ Firebase.content (Firebase.db w) !! "1" = Some item_a
  ∧ Firebase.content (Firebase.db (final r)) !! "1" = None
  ∧ Firebase.trace (final r)
    = [Firebase.SetState "items";
       Firebase.Remote (Firebase.DeleteDoc "content" "1");
       Firebase.Remote (Firebase.GetDoc "config" "meta")]
  ∧ result r = Normal false
  ∧ Firebase.items (final r) = []
  ∧ Firebase.ledger (Firebase.db (final r)) = ["1"].
Proof. vm_compute. done. Qed.

(** C6 (amended). [saveItem], [deleteItem] and [saveSettings] (of
    [useFirebaseDB]), whatever the calls to the backend do.  After the
    operation the state cell holds the optimistic update: after [saveItem]
    the old list with the item in front when no element has its id, and
    otherwise with the item in the place of every element of its id; after
    [deleteItem] the old list without the elements of the id; after
    [saveSettings] the new settings.  In the trace the update comes first
    and only calls to the backend follow it.  Without a configured backend
    the operation returns [true]; with one it returns [true] exactly when
    none of its calls to the backend threw, the ledger update of [saveItem]
    not counted: for [deleteItem] the calls are the deletion of the
    document, the read of the ledger and, when there is a ledger, its
    write. *)
Theorem optimistic_update_is_kept (env : Firebase.Env) (w : Firebase.World) :
  (∀ item,
     let r := Firebase.saveItem env item w in
     ((∀ old, old ∈ Firebase.items w → id old ≠ id item) →
        Firebase.items (final r) = item :: Firebase.items w)
     ∧ ((∃ old, old ∈ Firebase.items w ∧ id old = id item) →
          Firebase.items (final r)
          = (λ i, if decide (id i = id item) then item else i) <$> Firebase.items w)
     ∧ Firebase.settings (final r) = Firebase.settings w
     ∧ (∃ calls, Firebase.trace (final r)
                 = Firebase.trace w
                   ++ Firebase.SetState "items" :: (Firebase.Remote <$> calls))
     ∧ (Firebase.isFirebaseConfigured env = false → result r = Normal true)
     ∧ (Firebase.isFirebaseConfigured env = true →
          result r
          = Normal (negb (Firebase.throws env (Firebase.SetDoc "content" (id item))))))
  ∧ (∀ id',
       let r := Firebase.deleteItem env id' w in
       Firebase.items (final r) = filter (λ i, id i ≠ id') (Firebase.items w)
       ∧ Firebase.settings (final r) = Firebase.settings w
       ∧ (∃ calls, Firebase.trace (final r)
                   = Firebase.trace w
                     ++ Firebase.SetState "items" :: (Firebase.Remote <$> calls))
       ∧ (Firebase.isFirebaseConfigured env = false → result r = Normal true)
       ∧ (Firebase.isFirebaseConfigured env = true →
            result r
            = Normal
                (negb (Firebase.throws env (Firebase.DeleteDoc "content" id'))
                 && negb (Firebase.throws env (Firebase.GetDoc "config" "meta"))
                 && match Firebase.config_meta (Firebase.db w) with
                    | Some _ => negb (Firebase.throws env (Firebase.SetDoc "config" "meta"))
                    | None => true
                    end)))
  ∧ (∀ newSettings,
       let r := Firebase.saveSettings env newSettings w in
       Firebase.settings (final r) = newSettings
       ∧ Firebase.items (final r) = Firebase.items w
       ∧ (∃ calls, Firebase.trace (final r)
                   = Firebase.trace w
                     ++ Firebase.SetState "settings" :: (Firebase.Remote <$> calls))
       ∧ (Firebase.isFirebaseConfigured env = false → result r = Normal true)
       ∧ (Firebase.isFirebaseConfigured env = true →
            result r
            = Normal (negb (Firebase.throws env (Firebase.SetDoc "config" "settings"))))).
Proof.
  split_and!.
  - intros item r. subst r. split_and!.
    + intros Hnew. rewrite Firebase_saveItem_local. by apply saveItem_update_new.
    + intros Hold. rewrite Firebase_saveItem_local. by apply saveItem_update_existing.
    + run_firebase. firebase_cases; done.
    + run_firebase. firebase_cases; trace_calls.
    + intros Hcfg. run_firebase. firebase_cases; done.
    + intros Hcfg. run_firebase. firebase_cases; done.
  - intros id' r. subst r. split_and!.
    + apply Firebase_deleteItem_local.
    + run_firebase. firebase_cases; done.
    + run_firebase. firebase_cases; trace_calls.
    + intros Hcfg. run_firebase. firebase_cases; done.
    + intros Hcfg. run_firebase. firebase_cases; done.
  - intros newSettings r. subst r. split_and!.
    + run_firebase. firebase_cases; done.
    + run_firebase. firebase_cases; done.
    + run_firebase. firebase_cases; trace_calls.
    + intros Hcfg. run_firebase. firebase_cases; done.
    + intros Hcfg. run_firebase. firebase_cases; done.
Qed.




(** ** Loading: the order of the fallbacks *)

Lemma loadStaticFiles_run env files acc w :
  Firebase.loadStaticFiles env files acc w
  = (Normal (acc ++ staticItems env files),
     set_trace (Firebase.trace w
                ++ ((λ file, Firebase.Fetch ("/content/" +:+ file)) <$> files)) w).
Proof.
  revert acc w. induction files as [|file files IH]; intros acc w.
  - simpl. rewrite !app_nil_r. by destruct w.
  - simpl Firebase.loadStaticFiles. unfold Firebase.fetch, JSON_parse. run_eff.
    unfold staticItems. simpl omap.
    destruct (Firebase.static_content env file) as [| |[item|]]; simpl;
      rewrite IH; simpl; unfold set_trace; simpl;
      rewrite <- ?app_assoc; simpl; done.
Qed.

Lemma cache_before_static_no_fetch evs :
  Forall (λ e, is_fetch e = false) evs → cache_before_static evs.
Proof.
  intros H i url Hi. rewrite Forall_lookup in H. by apply H in Hi.
Qed.

Lemma cache_before_static_read evs :
  cache_before_static (Firebase.GetItem "cms_content" :: evs).
Proof.
  intros [|i] url Hi; [done|]. exists 0. split; [lia|done].
Qed.

Lemma cache_before_static_app evs1 evs2 :
  Forall (λ e, is_fetch e = false) evs1 → cache_before_static evs2 →
  cache_before_static (evs1 ++ evs2).
Proof.
  intros H1 H2 i url Hi. apply lookup_app_Some in Hi as [Hi|[Hle Hi]].
  - rewrite Forall_lookup in H1. by apply H1 in Hi.
  - destruct (H2 _ _ Hi) as (k & Hk & Hek).
    exists (length evs1 + k). split; [lia|].
    rewrite lookup_app_r by lia. by replace (length evs1 + k - length evs1) with k by lia.
Qed.

Lemma cache_before_static_app_r evs1 evs2 :
  cache_before_static evs1 → Forall (λ e, is_fetch e = false) evs2 →
  cache_before_static (evs1 ++ evs2).
Proof.
  intros H1 H2 i url Hi. apply lookup_app_Some in Hi as [Hi|[Hle Hi]].
  - destruct (H1 _ _ Hi) as (k & Hk & Hek). exists k. split; [done|].
    by apply lookup_app_l_Some.
  - rewrite Forall_lookup in H2. by apply H2 in Hi.
Qed.

Lemma new_events_app w w' evs :
  Firebase.trace w' = Firebase.trace w ++ evs → new_events w w' = evs.
Proof. intros H. unfold new_events. rewrite H. apply drop_app_length. Qed.

Lemma sortByContentOrder_length l items :
  length (sortByContentOrder l items) = length items.
Proof.
  rewrite sortByContentOrder_Array_sort.
  apply Permutation_length, Array_sort_perm.
Qed.

Lemma loadedDocs_empty d : loadedDocs d = [] ↔ Firebase.content d = ∅.
Proof.
  unfold loadedDocs. rewrite <- map_to_list_empty_iff. split.
  - apply fmap_nil_inv.
  - by intros ->.
Qed.

Local Arguments Firebase.loadStaticFiles : simpl never.
Local Arguments contentFiles : simpl never.
Local Arguments staticItems : simpl never.

Ltac run_fetch :=
  unfold Firebase.fetchContent, Firebase.fetchFromFirebase, Firebase.fetchFallback,
    Firebase.getItem_content, Firebase.getItem_settings, Firebase.fetch,
    Firebase.getDoc_settings, Firebase.getDocs_content, Firebase.getDoc_meta,
    Firebase.remote, Firebase.setItems, Firebase.setSettings,
    Firebase.setIsLoading, Firebase.setError, JSON_parse in *;
  run_eff.

Ltac trace_suffix := simpl; rewrite <- ?app_assoc; simpl; reflexivity.

Ltac quiet_events := repeat constructor.

(** The reads of the backend: they throw, or give nothing, or give the
    items, which are then sorted by the ledger. *)
Lemma fetchFromFirebase_run env w :
  ∃ c w1 evs,
    Firebase.fetchFromFirebase env w = (c, w1)
    ∧ Firebase.trace w1 = Firebase.trace w ++ evs
    ∧ Forall (λ e, is_fetch e = false ∧ is_cache_read e = false) evs
    ∧ Firebase.localStorage w1 = Firebase.localStorage w
    ∧ Firebase.error w1 = Firebase.error w
    ∧ match c with
      | Throw => backend_read_throws env ∧ Firebase.items w1 = Firebase.items w
      | Normal false =>
          ¬ backend_read_throws env
          ∧ Firebase.content (Firebase.db w) = ∅
          ∧ Firebase.items w1 = Firebase.items w
      | Normal true =>
          ¬ backend_read_throws env
          ∧ Firebase.content (Firebase.db w) ≠ ∅
          ∧ Firebase.items w1
            = sortByContentOrder (Firebase.ledger (Firebase.db w)) (loadedDocs (Firebase.db w))
      end.
Proof.
  unfold backend_read_throws. run_fetch.
  destruct (Firebase.throws env (Firebase.GetDoc "config" "settings")) eqn:E1; simpl.
  { eexists _, _, _. split; [reflexivity|]. split; [trace_suffix|].
    split; [quiet_events|]. split_and!; simpl; auto. }
  destruct (Firebase.throws env (Firebase.GetDocs "content")) eqn:E2; simpl.
  { destruct (Firebase.config_settings (Firebase.db w)); simpl;
      (eexists _, _, _; split; [reflexivity|]; split; [trace_suffix|];
       split; [quiet_events|]; split_and!; simpl; auto). }
  destruct (Firebase.throws env (Firebase.GetDoc "config" "meta")) eqn:E3; simpl.
  { destruct (Firebase.config_settings (Firebase.db w)); simpl;
      (eexists _, _, _; split; [reflexivity|]; split; [trace_suffix|];
       split; [quiet_events|]; split_and!; simpl; auto). }
  assert (¬ (false = true ∨ false = true ∨ false = true)) as Hok by (intros [|[|]]; done).
  fold (loadedDocs (Firebase.db w)).
  destruct (Firebase.config_settings (Firebase.db w)); simpl;
    fold (loadedDocs (Firebase.db w)); fold (Firebase.ledger (Firebase.db w));
    case_bool_decide as Hlen; simpl;
    rewrite sortByContentOrder_length in Hlen;
    (eexists _, _, _; split; [reflexivity|]; split; [trace_suffix|];
     split; [quiet_events|]; split; [done|]; split; [done|];
     split; [done|]; split; [|done]);
    rewrite <- loadedDocs_empty;
    try (intros E; rewrite E in Hlen; simpl in Hlen; lia);
    try (apply nil_length_inv; lia).
Qed.

(** The fallbacks after the backend: the local cache, then the static
    files, then the default content. *)
Lemma fetchFallback_run env w :
  ∃ c w1 evs,
    Firebase.fetchFallback env w = (c, w1)
    ∧ Firebase.trace w1 = Firebase.trace w ++ Firebase.GetItem "cms_content" :: evs
    ∧ Firebase.error w1 = Firebase.error w
    ∧ match cms_content (Firebase.localStorage w) with
      | Some (Parses cached) =>
          Forall (λ e, is_fetch e = false) evs
          ∧ Firebase.items w1 = cached
          ∧ c = match cms_settings (Firebase.localStorage w) with
                | Some Malformed => Throw
                | _ => Normal tt
                end
      | Some Malformed =>
          Forall (λ e, is_fetch e = false) evs
          ∧ Firebase.items w1 = Firebase.items w
          ∧ c = Throw
      | None =>
          match Firebase.static_settings env with
          | NetworkError | Ok Malformed =>
              Firebase.items w1 = Firebase.items w ∧ c = Throw
          | _ =>
              Firebase.items w1
              = (if bool_decide (0 < length (staticItems env contentFiles))
                 then staticItems env contentFiles else DEFAULT_CONTENT)
              ∧ c = Normal tt
          end
      end.
Proof.
  run_fetch.
  destruct (cms_content (Firebase.localStorage w)) as [[cached|]|] eqn:Ec; simpl;
    rewrite ?Ec; simpl.
  - destruct (cms_settings (Firebase.localStorage w)) as [[s|]|] eqn:Es; simpl;
      rewrite ?Es; simpl;
      (eexists _, _, _; split; [reflexivity|]; split; [trace_suffix|];
       split; [done|]; split; [quiet_events|]; split; [done|]; done).
  - eexists _, _, _. split; [reflexivity|]. split; [trace_suffix|].
    split; [done|]. split; [quiet_events|]. done.
  - destruct (Firebase.static_settings env) as [| |[s|]] eqn:Est; simpl.
    + eexists _, _, _. split; [reflexivity|]. split; [trace_suffix|]. done.
    + rewrite loadStaticFiles_run. simpl.
      eexists _, _, _. split; [reflexivity|]. split; [trace_suffix|]. done.
    + rewrite loadStaticFiles_run. simpl.
      eexists _, _, _. split; [reflexivity|]. split; [trace_suffix|]. done.
    + eexists _, _, _. split; [reflexivity|]. split; [trace_suffix|]. done.
Qed.

Lemma Forall_quiet_no_fetch evs :
  Forall (λ e, is_fetch e = false ∧ is_cache_read e = false) evs →
  Forall (λ e, is_fetch e = false) evs.
Proof. intros H. eapply Forall_impl; [exact H|]. by intros e [? _]. Qed.

Lemma fetchFailed_run w :
  ∃ w', Firebase.fetchFailed w = (Normal tt, w')
    ∧ Firebase.items w' = DEFAULT_CONTENT
    ∧ Firebase.error w' = Some "Failed to load content"
    ∧ Firebase.trace w'
      = Firebase.trace w ++ [Firebase.SetState "error"; Firebase.SetState "items";
                             Firebase.SetState "isLoading"].
Proof.
  unfold Firebase.fetchFailed, Firebase.setError, Firebase.setItems, Firebase.setIsLoading.
  run_eff. simpl. eexists. split; [reflexivity|]. simpl.
  by rewrite <- !app_assoc.
Qed.

(** The fallbacks, with the [catch] block behind them. *)
Lemma fetchFallback_or_failed env w w1 evs1 :
  Firebase.trace w1 = Firebase.trace w ++ evs1 →
  Forall (λ e, is_fetch e = false) evs1 →
  Firebase.localStorage w1 = Firebase.localStorage w →
  Firebase.error w1 = None →
  ∃ w' evs,
    try_catch (Firebase.fetchFallback env) Firebase.fetchFailed w1 = (Normal tt, w')
    ∧ Firebase.trace w' = Firebase.trace w ++ evs
    ∧ cache_before_static evs
    ∧ match cms_content (Firebase.localStorage w) with
      | Some (Parses cached) =>
          Forall (λ e, is_fetch e = false) evs
          ∧ match cms_settings (Firebase.localStorage w) with
            | Some Malformed =>
                Firebase.items w' = DEFAULT_CONTENT
                ∧ Firebase.error w' = Some "Failed to load content"
            | _ => Firebase.items w' = cached ∧ Firebase.error w' = None
            end
      | Some Malformed =>
          Forall (λ e, is_fetch e = false) evs
          ∧ Firebase.items w' = DEFAULT_CONTENT
          ∧ Firebase.error w' = Some "Failed to load content"
      | None =>
          match Firebase.static_settings env with
          | NetworkError | Ok Malformed =>
              Firebase.items w' = DEFAULT_CONTENT
              ∧ Firebase.error w' = Some "Failed to load content"
          | _ =>
              Firebase.items w'
              = (if bool_decide (0 < length (staticItems env contentFiles))
                 then staticItems env contentFiles else DEFAULT_CONTENT)
              ∧ Firebase.error w' = None
          end
      end.
Proof.
  intros Htr1 Hq1 Hls1 Herr1. unfold try_catch.
  destruct (fetchFallback_run env w1) as (c & w2 & evs2 & -> & Htr2 & Herr2 & Hcase).
  rewrite Hls1 in Hcase. rewrite Herr1 in Herr2. rewrite Htr1, <- app_assoc in Htr2.
  assert (cache_before_static (evs1 ++ Firebase.GetItem "cms_content" :: evs2)) as Hcb
    by (apply cache_before_static_app; [done|apply cache_before_static_read]).
  destruct (fetchFailed_run w2) as (w3 & E3 & Hit3 & Herr3 & Htr3).
  rewrite Htr2, <- !app_assoc in Htr3.
  assert (cache_before_static
            (evs1 ++ (Firebase.GetItem "cms_content" :: evs2)
                  ++ [Firebase.SetState "error"; Firebase.SetState "items";
                      Firebase.SetState "isLoading"])) as Hcb3.
  { rewrite app_assoc. apply cache_before_static_app_r; [done|]. quiet_events. }
  assert (Forall (λ e, is_fetch e = false) evs2 →
          Forall (λ e, is_fetch e = false)
            (evs1 ++ (Firebase.GetItem "cms_content" :: evs2)
                  ++ [Firebase.SetState "error"; Firebase.SetState "items";
                      Firebase.SetState "isLoading"])) as Hq3.
  { intros Hq2. repeat (apply Forall_app; split); try done; quiet_events; done. }
  assert (Forall (λ e, is_fetch e = false) evs2 →
          Forall (λ e, is_fetch e = false)
            (evs1 ++ Firebase.GetItem "cms_content" :: evs2)) as Hq2'.
  { intros Hq2. apply Forall_app. split; [done|]. by constructor. }
  destruct (cms_content (Firebase.localStorage w)) as [[cached|]|].
  - destruct Hcase as (Hq2 & Hit & ->).
    destruct (cms_settings (Firebase.localStorage w)) as [[s|]|].
    + eexists _, _. split; [reflexivity|]. split; [eassumption|]. split; [eassumption|]. auto.
    + rewrite E3. eexists _, _. split; [reflexivity|]. split; [eassumption|]. split; [eassumption|]. auto.
    + eexists _, _. split; [reflexivity|]. split; [eassumption|]. split; [eassumption|]. auto.
  - destruct Hcase as (Hq2 & Hit & ->).
    rewrite E3. eexists _, _. split; [reflexivity|]. split; [eassumption|]. split; [eassumption|]. auto.
  - destruct (Firebase.static_settings env) as [| |[s|]]; destruct Hcase as [Hit ->].
    + rewrite E3. eexists _, _. split; [reflexivity|]. split; [eassumption|]. split; [eassumption|]. auto.
    + eexists _, _. split; [reflexivity|]. split; [eassumption|]. split; [eassumption|]. auto.
    + eexists _, _. split; [reflexivity|]. split; [eassumption|]. split; [eassumption|]. auto.
    + rewrite E3. eexists _, _. split; [reflexivity|]. split; [eassumption|]. split; [eassumption|]. auto.
Qed.


(** What [fetchContent] does, by cases: the backend gives the items; or a
    read of the backend throws; or the backend gives nothing and the
    fallbacks are gone through. *)
Lemma fetchContent_run env w :
  ∃ w' evs,
    Firebase.fetchContent env w = (Normal tt, w')
    ∧ Firebase.trace w' = Firebase.trace w ++ evs
    ∧ cache_before_static evs
    ∧ ((Firebase.isFirebaseConfigured env = true
        ∧ ¬ backend_read_throws env
        ∧ Firebase.content (Firebase.db w) ≠ ∅
        ∧ Firebase.items w'
          = sortByContentOrder (Firebase.ledger (Firebase.db w)) (loadedDocs (Firebase.db w))
        ∧ Firebase.error w' = None)
       ∨ (Firebase.isFirebaseConfigured env = true
          ∧ backend_read_throws env
          ∧ Firebase.items w' = DEFAULT_CONTENT
          ∧ Firebase.error w' = Some "Failed to load content"
          ∧ Forall (λ e, is_fetch e = false ∧ is_cache_read e = false) evs)
       ∨ (backend_gives_nothing env w
          ∧ match cms_content (Firebase.localStorage w) with
            | Some (Parses cached) =>
                Forall (λ e, is_fetch e = false) evs
                ∧ match cms_settings (Firebase.localStorage w) with
                  | Some Malformed =>
                      Firebase.items w' = DEFAULT_CONTENT
                      ∧ Firebase.error w' = Some "Failed to load content"
                  | _ => Firebase.items w' = cached ∧ Firebase.error w' = None
                  end
            | Some Malformed =>
                Forall (λ e, is_fetch e = false) evs
                ∧ Firebase.items w' = DEFAULT_CONTENT
                ∧ Firebase.error w' = Some "Failed to load content"
            | None =>
                match Firebase.static_settings env with
                | NetworkError | Ok Malformed =>
                    Firebase.items w' = DEFAULT_CONTENT
                    ∧ Firebase.error w' = Some "Failed to load content"
                | _ =>
                    Firebase.items w'
                    = (if bool_decide (0 < length (staticItems env contentFiles))
                       then staticItems env contentFiles else DEFAULT_CONTENT)
                    ∧ Firebase.error w' = None
                end
            end)).
Proof.
  unfold Firebase.fetchContent, Firebase.setIsLoading, Firebase.setError.
  run_eff. simpl.
  set (w0 := Firebase.log _ _).
  assert (Firebase.localStorage w0 = Firebase.localStorage w) as Hls by done.
  assert (Firebase.db w0 = Firebase.db w) as Hdb by done.
  assert (Firebase.error w0 = None) as Herr by done.
  assert (Firebase.trace w0
          = Firebase.trace w ++ [Firebase.SetState "isLoading"; Firebase.SetState "error"])
    as Htr by (subst w0; simpl; by rewrite <- app_assoc).
  clearbody w0.
  destruct (Firebase.isFirebaseConfigured env) eqn:Hcfg.
  - destruct (fetchFromFirebase_run env w0)
      as (c & w1 & evs1 & -> & Htr1 & Hq1 & Hls1 & Herr1 & Hcase).
    rewrite Hdb in Hcase. rewrite Htr, <- app_assoc in Htr1.
    rewrite Hls in Hls1. rewrite Herr in Herr1.
    pose proof (Forall_quiet_no_fetch _ Hq1) as Hq1'.
    destruct c as [[|]|]; simpl.
    + destruct Hcase as (Hno & Hne & Hit).
      eexists _, _. split; [reflexivity|]. split; [eassumption|].
      split; [apply cache_before_static_no_fetch; quiet_events; done|].
      left. done.
    + destruct Hcase as (Hno & He & Hit).
      assert (backend_gives_nothing env w) as Hnothing.
      { right. unfold backend_read_throws in Hno.
        split_and!; try done; apply not_true_is_false; tauto. }
      destruct (fetchFallback_or_failed env w w1 _ Htr1) as (w' & evs & E & Ht & Hcb & Hm);
        try done.
      { quiet_events; done. }
      unfold try_catch in E. rewrite E.
      eexists _, _. split; [reflexivity|]. split; [eassumption|]. split; [done|].
      right. right. done.
    + destruct Hcase as (Hthrows & Hit).
      destruct (fetchFailed_run w1) as (w3 & -> & Hit3 & Herr3 & Htr3).
      rewrite Htr1, <- !app_assoc in Htr3.
      eexists _, _. split; [reflexivity|]. split; [eassumption|].
      assert (Forall (λ e, is_fetch e = false ∧ is_cache_read e = false)
                ([Firebase.SetState "isLoading"; Firebase.SetState "error"]
                 ++ evs1
                 ++ [Firebase.SetState "error"; Firebase.SetState "items";
                     Firebase.SetState "isLoading"])) as Hq.
      { repeat (apply Forall_app; split); try done; quiet_events; done. }
      split; [by apply cache_before_static_no_fetch, Forall_quiet_no_fetch|].
      right. left. done.
  - simpl.
    destruct (fetchFallback_or_failed env w w0 _ Htr) as (w' & evs & E & Ht & Hcb & Hm);
      try done.
    { quiet_events; done. }
    unfold try_catch in E. rewrite E.
    eexists _, _. split; [reflexivity|]. split; [eassumption|]. split; [done|].
    right. right. split; [by left|done].
Qed.

(** Case analysis on everything [fetchContent] of [useFirebaseDB] looks
    at. *)
Ltac fetch_cases :=
  repeat (simpl;
    match goal with
    | |- context [Firebase.isFirebaseConfigured ?e] =>
        destruct (Firebase.isFirebaseConfigured e) eqn:?
    | |- context [Firebase.throws ?e ?c] => destruct (Firebase.throws e c) eqn:?
    | |- context [Firebase.config_settings (Firebase.db ?w)] =>
        is_var w; destruct (Firebase.config_settings (Firebase.db w)) eqn:?
    | |- context [Firebase.config_meta (Firebase.db ?w)] =>
        is_var w; destruct (Firebase.config_meta (Firebase.db w)) eqn:?
    | |- context [cms_content (Firebase.localStorage ?w)] =>
        is_var w; destruct (cms_content (Firebase.localStorage w)) as [[?|]|] eqn:?
    | |- context [cms_settings (Firebase.localStorage ?w)] =>
        is_var w; destruct (cms_settings (Firebase.localStorage w)) as [[?|]|] eqn:?
    | |- context [Firebase.static_settings ?e] =>
        destruct (Firebase.static_settings e) as [| |[?|]] eqn:?
    | |- context [Firebase.loadStaticFiles _ _ _ _] => rewrite loadStaticFiles_run
    | |- context [length (sortByContentOrder ?l ?x)] =>
        rewrite (sortByContentOrder_length l x)
    | |- context [bool_decide ?P] => destruct (bool_decide P) eqn:?
    end);
  simpl.

(** The settings [fetchContent] leaves: those after the reads of the
    backend when it returns from the backend branch or a read of the backend
    throws; else those of the local cache, when it holds content and
    settings that parse; else those of the static file [settings.json]
    when it is served and parses. *)
Lemma fetchContent_settings env w :
  Firebase.settings (final (Firebase.fetchContent env w))
  = if Firebase.isFirebaseConfigured env
       && (Firebase.throws env (Firebase.GetDoc "config" "settings")
           || Firebase.throws env (Firebase.GetDocs "content")
           || Firebase.throws env (Firebase.GetDoc "config" "meta")
           || bool_decide (0 < length (loadedDocs (Firebase.db w))))
    then backendSettings env w
    else match cms_content (Firebase.localStorage w) with
         | Some (Parses _) =>
             match cms_settings (Firebase.localStorage w) with
             | Some (Parses s) => s
             | _ => backendSettings env w
             end
         | Some Malformed => backendSettings env w
         | None =>
             match Firebase.static_settings env with
             | Ok (Parses s) => s
             | _ => backendSettings env w
             end
         end.
Proof.
  unfold Firebase.fetchFailed, backendSettings, loadedDocs. run_fetch.
  fetch_cases; congruence.
Qed.

Lemma backend_read_throws_orb env :
  backend_read_throws env →
  Firebase.throws env (Firebase.GetDoc "config" "settings")
  || Firebase.throws env (Firebase.GetDocs "content")
  || Firebase.throws env (Firebase.GetDoc "config" "meta") = true.
Proof. intros [->|[->| ->]]; by rewrite ?orb_true_r. Qed.

(** The settings on the paths of [fetchContent]. *)
Lemma fetchContent_settings_backend env w :
  Firebase.isFirebaseConfigured env = true →
  backend_read_throws env ∨ Firebase.content (Firebase.db w) ≠ ∅ →
  Firebase.settings (final (Firebase.fetchContent env w)) = backendSettings env w.
Proof.
  intros Hcfg H. rewrite fetchContent_settings, Hcfg. simpl.
  destruct H as [Ht|Hne].
  - by rewrite (backend_read_throws_orb _ Ht).
  - rewrite bool_decide_eq_true_2; [by rewrite orb_true_r|].
    destruct (loadedDocs (Firebase.db w)) eqn:E; [|simpl; lia].
    by apply loadedDocs_empty in E.
Qed.

Lemma fetchContent_settings_fallback env w :
  backend_gives_nothing env w →
  Firebase.settings (final (Firebase.fetchContent env w))
  = match cms_content (Firebase.localStorage w) with
    | Some (Parses _) =>
        match cms_settings (Firebase.localStorage w) with
        | Some (Parses s) => s
        | _ => backendSettings env w
        end
    | Some Malformed => backendSettings env w
    | None =>
        match Firebase.static_settings env with
        | Ok (Parses s) => s
        | _ => backendSettings env w
        end
    end.
Proof.
  intros Hn. rewrite fetchContent_settings.
  destruct Hn as [->|(-> & -> & -> & He)]; [done|].
  apply loadedDocs_empty in He. rewrite He. simpl.
  by rewrite andb_false_r.
Qed.

(** C5 as stated fails in three ways.  When a read of the backend throws,
    [fetchContent] goes to its [catch] block, which sets the default
    content: the copy of the local cache, although present, is not read.
    The default content does not come with the default settings: without a
    backend, a cache and content files, the default content is shown with
    the settings of the static file [settings.json].  And the default
    settings do not wait for the earlier sources to fail: a cached copy of
    the content without cached settings is shown with the default
    settings. *)
Lemma fetchContent_fallback_counterexample :
  (let w' := final (Firebase.fetchContent firebase_unreachable cached_world) in
   backend_read_throws firebase_unreachable
   ∧ cms_content (Firebase.localStorage cached_world) = Some (Parses [item_a])
   ∧ Firebase.items w' = DEFAULT_CONTENT
   ∧ Firebase.items w' ≠ [item_a]
   ∧ Firebase.error w' = Some "Failed to load content"
   ∧ Forall (λ e, is_cache_read e = false ∧ is_fetch e = false) (Firebase.trace w'))
  ∧ (let w := Firebase.initial empty_db {| cms_content := None; cms_settings := None |} in
     let w' := final (Firebase.fetchContent firebase_static_settings_only w) in
     Firebase.settings w = DEFAULT_SETTINGS
     ∧ Firebase.items w' = DEFAULT_CONTENT
     ∧ Firebase.error w' = None
     ∧ Firebase.settings w' = custom_settings
     ∧ Firebase.settings w' ≠ DEFAULT_SETTINGS)
  ∧ (let w' := final (Firebase.fetchContent firebase_local_only cached_world) in
     cms_settings (Firebase.localStorage cached_world) = None
     ∧ Firebase.items w' = [item_a]
     ∧ Firebase.items w' ≠ DEFAULT_CONTENT
     ∧ Firebase.error w' = None
     ∧ Firebase.settings w' = DEFAULT_SETTINGS).
Proof.
  split_and!; cbv zeta; split_and!.
  - left. reflexivity.
  - reflexivity.
  - vm_compute. reflexivity.
  - vm_compute. discriminate.
  - vm_compute. reflexivity.
  - vm_compute. repeat constructor.
  - reflexivity.
  - vm_compute. reflexivity.
  - vm_compute. reflexivity.
  - vm_compute. reflexivity.
  - vm_compute. discriminate.
  - reflexivity.
  - vm_compute. reflexivity.
  - vm_compute. discriminate.
  - vm_compute. reflexivity.
  - vm_compute. reflexivity.
Qed.

(** C5 (amended). [fetchContent] never throws, and in its trace the local
    cache is read before any static file is fetched.  When the backend is
    not configured, or is read without error and holds no item, the sources
    of the content are used in this order: the copy of the local cache when
    there is one (no static file is fetched then); else the static files;
    else, when they give no item, the default content.  When a read of the
    backend throws, the default content is set at once, with the error
    message, and neither the local cache nor the static files are
    consulted; a local copy that cannot be parsed, or static settings that
    cannot be fetched or parsed, lead to the default content as well.  The
    settings do not follow the content: they are those left by the reads of
    the backend ([backendSettings]: the document [config/settings] when it
    was read and exists, else the settings held before, which are the
    default settings on the first run), replaced by the cached settings
    when cached content and cached settings are there and parse, and by
    the settings of the static file when there is no cached content and the
    file is served and parses; no path sets the default settings. *)
Theorem fetchContent_fallback_order (env : Firebase.Env) (w : Firebase.World) :
  let r := Firebase.fetchContent env w in
  let w' := final r in
  result r = Normal tt
  ∧ cache_before_static (new_events w w')
  ∧ (Firebase.isFirebaseConfigured env = true → ¬ backend_read_throws env →
     Firebase.content (Firebase.db w) ≠ ∅ →
       Firebase.items w'
       = sortByContentOrder (Firebase.ledger (Firebase.db w)) (loadedDocs (Firebase.db w))
       ∧ Firebase.error w' = None
       ∧ Firebase.settings w' = backendSettings env w)
  ∧ (∀ cached,
       backend_gives_nothing env w →
       cms_content (Firebase.localStorage w) = Some (Parses cached) →
       cms_settings (Firebase.localStorage w) ≠ Some Malformed →
       Firebase.items w' = cached
       ∧ Firebase.error w' = None
       ∧ Forall (λ e, is_fetch e = false) (new_events w w')
       ∧ Firebase.settings w'
         = match cms_settings (Firebase.localStorage w) with
           | Some (Parses s) => s
           | _ => backendSettings env w
           end)
  ∧ (backend_gives_nothing env w →
     cms_content (Firebase.localStorage w) = None →
     Firebase.static_settings env ≠ NetworkError →
     Firebase.static_settings env ≠ Ok Malformed →
       Firebase.items w'
       = (if bool_decide (0 < length (staticItems env contentFiles))
          then staticItems env contentFiles else DEFAULT_CONTENT)
       ∧ Firebase.error w' = None
       ∧ Firebase.settings w'
         = match Firebase.static_settings env with
           | Ok (Parses s) => s
           | _ => backendSettings env w
           end)
  ∧ (Firebase.isFirebaseConfigured env = true → backend_read_throws env →
       Firebase.items w' = DEFAULT_CONTENT
       ∧ Firebase.error w' = Some "Failed to load content"
       ∧ Forall (λ e, is_fetch e = false ∧ is_cache_read e = false) (new_events w w')
       ∧ Firebase.settings w' = backendSettings env w)
  ∧ (backend_gives_nothing env w →
     cms_content (Firebase.localStorage w) = Some Malformed
     ∨ ((∃ cached, cms_content (Firebase.localStorage w) = Some (Parses cached))
        ∧ cms_settings (Firebase.localStorage w) = Some Malformed) →
       Firebase.items w' = DEFAULT_CONTENT
       ∧ Firebase.error w' = Some "Failed to load content"
       ∧ Forall (λ e, is_fetch e = false) (new_events w w')
       ∧ Firebase.settings w' = backendSettings env w)
  ∧ (backend_gives_nothing env w →
     cms_content (Firebase.localStorage w) = None →
     Firebase.static_settings env = NetworkError
     ∨ Firebase.static_settings env = Ok Malformed →
       Firebase.items w' = DEFAULT_CONTENT
       ∧ Firebase.error w' = Some "Failed to load content"
       ∧ Firebase.settings w' = backendSettings env w)
  ∧ (Firebase.settings w = DEFAULT_SETTINGS →
     Firebase.isFirebaseConfigured env = false
     ∨ Firebase.throws env (Firebase.GetDoc "config" "settings") = true
     ∨ Firebase.config_settings (Firebase.db w) = None →
       backendSettings env w = DEFAULT_SETTINGS).
Proof.
  intros r w'. subst r w'.
  pose proof (fetchContent_settings_backend env w) as Hsb.
  pose proof (fetchContent_settings_fallback env w) as Hsf.
  destruct (fetchContent_run env w) as (w'' & evs & Hrun & Htr & Hcb & Hcases).
  assert (∀ P : Prop, backend_gives_nothing env w →
            Firebase.isFirebaseConfigured env = true → backend_read_throws env → P)
    as Hexcl1.
  { intros P [Hn|(H1 & H2 & H3 & _)] Hc Ht; [congruence|].
    destruct Ht as [?|[?|?]]; congruence. }
  assert (∀ P : Prop, backend_gives_nothing env w →
            Firebase.isFirebaseConfigured env = true →
            Firebase.content (Firebase.db w) ≠ ∅ → P) as Hexcl2.
  { intros P [Hn|(_ & _ & _ & He)] Hc Hne; [congruence|done]. }
  rewrite Hrun in Hsb, Hsf |- *. unfold result, final in Hsb, Hsf |- *.
  cbn [fst snd] in Hsb, Hsf |- *.
  rewrite (new_events_app _ _ _ Htr).
  split_and!; try done.
  - intros Hc Hno Hne. split_and!; [| |by apply Hsb; [|right]].
    all: destruct Hcases as [(_ & _ & _ & Hit & He)|[(_ & Ht & _)|(Hn & _)]]; [done|done|];
      by eapply Hexcl2.
  - intros cached Hn Hcache Hset.
    assert (Firebase.settings w''
            = match cms_settings (Firebase.localStorage w) with
              | Some (Parses s) => s
              | _ => backendSettings env w
              end) as Hs by (by rewrite (Hsf Hn), Hcache).
    destruct Hcases as [(Hc & _ & Hne & _)|[(Hc & Ht & _)|(_ & Hm)]].
    + by eapply Hexcl2.
    + by eapply Hexcl1.
    + rewrite Hcache in Hm. destruct Hm as [Hq Hm].
      destruct (cms_settings (Firebase.localStorage w)) as [[s|]|]; try done;
        destruct Hm; done.
  - intros Hn Hcache Hs1 Hs2.
    assert (Firebase.settings w''
            = match Firebase.static_settings env with
              | Ok (Parses s) => s
              | _ => backendSettings env w
              end) as Hs by (by rewrite (Hsf Hn), Hcache).
    destruct Hcases as [(Hc & _ & Hne & _)|[(Hc & Ht & _)|(_ & Hm)]].
    + by eapply Hexcl2.
    + by eapply Hexcl1.
    + rewrite Hcache in Hm.
      destruct (Firebase.static_settings env) as [| |[s|]]; try done; destruct Hm; done.
  - intros Hc Ht. specialize (Hsb Hc (or_introl Ht)).
    destruct Hcases as [(_ & Hno & _)|[(_ & _ & Hit & He & Hq)|(Hn & _)]]; [done|done|].
    by eapply Hexcl1.
  - intros Hn Hcache.
    assert (Firebase.settings w'' = backendSettings env w) as Hs.
    { rewrite (Hsf Hn). destruct Hcache as [Hcache|[[cached Hcache] Hset]]; rewrite Hcache; [done|].
      by rewrite Hset. }
    destruct Hcases as [(Hc & _ & Hne & _)|[(Hc & Ht & _)|(_ & Hm)]].
    + by eapply Hexcl2.
    + by eapply Hexcl1.
    + destruct Hcache as [Hcache|[[cached Hcache] Hset]]; rewrite Hcache in Hm.
      * tauto.
      * rewrite Hset in Hm. tauto.
  - intros Hn Hcache Hstatic.
    assert (Firebase.settings w'' = backendSettings env w) as Hs.
    { rewrite (Hsf Hn), Hcache. by destruct Hstatic as [->| ->]. }
    destruct Hcases as [(Hc & _ & Hne & _)|[(Hc & Ht & _)|(_ & Hm)]].
    + by eapply Hexcl2.
    + by eapply Hexcl1.
    + rewrite Hcache in Hm.
      destruct Hstatic as [Hst|Hst]; rewrite Hst in Hm; destruct Hm; done.
  - intros Hdef H. unfold backendSettings.
    destruct H as [->|[->| ->]]; simpl; rewrite ?andb_false_r; simpl; try done;
      by destruct (_ && _).
Qed.

(** The sibling hook [useGitHubDB] catches the errors of its remote reads
    on the spot and goes on to the local cache. *)
Lemma GitHub_backend_error_uses_local_cache :
  let w' := final (GitHub.fetchContent github_unreachable github_cached_world) in
  GitHub.items w' = [item_a]
  ∧ GitHub.error w' = None
  ∧ GitHub.isLoading w' = false.
Proof. vm_compute. done. Qed.

(** [useGitHubDB] sorts what it loaded from the repository with the same
    step. *)
Lemma GitHub_fetchContent_sorts :
  let r := {| GitHub.settings_json := None;
              GitHub.meta_json :=
                Some {| GitHub.sha := "m"; GitHub.text := Parses {| contentOrder := ["3"; "1"] |} |};
              GitHub.content_json :=
                {[ "quote-1.json" := {| GitHub.sha := "a"; GitHub.text := Parses (mkItem "1") |};
                   "quote-2.json" := {| GitHub.sha := "b"; GitHub.text := Parses (mkItem "2") |};
                   "quote-3.json" := {| GitHub.sha := "c"; GitHub.text := Parses (mkItem "3") |} ]} |} in
  id <$> GitHub.items (final (GitHub.fetchContent github_ok (github_world [] r)))
  = ["3"; "1"; "2"].
Proof. vm_compute. reflexivity. Qed.

(** ** Deleting: the item list and the ledger *)

Lemma removeFromOrder_spec id' (l : list string) :
  (id' ∉ removeFromOrder id' l)
  ∧ (∀ j, j ∈ removeFromOrder id' l ↔ j ∈ l ∧ j ≠ id')
  ∧ removeFromOrder id' l `sublist_of` l
  ∧ (id' ∉ l → removeFromOrder id' l = l).
Proof.
  unfold removeFromOrder. split_and!.
  - rewrite list_elem_of_filter. tauto.
  - intros j. rewrite list_elem_of_filter. tauto.
  - apply sublist_filter.
  - intros Hnot. induction l as [|x l IH]; [done|].
    apply not_elem_of_cons in Hnot as [Hx Hl].
    rewrite filter_cons_True by done. by rewrite IH.
Qed.

Lemma deleteItem_update_spec id' (prev : list ContentItem) :
  Forall (λ i, id i ≠ id') (deleteItem_update id' prev)
  ∧ (∀ i, i ∈ deleteItem_update id' prev ↔ i ∈ prev ∧ id i ≠ id')
  ∧ deleteItem_update id' prev `sublist_of` prev.
Proof.
  unfold deleteItem_update. split_and!.
  - apply Forall_forall. intros i. rewrite list_elem_of_filter. tauto.
  - intros i. rewrite list_elem_of_filter. tauto.
  - apply sublist_filter.
Qed.

(** [useFirebaseDB]: when the three calls go through, the document is
    deleted and the ledger loses the id. *)
Lemma Firebase_deleteItem_ledger_updated env id' w :
  Firebase.isFirebaseConfigured env = true →
  Firebase.throws env (Firebase.DeleteDoc "content" id') = false →
  Firebase.throws env (Firebase.GetDoc "config" "meta") = false →
  Firebase.throws env (Firebase.SetDoc "config" "meta") = false →
  let r := Firebase.deleteItem env id' w in
  result r = Normal true
  ∧ Firebase.ledger (Firebase.db (final r))
    = removeFromOrder id' (Firebase.ledger (Firebase.db w))
  ∧ Firebase.content (Firebase.db (final r)) = delete id' (Firebase.content (Firebase.db w)).
Proof.
  intros Hcfg H1 H2 H3. run_firebase.
  rewrite Hcfg. simpl. rewrite H1. simpl. rewrite H2. simpl.
  destruct (Firebase.config_meta (Firebase.db w)) eqn:Em; simpl.
  - rewrite H3. simpl. done.
  - rewrite Em. done.
Qed.

(** [useFirebaseDB]: without a backend, or when a call fails, the ledger is
    left as it was. *)
Lemma Firebase_deleteItem_ledger_kept env id' w :
  Firebase.isFirebaseConfigured env = false
  ∨ Firebase.throws env (Firebase.DeleteDoc "content" id') = true
  ∨ Firebase.throws env (Firebase.GetDoc "config" "meta") = true
  ∨ Firebase.throws env (Firebase.SetDoc "config" "meta") = true →
  Firebase.config_meta (Firebase.db (final (Firebase.deleteItem env id' w)))
  = Firebase.config_meta (Firebase.db w).
Proof.
  intros H. run_firebase.
  destruct H as [H|[H|[H|H]]]; firebase_cases; done.
Qed.

(** [useGitHubDB]: the loop over the content files when no file holds the
    id: nothing is deleted and the ledger is not written. *)
Lemma GitHub_deleteFirstMatch_no_file env id' files w :
  (∀ name file item,
     GitHub.content_json (GitHub.repo w) !! name = Some file →
     GitHub.text file = Parses item → id item ≠ id') →
  result (GitHub.deleteFirstMatch env id' files w) = Normal None
  ∧ GitHub.repo (final (GitHub.deleteFirstMatch env id' files w)) = GitHub.repo w.
Proof.
  intros Hno. revert w Hno. induction files as [|name files IH]; intros w Hno; [done|].
  assert (∀ w1, GitHub.repo w1 = GitHub.repo w →
            (GitHub.deleteFirstMatch env id' files w1).1 = Normal None
            ∧ GitHub.repo (GitHub.deleteFirstMatch env id' files w1).2 = GitHub.repo w)
    as IH'.
  { intros w1 Hw1. rewrite <- Hw1. apply IH. by rewrite Hw1. }
  simpl GitHub.deleteFirstMatch. run_github.
  destruct (negb (GitHub.isGitHubConfigured env)); simpl; [by apply IH'|].
  destruct (GitHub.throws env (GitHub.Get _)); simpl; [by apply IH'|].
  destruct (GitHub.content_json (GitHub.repo w) !! name) as [[fsha [item|]]|] eqn:E;
    simpl; try (by apply IH').
  destruct (decide (id item = id')) as [Hid|Hid]; [|by apply IH'].
  destruct (Hno _ _ item E eq_refl Hid).
Qed.

(** [useGitHubDB]: the loop over the content files when every call goes
    through, the ledger without the id can be encoded and a file holds the
    id: a file holding the id is deleted and the ledger loses the id. *)
Lemma GitHub_deleteFirstMatch_found env id' files w :
  GitHub.isGitHubConfigured env = true →
  (∀ call, GitHub.throws env call = false) →
  GitHub.encodes_meta
    {| contentOrder := removeFromOrder id' (GitHub.ledger (GitHub.repo w)) |} = true →
  (∃ name file item,
     name ∈ files
     ∧ GitHub.content_json (GitHub.repo w) !! name = Some file
     ∧ GitHub.text file = Parses item ∧ id item = id') →
  let r := GitHub.deleteFirstMatch env id' files w in
  result r = Normal (Some true)
  ∧ GitHub.ledger (GitHub.repo (final r)) = removeFromOrder id' (GitHub.ledger (GitHub.repo w))
  ∧ ∃ name file item,
      GitHub.content_json (GitHub.repo w) !! name = Some file
      ∧ GitHub.text file = Parses item ∧ id item = id'
      ∧ GitHub.content_json (GitHub.repo (final r))
        = delete name (GitHub.content_json (GitHub.repo w)).
Proof.
  intros Hcfg Hth. revert w.
  induction files as [|n0 files IH];
    intros w Henc (name & file & item & Hin & Hfile & Htext & Hid).
  { by apply elem_of_nil in Hin. }
  assert (∀ w1, GitHub.repo w1 = GitHub.repo w → n0 ≠ name →
            let r := GitHub.deleteFirstMatch env id' files w1 in
            result r = Normal (Some true)
            ∧ GitHub.ledger (GitHub.repo (final r))
              = removeFromOrder id' (GitHub.ledger (GitHub.repo w))
            ∧ ∃ name file item,
                GitHub.content_json (GitHub.repo w) !! name = Some file
                ∧ GitHub.text file = Parses item ∧ id item = id'
                ∧ GitHub.content_json (GitHub.repo (final r))
                  = delete name (GitHub.content_json (GitHub.repo w))) as IH'.
  { intros w1 Hw1 Hne. rewrite <- Hw1. apply IH; [by rewrite Hw1|].
    exists name, file, item. rewrite Hw1. split_and!; try done.
    apply elem_of_cons in Hin as [->|Hin]; done. }
  simpl GitHub.deleteFirstMatch. run_github.
  rewrite Hcfg. simpl. rewrite Hth. simpl.
  destruct (GitHub.content_json (GitHub.repo w) !! n0) as [[fsha [it|]]|] eqn:E0; simpl.
  - destruct (decide (id it = id')) as [Hit|Hit].
    + rewrite ?Hcfg. simpl. rewrite ?Hth. simpl. rewrite ?Hcfg. simpl.
      destruct (GitHub.meta_json (GitHub.repo w)) as [[msha [meta|]]|] eqn:Em; simpl;
        simpl in Henc; rewrite ?Henc; simpl;
        rewrite ?Hcfg; simpl; rewrite ?Hth; simpl; rewrite ?Em;
        (split; [done|]; split; [done|];
         by exists n0, {| GitHub.sha := fsha; GitHub.text := Parses it |}, it).
    + apply IH'; [done|]. intros ->.
      rewrite Hfile in E0. injection E0 as ->. simpl in Htext. congruence.
  - apply IH'; [done|]. intros ->.
    rewrite Hfile in E0. injection E0 as ->. simpl in Htext. congruence.
  - apply IH'; [done|]. intros ->. congruence.
Qed.

Lemma GitHub_listContentFiles_ok env w :
  GitHub.isGitHubConfigured env = true →
  (∀ call, GitHub.throws env call = false) →
  ∃ w', GitHub.listContentFiles env w
        = (Normal (filter (λ name, GitHub.endsWith name ".json" = true
                                   ∧ name ≠ "settings.json" ∧ name ≠ "meta.json")
                          (GitHub.folder (GitHub.repo w))), w')
    ∧ GitHub.repo w' = GitHub.repo w.
Proof.
  intros Hcfg Hth. run_github. rewrite Hcfg. simpl. rewrite Hth. simpl. eauto.
Qed.

Lemma GitHub_deleteItem_ledger_updated env id' w :
  GitHub.isGitHubConfigured env = true →
  (∀ call, GitHub.throws env call = false) →
  GitHub.encodes_meta
    {| contentOrder := removeFromOrder id' (GitHub.ledger (GitHub.repo w)) |} = true →
  (∃ name file item,
     GitHub.content_json (GitHub.repo w) !! name = Some file
     ∧ GitHub.text file = Parses item ∧ id item = id'
     ∧ GitHub.endsWith name ".json" = true
     ∧ name ≠ "settings.json" ∧ name ≠ "meta.json") →
  let r := GitHub.deleteItem env id' w in
  result r = Normal true
  ∧ GitHub.ledger (GitHub.repo (final r)) = removeFromOrder id' (GitHub.ledger (GitHub.repo w)).
Proof.
  intros Hcfg Hth Henc (name & file & item & Hfile & Htext & Hid & Hjson & Hs & Hm).
  unfold GitHub.deleteItem, GitHub.setItems_stored. run_eff. rewrite Hcfg.
  match goal with
  | |- context [GitHub.listContentFiles env ?w0] =>
      destruct (GitHub_listContentFiles_ok env w0 Hcfg Hth) as (w1 & -> & Hw1)
  end.
  simpl in Hw1.
  destruct (GitHub_deleteFirstMatch_found env id'
              (filter (λ name, GitHub.endsWith name ".json" = true
                               ∧ name ≠ "settings.json" ∧ name ≠ "meta.json")
                      (GitHub.folder (GitHub.repo w))) w1 Hcfg Hth)
    as (Hres & Hledger & _).
  { by rewrite Hw1. }
  { exists name, file, item. rewrite Hw1. split_and!; try done.
    apply list_elem_of_filter. split; [done|].
    unfold GitHub.folder. apply elem_of_app. left.
    apply list_elem_of_fmap. exists (name, file). split; [done|].
    by apply elem_of_map_to_list. }
  unfold result, final in *. simpl.
  destruct (GitHub.deleteFirstMatch env id' _ w1) as [[[b|]|] w2];
    simpl in *; simplify_eq. by rewrite Hw1 in Hledger.
Qed.

Lemma GitHub_deleteItem_no_file env id' w :
  (∀ name file item,
     GitHub.content_json (GitHub.repo w) !! name = Some file →
     GitHub.text file = Parses item → id item ≠ id') →
  let r := GitHub.deleteItem env id' w in
  result r = Normal true ∧ GitHub.repo (final r) = GitHub.repo w.
Proof.
  intros Hno. unfold GitHub.deleteItem, GitHub.setItems_stored. run_eff.
  destruct (GitHub.isGitHubConfigured env); [|done].
  match goal with
  | |- context [GitHub.listContentFiles env ?w0] =>
      destruct (GitHub_listContentFiles_normal env w0) as (fs & w1 & -> & _ & Hw1 & _)
  end.
  simpl in Hw1.
  destruct (GitHub_deleteFirstMatch_no_file env id' fs w1) as [Hres Hrepo].
  { by rewrite Hw1. }
  unfold result, final in *. simpl.
  destruct (GitHub.deleteFirstMatch env id' fs w1) as [[[b|]|] w2];
    simpl in *; simplify_eq. by rewrite Hrepo.
Qed.

(** C3 as stated fails in [useGitHubDB] when the ledger lists an id that no
    content file holds: every call goes through, [deleteItem] returns
    [true], the item leaves the list, and the ledger still lists the id. *)
Lemma deleteItem_leaves_stale_ledger_entry :
  let w := github_world [mkItem "9"; item_a] repo_stale_ledger in
  let r := GitHub.deleteItem github_ok "9" w in
  "9" ∈ GitHub.ledger (GitHub.repo w)
  ∧ result r = Normal true
  ∧ GitHub.items (final r) = [item_a]
  ∧ GitHub.ledger (GitHub.repo (final r)) = ["9"; "1"]
  ∧ GitHub.ledger (GitHub.repo (final r)) ≠ removeFromOrder "9" (GitHub.ledger (GitHub.repo w)).
Proof.
  split_and!.
  - simpl. left.
  - vm_compute. reflexivity.
  - vm_compute. reflexivity.
  - vm_compute. reflexivity.
  - vm_compute. discriminate.
Qed.

(** In [useGitHubDB] the ledger keeps the id as well when the file is
    deleted and the write of the ledger is refused: [deleteItem] returns
    [true]. *)
Lemma deleteItem_refused_ledger_write_reports_true :
  let w := github_world [item_a] repo_stale_ledger in
  let r := GitHub.deleteItem github_meta_refused "1" w in
  result r = Normal true
  ∧ GitHub.content_json (GitHub.repo (final r)) = ∅
  ∧ GitHub.ledger (GitHub.repo (final r)) = ["9"; "1"].
Proof. vm_compute. done. Qed.

(** In [useFirebaseDB] the ledger keeps the id when the deletion of the
    document fails: [deleteItem] returns [false], the item has left the
    list all the same. *)
Lemma deleteItem_failed_delete_keeps_ledger :
  let w := firebase_world [item_a] db_one in
  let r := Firebase.deleteItem firebase_unreachable "1" w in
  result r = Normal false
  ∧ Firebase.items (final r) = []
  ∧ Firebase.ledger (Firebase.db (final r)) = ["1"].
Proof. vm_compute. done. Qed.

(** C3 (amended). After [deleteItem] the item list of either hook is the
    old list without the items of that id: no item with the id remains, the
    other items are unchanged and keep their order.  The ledger loses the id
    (its other entries unchanged, in their order) when the backend is
    configured and the remote steps go through: in [useFirebaseDB] the
    deletion of the document, the read of the ledger and its write; in
    [useGitHubDB] every call, a content file holding the id being there to
    delete and the ledger without the id being text that [btoa] encodes
    (no character above U+00FF).  In [useFirebaseDB] without a backend, or when one of these
    calls throws, the ledger is as it was; in [useGitHubDB] the repository
    is as it was when no content file holds the id. *)
Theorem deleteItem_removes_item_and_ledger_entry (id' : string) (prev : list ContentItem) :
  let next := deleteItem_update id' prev in
  (∀ env w, Firebase.items w = prev →
     Firebase.items (final (Firebase.deleteItem env id' w)) = next)
  ∧ (∀ env w, GitHub.items w = prev →
       GitHub.items (final (GitHub.deleteItem env id' w)) = next)
  ∧ Forall (λ i, id i ≠ id') next
  ∧ (∀ i, i ∈ next ↔ i ∈ prev ∧ id i ≠ id')
  ∧ next `sublist_of` prev
  ∧ (∀ env w,
       Firebase.isFirebaseConfigured env = true →
       Firebase.throws env (Firebase.DeleteDoc "content" id') = false →
       Firebase.throws env (Firebase.GetDoc "config" "meta") = false →
       Firebase.throws env (Firebase.SetDoc "config" "meta") = false →
       Firebase.ledger (Firebase.db (final (Firebase.deleteItem env id' w)))
       = removeFromOrder id' (Firebase.ledger (Firebase.db w)))
  ∧ (∀ env w,
       Firebase.isFirebaseConfigured env = false
       ∨ Firebase.throws env (Firebase.DeleteDoc "content" id') = true
       ∨ Firebase.throws env (Firebase.GetDoc "config" "meta") = true
       ∨ Firebase.throws env (Firebase.SetDoc "config" "meta") = true →
       Firebase.ledger (Firebase.db (final (Firebase.deleteItem env id' w)))
       = Firebase.ledger (Firebase.db w))
  ∧ (∀ env w,
       GitHub.isGitHubConfigured env = true →
       (∀ call, GitHub.throws env call = false) →
       GitHub.encodes_meta
         {| contentOrder := removeFromOrder id' (GitHub.ledger (GitHub.repo w)) |} = true →
       (∃ name file item,
          GitHub.content_json (GitHub.repo w) !! name = Some file
          ∧ GitHub.text file = Parses item ∧ id item = id'
          ∧ GitHub.endsWith name ".json" = true
          ∧ name ≠ "settings.json" ∧ name ≠ "meta.json") →
       GitHub.ledger (GitHub.repo (final (GitHub.deleteItem env id' w)))
       = removeFromOrder id' (GitHub.ledger (GitHub.repo w)))
  ∧ (∀ env w,
       (∀ name file item,
          GitHub.content_json (GitHub.repo w) !! name = Some file →
          GitHub.text file = Parses item → id item ≠ id') →
       GitHub.repo (final (GitHub.deleteItem env id' w)) = GitHub.repo w)
  ∧ (∀ l : list string,
       (id' ∉ removeFromOrder id' l)
       ∧ (∀ j, j ∈ removeFromOrder id' l ↔ j ∈ l ∧ j ≠ id')
       ∧ removeFromOrder id' l `sublist_of` l).
Proof.
  intros next. subst next.
  destruct (deleteItem_update_spec id' prev) as (H1 & H2 & H3).
  split_and!; try done.
  - intros env w <-. apply Firebase_deleteItem_local.
  - intros env w <-. apply GitHub_deleteItem_local.
  - intros env w Hcfg Hd Hg Hs.
    by destruct (Firebase_deleteItem_ledger_updated env id' w Hcfg Hd Hg Hs) as (_ & ? & _).
  - intros env w H. unfold Firebase.ledger.
    by rewrite (Firebase_deleteItem_ledger_kept env id' w H).
  - intros env w Hcfg Hth Henc Hfile.
    by destruct (GitHub_deleteItem_ledger_updated env id' w Hcfg Hth Henc Hfile) as [_ ?].
  - intros env w Hno.
    by destruct (GitHub_deleteItem_no_file env id' w Hno) as [_ ?].
  - intros l. destruct (removeFromOrder_spec id' l) as (? & ? & ? & _). done.
Qed.

(** * Further properties of the code *)

(** ** The ordering step, continued *)

Lemma StronglySorted_lookup_2 {A} (R : relation A) (l : list A) :
  (∀ i j x y, i < j → l !! i = Some x → l !! j = Some y → R x y) →
  StronglySorted R l.
Proof.
  induction l as [|a l IH]; intros H; constructor.
  - apply IH. intros i j x y Hij Hi Hj. apply (H (S i) (S j)); [lia|done..].
  - apply Forall_forall. intros y Hy.
    apply list_elem_of_lookup in Hy as [j Hj].
    apply (H 0 (S j)); [lia|done..].
Qed.

(** A ledger without repetition is ordered by the positions it gives. *)
Lemma ledger_sorted_by_position (contentOrder : list string) :
  NoDup contentOrder →
  StronglySorted (λ i j, position_le (orderMap contentOrder !! i) (orderMap contentOrder !! j))
    contentOrder.
Proof.
  intros Hnd. apply StronglySorted_lookup_2. intros i j x y Hij Hi Hj.
  apply (orderMap_lookup_NoDup _ _ _ Hnd) in Hi, Hj. rewrite Hi, Hj. simpl. lia.
Qed.

(** X1. Sorting is idempotent: a list that [fetchContent] has sorted by a
    ledger is left as it is when it is sorted by that ledger again (as
    when the cached copy of a sorted list is loaded and sorted); more
    generally the step changes no list that is ordered by the positions of
    the ledger. *)
Theorem sortByContentOrder_idempotent
    (contentOrder : list string) (loadedContent : list ContentItem) :
  sortByContentOrder contentOrder (sortByContentOrder contentOrder loadedContent)
  = sortByContentOrder contentOrder loadedContent
  ∧ (StronglySorted (λ a b, position_le (ledgerPosition contentOrder a)
                                        (ledgerPosition contentOrder b)) loadedContent →
     sortByContentOrder contentOrder loadedContent = loadedContent).
Proof.
  split.
  - symmetry. apply sortByContentOrder_unique; [|done].
    rewrite sortByContentOrder_Array_sort.
    apply (Array_sort_sorted _ _ (compareByOrder_key contentOrder)).
  - intros Hs. symmetry. by apply sortByContentOrder_unique.
Qed.

(** X2. When the ledger lists no id twice and lists exactly the ids of
    the loaded items, the items come out of the ordering step in the order
    of the ledger. *)
Theorem sortByContentOrder_follows_ledger
    (contentOrder : list string) (loadedContent : list ContentItem) :
  NoDup contentOrder →
  id <$> loadedContent ≡ₚ contentOrder →
  id <$> sortByContentOrder contentOrder loadedContent = contentOrder.
Proof.
  intros Hnd Hperm.
  set (R := λ i j : string,
         position_le (orderMap contentOrder !! i) (orderMap contentOrder !! j)).
  assert (id <$> sortByContentOrder contentOrder loadedContent ≡ₚ contentOrder) as Hp.
  { etrans; [|exact Hperm]. apply fmap_Permutation.
    rewrite sortByContentOrder_Array_sort. apply Array_sort_perm. }
  apply (StronglySorted_unique_strong R); [| | |done].
  - intros x1 x2 _ Hx2 H12 H21.
    pose proof (position_le_antisym _ _ H12 H21) as E.
    apply list_elem_of_lookup in Hx2 as [n Hn].
    pose proof Hn as Hn'. apply (orderMap_lookup_NoDup _ _ _ Hnd) in Hn'.
    rewrite Hn' in E. apply (orderMap_lookup_NoDup _ _ _ Hnd) in E. congruence.
  - apply (StronglySorted_fmap id
             (λ a b, position_le (ledgerPosition contentOrder a)
                                 (ledgerPosition contentOrder b))); [done|].
    rewrite sortByContentOrder_Array_sort.
    apply (Array_sort_sorted _ _ (compareByOrder_key contentOrder)).
  - by apply ledger_sorted_by_position.
Qed.

Lemma sortByContentOrder_follows_ledger_witness :
  id <$> sortByContentOrder ["3"; "1"; "2"] [mkItem "1"; mkItem "2"; mkItem "3"]
  = ["3"; "1"; "2"].
Proof.
  apply (sortByContentOrder_follows_ledger ["3"; "1"; "2"]
           [mkItem "1"; mkItem "2"; mkItem "3"]).
  - apply (bool_decide_unpack _). vm_compute. exact I.
  - apply (bool_decide_unpack _). vm_compute. exact I.
Defined.

(** ** [useFirebaseDB]: saving twice, saving and deleting, saving and loading *)

Lemma saveItem_update_idempotent item (prev : list ContentItem) :
  saveItem_update item (saveItem_update item prev) = saveItem_update item prev.
Proof.
  destruct (saveItem_update_cases item prev) as [Hex|Hnew].
  - rewrite (saveItem_update_existing item prev) by done.
    rewrite saveItem_update_existing.
    + rewrite <- list_fmap_compose. apply list_fmap_ext. intros k i Hk. simpl.
      destruct (decide (id i = id item)) as [E|E];
        [by rewrite decide_True|by rewrite decide_False].
    + destruct Hex as (old & Hin & Hid). exists item. split; [|done].
      apply list_elem_of_fmap. exists old. by rewrite decide_True.
  - rewrite (saveItem_update_new item prev) by done.
    rewrite saveItem_update_existing by (exists item; split; [left|done]).
    rewrite fmap_cons, decide_True by done. f_equal.
    apply list_eq. intros k. rewrite list_lookup_fmap.
    destruct (prev !! k) as [i|] eqn:Ek; [|done]. simpl.
    rewrite decide_False; [done|]. apply Hnew. by eapply list_elem_of_lookup_2.
Qed.

Lemma deleteItem_update_new item (prev : list ContentItem) :
  (∀ old, old ∈ prev → id old ≠ id item) →
  deleteItem_update (id item) (saveItem_update item prev) = prev.
Proof.
  intros Hnew. rewrite saveItem_update_new by done. unfold deleteItem_update.
  rewrite filter_cons_False by (intros H; by apply H).
  induction prev as [|x prev IH]; [done|].
  rewrite filter_cons_True by (apply Hnew; left).
  f_equal. apply IH. intros old Hold. apply Hnew. by right.
Qed.

(** What [saveItem] and [deleteItem] leave alone, whatever the backend
    does. *)
Lemma Firebase_saveItem_frame env item w :
  let w' := final (Firebase.saveItem env item w) in
  Firebase.config_settings (Firebase.db w') = Firebase.config_settings (Firebase.db w)
  ∧ Firebase.localStorage w' = Firebase.localStorage w
  ∧ Firebase.settings w' = Firebase.settings w
  ∧ ∀ k, k ≠ id item →
      Firebase.content (Firebase.db w') !! k = Firebase.content (Firebase.db w) !! k.
Proof.
  run_firebase.
  firebase_cases; split_and!; try done; intros k Hk; by rewrite lookup_insert_ne.
Qed.

Lemma Firebase_deleteItem_frame env id' w :
  let w' := final (Firebase.deleteItem env id' w) in
  Firebase.config_settings (Firebase.db w') = Firebase.config_settings (Firebase.db w)
  ∧ Firebase.localStorage w' = Firebase.localStorage w
  ∧ Firebase.settings w' = Firebase.settings w
  ∧ ∀ k, k ≠ id' →
      Firebase.content (Firebase.db w') !! k = Firebase.content (Firebase.db w) !! k.
Proof.
  run_firebase.
  firebase_cases; split_and!; try done; intros k Hk; by rewrite lookup_delete_ne.
Qed.

(** Closes a case in which two decisions taken by the code contradict
    each other. *)
Ltac decided_contra :=
  exfalso; simpl in *;
  repeat match goal with
         | Hm : Firebase.config_meta _ = _, H : bool_decide _ = _ |- _ =>
             rewrite Hm in H; simpl in H
         end;
  repeat match goal with
         | H : bool_decide _ = true |- _ => apply bool_decide_eq_true_1 in H
         | H : bool_decide _ = false |- _ => apply bool_decide_eq_false_1 in H
         end;
  set_solver.

(** X3. Saving the same item twice is the same as saving it once: the
    second [saveItem] leaves the item list and the database as the first
    left them and reports the same, for every backend that treats the calls
    of the second save as it treated those of the first (so a second click
    on the save button puts no second copy in the list, in the collection
    or in the ledger). *)
Theorem Firebase_saveItem_idempotent
    (env : Firebase.Env) (item : ContentItem) (w : Firebase.World) :
  let once := Firebase.saveItem env item w in
  let twice := Firebase.saveItem env item (final once) in
  Firebase.items (final twice) = Firebase.items (final once)
  ∧ Firebase.db (final twice) = Firebase.db (final once)
  ∧ result twice = result once.
Proof.
  intros once twice. subst once twice. split_and!.
  - rewrite !Firebase_saveItem_local. apply saveItem_update_idempotent.
  - run_firebase. firebase_cases; rewrite ?insert_insert_eq; try done; decided_contra.
  - run_firebase. firebase_cases; try done; decided_contra.
Qed.

(** What a [saveItem] whose three calls go through leaves in the
    database. *)
Lemma Firebase_saveItem_run env item w :
  Firebase.isFirebaseConfigured env = true →
  Firebase.throws env (Firebase.SetDoc "content" (id item)) = false →
  Firebase.throws env (Firebase.GetDoc "config" "meta") = false →
  Firebase.throws env (Firebase.SetDoc "config" "meta") = false →
  let r := Firebase.saveItem env item w in
  let order := Firebase.ledger (Firebase.db w) in
  result r = Normal true
  ∧ Firebase.content (Firebase.db (final r))
    = <[id item := item]> (Firebase.content (Firebase.db w))
  ∧ Firebase.config_settings (Firebase.db (final r))
    = Firebase.config_settings (Firebase.db w)
  ∧ Firebase.ledger (Firebase.db (final r))
    = (if decide (id item ∈ order) then order else id item :: order)
  ∧ Firebase.localStorage (final r) = Firebase.localStorage w.
Proof.
  intros Hcfg H1 H2 H3. run_firebase.
  rewrite Hcfg. simpl. rewrite H1. simpl. rewrite H2. simpl.
  destruct (Firebase.config_meta (Firebase.db w)) as [meta|] eqn:Em; simpl.
  - destruct (decide (id item ∈ contentOrder meta)) as [Hin|Hin];
      rewrite ?(bool_decide_eq_true_2 _ Hin), ?(bool_decide_eq_false_2 _ Hin);
      simpl; rewrite ?H3; simpl; rewrite ?Em; done.
  - rewrite H3. simpl. done.
Qed.

(** X4. A [saveItem] whose calls to the backend go through returns
    [true], stores the item under its id and leaves the other documents and
    the settings alone; an id the ledger does not list is put in front of
    the ledger, an id it lists leaves the ledger as it is; so a ledger that
    lists no id twice stays so. *)
Theorem Firebase_saveItem_stores_item_and_ledger
    (env : Firebase.Env) (item : ContentItem) (w : Firebase.World) :
  Firebase.isFirebaseConfigured env = true →
  Firebase.throws env (Firebase.SetDoc "content" (id item)) = false →
  Firebase.throws env (Firebase.GetDoc "config" "meta") = false →
  Firebase.throws env (Firebase.SetDoc "config" "meta") = false →
  let r := Firebase.saveItem env item w in
  let order := Firebase.ledger (Firebase.db w) in
  result r = Normal true
  ∧ Firebase.content (Firebase.db (final r)) !! id item = Some item
  ∧ (∀ k, k ≠ id item →
       Firebase.content (Firebase.db (final r)) !! k = Firebase.content (Firebase.db w) !! k)
  ∧ Firebase.config_settings (Firebase.db (final r))
    = Firebase.config_settings (Firebase.db w)
  ∧ (id item ∉ order → Firebase.ledger (Firebase.db (final r)) = id item :: order)
  ∧ (id item ∈ order → Firebase.ledger (Firebase.db (final r)) = order)
  ∧ (NoDup order → NoDup (Firebase.ledger (Firebase.db (final r)))).
Proof.
  intros Hcfg H1 H2 H3 r order.
  destruct (Firebase_saveItem_run env item w Hcfg H1 H2 H3) as (Hr & Hc & Hs & Hl & _).
  fold r in Hr, Hc, Hs, Hl. fold order in Hl.
  split_and!; try done.
  - rewrite Hc. apply lookup_insert_eq.
  - intros k Hk. rewrite Hc. by apply lookup_insert_ne.
  - intros Hnot. by rewrite Hl, decide_False.
  - intros Hin. by rewrite Hl, decide_True.
  - intros Hnd. rewrite Hl. case_decide; [done|]. by apply NoDup_cons.
Qed.

Lemma Firebase_saveItem_stores_item_and_ledger_witness :
  result (Firebase.saveItem
            {| Firebase.isFirebaseConfigured := true; Firebase.throws := λ _, false;
               Firebase.static_settings := NotOk; Firebase.static_content := λ _, NotOk |}
            item_c (firebase_world [] empty_db))
  = Normal true.
Proof.
  refine (proj1 (Firebase_saveItem_stores_item_and_ledger _ item_c
                   (firebase_world [] empty_db) _ _ _ _)); reflexivity.
Defined.

(** X5. Saving a new item and deleting it again, all calls to the backend
    going through, restores the item list, the collection and the ledger
    as [fetchContent] reads it: for an item whose id is neither in the
    list, nor in the collection, nor in the ledger. *)
Theorem Firebase_saveItem_deleteItem_round_trip
    (env : Firebase.Env) (item : ContentItem) (w : Firebase.World) :
  Firebase.isFirebaseConfigured env = true →
  (∀ call, Firebase.throws env call = false) →
  (id item ∉ id <$> Firebase.items w) →
  Firebase.content (Firebase.db w) !! id item = None →
  (id item ∉ Firebase.ledger (Firebase.db w)) →
  let saved := Firebase.saveItem env item w in
  let deleted := Firebase.deleteItem env (id item) (final saved) in
  result saved = Normal true
  ∧ result deleted = Normal true
  ∧ Firebase.items (final deleted) = Firebase.items w
  ∧ Firebase.content (Firebase.db (final deleted)) = Firebase.content (Firebase.db w)
  ∧ Firebase.ledger (Firebase.db (final deleted)) = Firebase.ledger (Firebase.db w)
  ∧ Firebase.config_settings (Firebase.db (final deleted))
    = Firebase.config_settings (Firebase.db w).
Proof.
  intros Hcfg Hok Hitems Hcontent Hledger saved deleted.
  destruct (Firebase_saveItem_run env item w Hcfg (Hok _) (Hok _) (Hok _))
    as (Hr & Hc & Hs & Hl & _).
  fold saved in Hr, Hc, Hs, Hl. rewrite decide_False in Hl by done.
  destruct (Firebase_deleteItem_ledger_updated env (id item) (final saved)
              Hcfg (Hok _) (Hok _) (Hok _)) as (Hr' & Hl' & Hc').
  fold deleted in Hr', Hl', Hc'.
  split_and!; try done.
  - subst deleted saved. rewrite Firebase_deleteItem_local, Firebase_saveItem_local.
    apply deleteItem_update_new. intros old Hold Hid. apply Hitems.
    rewrite <- Hid. by apply list_elem_of_fmap_2.
  - rewrite Hc', Hc. by apply delete_insert_id.
  - rewrite Hl', Hl. unfold removeFromOrder.
    rewrite filter_cons_False by (intros H; by apply H).
    by apply removeFromOrder_spec.
  - subst deleted. by rewrite (proj1 (Firebase_deleteItem_frame env (id item) (final saved))).
Qed.

Lemma Firebase_saveItem_deleteItem_round_trip_witness :
  let env := {| Firebase.isFirebaseConfigured := true; Firebase.throws := λ _, false;
                Firebase.static_settings := NotOk; Firebase.static_content := λ _, NotOk |} in
  Firebase.items
    (final (Firebase.deleteItem env "2"
              (final (Firebase.saveItem env (mkItem "2") (firebase_world [item_a] db_one)))))
  = [item_a].
Proof.
  intros env.
  refine (proj1 (proj2 (proj2
            (Firebase_saveItem_deleteItem_round_trip env (mkItem "2")
               (firebase_world [item_a] db_one) _ _ _ _ _)))).
  - reflexivity.
  - intros call. reflexivity.
  - apply (bool_decide_unpack _). vm_compute. exact I.
  - vm_compute. reflexivity.
  - apply (bool_decide_unpack _). vm_compute. exact I.
Defined.

(** ** Loading again *)

(** X6. [fetchContent] of [useFirebaseDB] always completes, without an
    exception, with the loading flag off (so the loading view of the
    application goes away whatever the backend, the cache and the static
    files do), and it writes neither to the database nor to the local
    storage. *)
Theorem Firebase_fetchContent_settles (env : Firebase.Env) (w : Firebase.World) :
  result (Firebase.fetchContent env w) = Normal tt
  ∧ Firebase.isLoading (final (Firebase.fetchContent env w)) = false
  ∧ Firebase.db (final (Firebase.fetchContent env w)) = Firebase.db w
  ∧ Firebase.localStorage (final (Firebase.fetchContent env w)) = Firebase.localStorage w.
Proof.
  unfold Firebase.fetchFailed. run_fetch. fetch_cases; done.
Qed.

Lemma loadedDocs_elem_of d (x : ContentItem) :
  x ∈ loadedDocs d ↔
  ∃ v, Firebase.content d !! id x = Some v
       ∧ x = {| id := id x; type := type v; title := title v; body := body v;
                excerpt := excerpt v; date := date v |}.
Proof.
  unfold loadedDocs. rewrite list_elem_of_fmap. split.
  - intros ([k v] & -> & Hin%elem_of_map_to_list). simpl. eauto.
  - intros (v & Hv & Hx). exists (id x, v). split; [done|].
    by apply elem_of_map_to_list.
Qed.

(** What [fetchContent] shows when the backend is read without error and
    holds a document. *)
Lemma Firebase_fetchContent_backend env w :
  Firebase.isFirebaseConfigured env = true →
  (∀ call, Firebase.throws env call = false) →
  Firebase.content (Firebase.db w) ≠ ∅ →
  Firebase.items (final (Firebase.fetchContent env w))
  = sortByContentOrder (Firebase.ledger (Firebase.db w)) (loadedDocs (Firebase.db w)).
Proof.
  intros Hcfg Hok Hne.
  destruct (fetchContent_run env w) as (w' & evs & Hrun & _ & _ & Hcases).
  rewrite Hrun. unfold final. simpl.
  destruct Hcases as [(_ & _ & _ & Hitems & _)|[(_ & Hthrows & _)|(Hnothing & _)]].
  - done.
  - destruct Hthrows as [H|[H|H]]; rewrite Hok in H; done.
  - destruct Hnothing as [H|(_ & _ & _ & H)]; [congruence|done].
Qed.

(** X7. A saved item is there when the content is loaded again: after a
    [saveItem] whose calls go through, [fetchContent] (run in the same
    session or in a new one) shows the item; when the ledger did not list
    its id, the item is shown first. *)
Theorem Firebase_saved_item_is_loaded_first
    (env : Firebase.Env) (item : ContentItem) (w w2 : Firebase.World) :
  Firebase.isFirebaseConfigured env = true →
  (∀ call, Firebase.throws env call = false) →
  Firebase.db w2 = Firebase.db (final (Firebase.saveItem env item w)) →
  let loaded := Firebase.items (final (Firebase.fetchContent env w2)) in
  item ∈ loaded
  ∧ ((id item ∉ Firebase.ledger (Firebase.db w)) → head loaded = Some item).
Proof.
  intros Hcfg Hok Hdb loaded.
  destruct (Firebase_saveItem_run env item w Hcfg (Hok _) (Hok _) (Hok _))
    as (_ & Hc & _ & Hl & _).
  rewrite <- Hdb in Hc, Hl.
  assert (item ∈ loadedDocs (Firebase.db w2)) as Hitem.
  { apply loadedDocs_elem_of. exists item. rewrite Hc, lookup_insert_eq.
    split; [done|]. by destruct item. }
  assert (loaded = sortByContentOrder (Firebase.ledger (Firebase.db w2))
                     (loadedDocs (Firebase.db w2))) as Hloaded.
  { apply Firebase_fetchContent_backend; [done..|].
    rewrite Hc. apply insert_non_empty. }
  clearbody loaded. subst loaded.
  rewrite sortByContentOrder_Array_sort.
  set (order := Firebase.ledger (Firebase.db w2)) in *.
  pose proof (Array_sort_perm (compareByOrder order) (loadedDocs (Firebase.db w2))) as Hp.
  pose proof (Array_sort_sorted _ _ (compareByOrder_key order) (loadedDocs (Firebase.db w2)))
    as Hs.
  assert (item ∈ JS.Array_sort (compareByOrder order) (loadedDocs (Firebase.db w2))) as Hin
    by (by rewrite Hp).
  split; [done|].
  intros Hnew. rewrite decide_False in Hl by done.
  assert (ledgerPosition order item = Some 0) as Hpos.
  { apply orderMap_lookup_Some. rewrite Hl. split; [done|].
    intros [|m] Hm; [lia|]. simpl. intros Hlook. apply Hnew.
    by eapply list_elem_of_lookup_2. }
  destruct (JS.Array_sort (compareByOrder order) (loadedDocs (Firebase.db w2)))
    as [|x rest] eqn:Esorted.
  { by apply elem_of_nil in Hin. }
  simpl. f_equal.
  apply elem_of_cons in Hin as [->|Hrest]; [done|].
  apply StronglySorted_cons in Hs as [Hx _].
  rewrite Forall_forall in Hx. specialize (Hx item Hrest). simpl in Hx.
  rewrite Hpos in Hx.
  destruct (ledgerPosition order x) as [n|] eqn:Ex; [|done].
  simpl in Hx. assert (n = 0) as -> by lia.
  apply orderMap_lookup_Some in Ex as [Ex _]. rewrite Hl in Ex. simpl in Ex.
  injection Ex as Eid.
  assert (x ∈ loadedDocs (Firebase.db w2)) as Hxin.
  { rewrite <- Hp. left. }
  apply loadedDocs_elem_of in Hxin as (v & Hv & Hxv).
  rewrite Hc, <- Eid, lookup_insert_eq in Hv. injection Hv as <-.
  rewrite Hxv, <- Eid. by destruct item.
Qed.

Lemma Firebase_saved_item_is_loaded_first_witness :
  head (Firebase.items
          (final (Firebase.fetchContent firebase_ok
                    (final (Firebase.saveItem firebase_ok (mkItem "2")
                              (firebase_world [item_a] db_one))))))
  = Some (mkItem "2").
Proof.
  refine (proj2 (Firebase_saved_item_is_loaded_first firebase_ok (mkItem "2")
                   (firebase_world [item_a] db_one) _ _ _ _) _).
  - reflexivity.
  - intros call. reflexivity.
  - reflexivity.
  - apply (bool_decide_unpack _). vm_compute. exact I.
Defined.

(** X8. Without a configured backend nothing of a change survives the
    session: [useFirebaseDB] writes neither to a database nor to the local
    storage, so the hook of a new session mounts over the same database and
    the same local storage as if [saveItem], [deleteItem] or [saveSettings]
    had not been called, and loads the same content. *)
Theorem Firebase_local_only_changes_are_lost_on_reload
    (env : Firebase.Env) (w : Firebase.World)
    (item : ContentItem) (id' : string) (newSettings : SiteSettings) :
  Firebase.isFirebaseConfigured env = false →
  Firebase_reload env (final (Firebase.saveItem env item w)) = Firebase_reload env w
  ∧ Firebase_reload env (final (Firebase.deleteItem env id' w)) = Firebase_reload env w
  ∧ Firebase_reload env (final (Firebase.saveSettings env newSettings w))
    = Firebase_reload env w.
Proof.
  intros Hcfg. unfold Firebase_reload.
  split_and!; f_equal; f_equal; run_firebase; by rewrite Hcfg.
Qed.

Lemma Firebase_local_only_changes_are_lost_on_reload_witness :
  Firebase_reload firebase_local_only
    (final (Firebase.saveItem firebase_local_only item_c (firebase_world [item_a] empty_db)))
  = Firebase_reload firebase_local_only (firebase_world [item_a] empty_db).
Proof.
  refine (proj1 (Firebase_local_only_changes_are_lost_on_reload firebase_local_only
                   (firebase_world [item_a] empty_db) item_c "1" DEFAULT_SETTINGS _)).
  reflexivity.
Defined.

Ltac run_github_fetch :=
  unfold GitHub_reload, GitHub.fetchContent, GitHub.fetchFromCache,
    GitHub.getItem_content, GitHub.getItem_settings, JSON_parse in *;
  run_github.

(** X9. [useGitHubDB] without a configured repository keeps the changes
    in the local storage: a new session shows the item list as [saveItem]
    or [deleteItem] left it (unless the stored settings cannot be parsed,
    in which case the cached list is given up for the static files). *)
Theorem GitHub_local_only_changes_survive_reload
    (env : GitHub.Env) (w : GitHub.World) (item : ContentItem) (id' : string) :
  GitHub.isGitHubConfigured env = false →
  cms_settings (GitHub.localStorage w) ≠ Some Malformed →
  GitHub.items (GitHub_reload env (final (GitHub.saveItem env item w)))
  = saveItem_update item (GitHub.items w)
  ∧ GitHub.items (GitHub_reload env (final (GitHub.deleteItem env id' w)))
    = deleteItem_update id' (GitHub.items w)
  ∧ GitHub.isLoading (GitHub_reload env (final (GitHub.saveItem env item w))) = false
  ∧ GitHub.error (GitHub_reload env (final (GitHub.saveItem env item w))) = None.
Proof.
  intros Hcfg Hset. run_github_fetch. rewrite Hcfg. simpl.
  destruct (cms_settings (GitHub.localStorage w)) as [[s|]|]; simpl; done.
Qed.

Lemma GitHub_local_only_changes_survive_reload_witness :
  GitHub.items
    (GitHub_reload github_local_only
       (final (GitHub.saveItem github_local_only (mkItem "2") (github_world [item_a] empty_repo))))
  = saveItem_update (mkItem "2") [item_a].
Proof.
  refine (proj1 (GitHub_local_only_changes_survive_reload github_local_only
                   (github_world [item_a] empty_repo) (mkItem "2") "1" _ _)).
  - reflexivity.
  - simpl. discriminate.
Defined.

(** ** The access gate, continued *)

Section LoginInvariant.
Context {Parent : Type} (onLogin : string → Parent → Login.Returned * Parent).

Lemma Login_step_consistent ev st parent :
  Login_consistent st → Login_consistent (Login.step onLogin ev st parent).1.
Proof.
  unfold Login_consistent, Login.LOCKOUT_DURATION, Login.MAX_ATTEMPTS.
  destruct st as [p e a l t]. simpl. intros Hst.
  destruct ev; simpl; try done.
  - unfold Login.handleSubmit. simpl. destruct l.
    + simpl. unfold Login.effect. simpl.
      destruct (Z.ltb_spec 0 t); simpl; [done|lia].
    + destruct (onLogin p parent) as [success parent'].
      destruct (Login.ToBoolean success); simpl.
      * unfold Login.effect. simpl. rewrite andb_false_r. done.
      * unfold Login.effect, Login.MAX_ATTEMPTS, Login.LOCKOUT_DURATION. simpl.
        case_bool_decide; simpl; [lia|].
        rewrite andb_false_r. simpl. lia.
  - unfold Login.tick, Login.interval_active, Login.effect. simpl.
    destruct l; simpl.
    + destruct (Z.ltb_spec 0 t); simpl; [|lia].
      destruct (Z.ltb_spec 0 (t - 1)); simpl; [lia|].
      destruct (Z.eqb_spec (t - 1) 0); simpl; lia.
    + rewrite andb_false_r. simpl. done.
Qed.

Lemma Login_run_consistent evs st parent :
  Login_consistent st → Login_consistent (Login.run onLogin evs st parent).1.
Proof.
  revert st parent. induction evs as [|ev evs IH]; intros st parent Hst; [done|].
  simpl. pose proof (Login_step_consistent ev st parent Hst) as Hstep.
  destruct (Login.step onLogin ev st parent) as [st' parent']. by apply IH.
Qed.

(** The state after an event is the render of the event followed, for a
    submission and for a tick, by the effect. *)
Lemma Login_step_rendered ev st parent :
  (Login.step onLogin ev st parent).1
  = match ev with
    | Login.Submit | Login.Tick => Login.effect (Login_rendered onLogin ev st parent)
    | _ => Login_rendered onLogin ev st parent
    end.
Proof.
  destruct ev; simpl; try done.
  by destruct (Login.handleSubmit onLogin st parent).
Qed.

Lemma Login_rendered_bounds ev st parent :
  Login_consistent st →
  let shown := Login_rendered onLogin ev st parent in
  (Login.isLocked shown = true →
     (0 ≤ Login.lockoutTimer shown ≤ 30)%Z ∧ Login.attempts shown = 3)
  ∧ (Login.isLocked shown = false →
       Login.lockoutTimer shown = 0%Z ∧ Login.attempts shown ≤ 2)
  ∧ (Login.isLocked shown = true → Login.lockoutTimer shown = 0%Z →
       ev = Login.Tick ∧ Login.lockoutTimer st = 1%Z)
  ∧ (ev = Login.Tick → Login.isLocked st = true → Login.lockoutTimer st = 1%Z →
       Login.isLocked shown = true ∧ Login.lockoutTimer shown = 0%Z).
Proof.
  unfold Login_consistent, Login.LOCKOUT_DURATION, Login.MAX_ATTEMPTS.
  destruct st as [p e a l t]. simpl. intros Hst.
  destruct ev; simpl.
  - destruct l; split_and!; intros; repeat split; try done; try lia.
  - unfold Login.handleSubmit. simpl. destruct l; simpl.
    + split_and!; intros; repeat split; try done; try lia.
    + destruct (onLogin p parent) as [success parent'].
      destruct (Login.ToBoolean success); simpl.
      * split_and!; intros; repeat split; try done; try lia.
      * unfold Login.MAX_ATTEMPTS, Login.LOCKOUT_DURATION.
        case_bool_decide; simpl; split_and!; intros; repeat split; try done; try lia.
  - unfold Login.tick, Login.interval_active. simpl.
    destruct l; simpl.
    + destruct (Z.ltb_spec 0 t); simpl; split_and!; intros; repeat split; try done; try lia.
    + split_and!; intros; repeat split; try done; try lia.
  - destruct l; split_and!; intros; repeat split; try done; try lia.
Qed.

(** X10. Whatever check the [Login] form is given and whatever is typed,
    submitted and waited, the lock and the countdown of the form agree in
    every settled state, that is once the effect of the render has run: a
    locked form has counted exactly three failures and has between 1 and 30
    seconds left, a form that is not locked has its timer at zero and has
    counted at most two failures.  The render of an event, before its
    effect runs, can be locked with 0 seconds left (never a negative
    number, never more than 30): this is the render of the tick that takes
    the countdown from 1 to 0, the page then reads [Retry in 0s], and the
    effect of that render releases the lock and resets the count. *)
Theorem Login_lock_and_countdown_agree
    (evs : list Login.Event) (ev : Login.Event) (parent : Parent) :
  let settled := Login.run onLogin evs Login.initial parent in
  let st := settled.1 in
  let shown := Login_rendered onLogin ev st settled.2 in
  ((Login.isLocked st = true →
      (1 ≤ Login.lockoutTimer st ≤ 30)%Z ∧ Login.attempts st = 3)
   ∧ (Login.isLocked st = false →
        Login.lockoutTimer st = 0%Z ∧ Login.attempts st ≤ 2))
  ∧ ((Login.isLocked shown = true →
        (0 ≤ Login.lockoutTimer shown ≤ 30)%Z ∧ Login.attempts shown = 3)
     ∧ (Login.isLocked shown = false →
          Login.lockoutTimer shown = 0%Z ∧ Login.attempts shown ≤ 2))
  ∧ (Login.isLocked shown = true → Login.lockoutTimer shown = 0%Z →
       ev = Login.Tick ∧ Login.lockoutTimer st = 1%Z
       ∧ Login.isLocked (Login.effect shown) = false
       ∧ Login.attempts (Login.effect shown) = 0
       ∧ (Login.step onLogin ev st settled.2).1 = Login.effect shown)
  ∧ (ev = Login.Tick → Login.isLocked st = true → Login.lockoutTimer st = 1%Z →
       Login.isLocked shown = true ∧ Login.lockoutTimer shown = 0%Z).
Proof.
  intros settled st shown.
  assert (Login_consistent st) as H.
  { apply Login_run_consistent. unfold Login_consistent. simpl.
    unfold Login.MAX_ATTEMPTS. split; [done|lia]. }
  destruct (Login_rendered_bounds ev st settled.2 H) as (Hl & Hu & Hz & Hr).
  fold shown in Hl, Hu, Hz, Hr.
  unfold Login_consistent, Login.LOCKOUT_DURATION, Login.MAX_ATTEMPTS in H.
  split_and!; try done.
  - intros El. by rewrite El in H.
  - intros El. rewrite El in H. split; [tauto|lia].
  - intros El Et. destruct (Hz El Et) as [-> Ht].
    split_and!; try done; try (by rewrite Login_step_rendered);
      unfold Login.effect; by rewrite El, Et.
Qed.

(** The render with 0 seconds is reached: after three refused passwords
    and twenty-nine seconds, the thirtieth tick renders the form locked
    with 0 seconds left. *)
Lemma Login_renders_zero_seconds :
  let refuse := λ (_ : string) (p : unit), (Login.Boolean false, p) in
  let evs := [Login.Submit; Login.Submit; Login.Submit] ++ replicate 29 Login.Tick in
  let st := (Login.run refuse evs Login.initial tt).1 in
  let shown := Login_rendered refuse Login.Tick st tt in
  Login.isLocked st = true ∧ Login.lockoutTimer st = 1%Z
  ∧ Login.isLocked shown = true ∧ Login.lockoutTimer shown = 0%Z.
Proof. vm_compute. done. Qed.

(** X11. While the form is locked and the countdown has not moved, no
    submission reaches the check: whatever is typed and submitted, the
    parent is as it was, and the form is still locked with the same time
    left and the same count. *)
Theorem Login_locked_form_checks_nothing
    (evs : list Login.Event) (st : Login.State) (parent : Parent) :
  Login.isLocked st = true →
  (0 < Login.lockoutTimer st)%Z →
  Forall (λ ev, ev ≠ Login.Tick) evs →
  let r := Login.run onLogin evs st parent in
  r.2 = parent
  ∧ Login.isLocked r.1 = true
  ∧ Login.lockoutTimer r.1 = Login.lockoutTimer st
  ∧ Login.attempts r.1 = Login.attempts st.
Proof.
  revert st. induction evs as [|ev evs IH]; intros st Hl Ht Hevs; [done|].
  apply Forall_cons in Hevs as [Hev Hevs].
  simpl. destruct ev; try done; simpl.
  - apply (IH {| Login.password := value; Login.error := Login.error st;
                 Login.attempts := Login.attempts st;
                 Login.isLocked := Login.isLocked st;
                 Login.lockoutTimer := Login.lockoutTimer st |}); done.
  - rewrite (Login_locked_submit_rejected onLogin st parent Hl).
    assert (Login.effect st = st) as ->.
    { unfold Login.effect. rewrite Hl.
      by replace (0 <? Login.lockoutTimer st)%Z with true
        by (symmetry; by apply Z.ltb_lt). }
    by apply IH.
  - apply (IH {| Login.password := Login.password st; Login.error := false;
                 Login.attempts := Login.attempts st;
                 Login.isLocked := Login.isLocked st;
                 Login.lockoutTimer := Login.lockoutTimer st |}); done.
Qed.
End LoginInvariant.

Lemma Login_locked_form_checks_nothing_witness :
  (Login.run (Login.checks "jacopo") [Login.Change "jacopo"; Login.Submit]
     {| Login.password := EmptyString; Login.error := true; Login.attempts := 3;
        Login.isLocked := true; Login.lockoutTimer := 30 |} ()).2 = ().
Proof.
  refine (proj1 (Login_locked_form_checks_nothing (Login.checks "jacopo")
                   [Login.Change "jacopo"; Login.Submit]
                   {| Login.password := EmptyString; Login.error := true;
                      Login.attempts := 3; Login.isLocked := true;
                      Login.lockoutTimer := 30 |} () _ _ _)).
  - reflexivity.
  - reflexivity.
  - repeat constructor; discriminate.
Defined.

Lemma Login_locks_on_third_failure_witness :
  Login.isLocked
    (Login.run (Login.checks "jacopo") [Login.Change "c"; Login.Submit]
       (Login.run (Login.checks "jacopo")
          [Login.Change "a"; Login.Submit; Login.Change "b"; Login.Submit]
          Login.initial ()).1 ()).1
  = true.
Proof.
  refine (proj1 (proj2 (Login_locks_on_third_failure "jacopo" "a" "b" "c" _ _ _)));
    discriminate.
Defined.

Lemma Login_countdown_witness :
  let st := {| Login.password := EmptyString; Login.error := true; Login.attempts := 3;
               Login.isLocked := true; Login.lockoutTimer := 30 |} in
  Login.isLocked (ticks 29 st) = true
  ∧ Login.isLocked (ticks 30 st) = false
  ∧ Login.attempts (ticks 30 st) = 0.
Proof.
  intros st.
  destruct (Login_countdown 29 st) as (Hk & Hrel & Hatt).
  - reflexivity.
  - reflexivity.
  - split; [|split; [exact Hrel|exact Hatt]].
    refine (proj1 (Hk 29 _)). lia.
Defined.

(** *** The gate of the application *)

Lemma ADMIN_PASSWORD_not_empty env : useAuth.ADMIN_PASSWORD env ≠ EmptyString.
Proof. unfold useAuth.ADMIN_PASSWORD. by destruct env as [[|c s]|]. Qed.

Lemma App_render_locked_out secret g form :
  secret ≠ EmptyString →
  useAuth.isAuthenticated (App.auth g) = false →
  App.currentView g ≠ App.CMS →
  (∀ f, form = Some f → Login.password f ≠ secret) →
  App_locked_out secret (App.render g form).
Proof.
  intros Hsecret Hauth Hview Hform. split_and!; [done..|].
  intros f. unfold App.render. simpl.
  destruct (App.currentView g); try done.
  intros [= <-]. destruct form as [f|]; simpl; [by apply Hform|].
  intros E. by apply Hsecret.
Qed.

Lemma App_step_locked_out env ev s :
  (∀ value, ev = App.Form (Login.Change value) → value ≠ useAuth.ADMIN_PASSWORD env) →
  App_locked_out (useAuth.ADMIN_PASSWORD env) s →
  App_locked_out (useAuth.ADMIN_PASSWORD env) (App.step env ev s).
Proof.
  intros Hev Hs. pose proof Hs as (Hauth & Hview & Hform).
  pose proof (ADMIN_PASSWORD_not_empty env) as Hsecret.
  destruct ev as [view|ev|]; simpl.
  - apply App_render_locked_out; simpl; try done.
    destruct view; try done. by rewrite Hauth.
  - destruct (App.loginForm s) as [form|] eqn:Ef; [|exact Hs].
    specialize (Hform form eq_refl).
    destruct (Login.step _ ev form (App.gate s)) as [form' g'] eqn:Estep.
    destruct ev; simpl in Estep.
    + injection Estep as <- <-. apply App_render_locked_out; try done.
      intros f [= <-]. simpl. by apply Hev.
    + unfold Login.handleSubmit in Estep.
      destruct (Login.isLocked form) eqn:El.
      * injection Estep as <- <-. apply App_render_locked_out; try done.
        intros f [= <-]. unfold Login.effect. by repeat case_match.
      * unfold App.handleLoginSubmit, useAuth.login in Estep.
        rewrite decide_False in Estep by done. simpl in Estep.
        injection Estep as <- <-. apply App_render_locked_out; try done.
        intros f [= <-]. unfold Login.effect. by repeat case_match.
    + injection Estep as <- <-. apply App_render_locked_out; try done.
      intros f [= <-]. unfold Login.effect, Login.tick. by repeat case_match.
    + injection Estep as <- <-. apply App_render_locked_out; try done.
      intros f [= <-]. done.
  - destruct (App.currentView (App.gate s)); try exact Hs. done.
Qed.

Lemma act_locked_out env a s :
  (∀ value, a = Form (Login.Change value) → value ≠ useAuth.ADMIN_PASSWORD env) →
  App_locked_out (useAuth.ADMIN_PASSWORD env) (app s) →
  Forall (λ p, wasAuthenticated p = false) (timeouts s) →
  App_locked_out (useAuth.ADMIN_PASSWORD env) (app (act env a s))
  ∧ Forall (λ p, wasAuthenticated p = false) (timeouts (act env a s)).
Proof.
  intros Ha Hs Hpending. pose proof Hs as (Hauth & Hview & Hform).
  destruct a as [view|k| |ev|]; simpl.
  - split; [done|]. apply Forall_app. split; [done|]. by repeat constructor.
  - destruct (timeouts s !! k) as [p|] eqn:Ek; [|done]. simpl. split.
    + assert (wasAuthenticated p = false) as Hp.
      { rewrite Forall_forall in Hpending. apply Hpending.
        by eapply list_elem_of_lookup_2. }
      apply App_render_locked_out; [apply ADMIN_PASSWORD_not_empty|done| |done].
      simpl. rewrite Hp. by destruct (target p).
    + by apply Forall_delete.
  - split; [|done].
    apply App_render_locked_out; [apply ADMIN_PASSWORD_not_empty|done..].
  - split; [|done].
    apply (App_step_locked_out env (App.Form ev) (app s)); [|done].
    intros value [= ->]. by apply Ha.
  - split; [|done]. by apply (App_step_locked_out env App.Logout (app s)).
Qed.

(** X12. Nobody gets in without the secret: in a session that starts
    without the flag in the session storage, as long as the secret itself
    is never typed into the password field, the user is not authenticated
    and the view of the CMS is not current, whatever else is typed,
    submitted and clicked, and whenever the timeouts of the navigation
    fire; the secret is never the empty text, so submitting the empty form
    does not open the gate either. *)
Theorem App_no_entry_without_the_secret
    (VITE_ADMIN_PASSWORD : option string) (storage : gmap string string)
    (l : list Action) :
  storage !! "cms_authenticated" ≠ Some "true" →
  (useAuth.ADMIN_PASSWORD VITE_ADMIN_PASSWORD ∉ typed l) →
  let s := app (acts VITE_ADMIN_PASSWORD l (startSession storage)) in
  useAuth.isAuthenticated (App.auth (App.gate s)) = false
  ∧ App.currentView (App.gate s) ≠ App.CMS
  ∧ useAuth.ADMIN_PASSWORD VITE_ADMIN_PASSWORD ≠ EmptyString.
Proof.
  intros Hstorage Htyped s.
  pose proof (ADMIN_PASSWORD_not_empty VITE_ADMIN_PASSWORD) as Hsecret.
  assert (App_locked_out (useAuth.ADMIN_PASSWORD VITE_ADMIN_PASSWORD) s) as (H1 & H2 & _);
    [|done].
  subst s. unfold acts.
  assert (App_locked_out (useAuth.ADMIN_PASSWORD VITE_ADMIN_PASSWORD)
            (app (startSession storage))) as Hinit.
  { apply App_render_locked_out; try done.
    simpl. unfold useAuth.checkAuth. simpl. by rewrite decide_False. }
  assert (Forall (λ p, wasAuthenticated p = false) (timeouts (startSession storage)))
    as Hpending by constructor.
  revert Hinit Hpending Htyped. generalize (startSession storage).
  induction l as [|a l IH]; intros s Hs Hpending Htyped; [exact Hs|].
  simpl.
  destruct (act_locked_out VITE_ADMIN_PASSWORD a s) as [Hs' Hpending']; [|done..|].
  { intros value -> E. apply Htyped. simpl. rewrite E. left. }
  apply IH; [done..|].
  intros Hin. apply Htyped. simpl. destruct a as [| | |[]|]; simpl; try done. by right.
Qed.

Lemma App_no_entry_without_the_secret_witness :
  App.currentView
    (App.gate
       (app (acts None
               [Click App.CMS; Timeout 0; Form Login.Submit;
                Form (Login.Change "guess"); Form Login.Submit;
                HomeClick; Click App.CMS; Timeout 0]
               (startSession ∅))))
  ≠ App.CMS.
Proof.
  refine (proj1 (proj2 (App_no_entry_without_the_secret None ∅
            [Click App.CMS; Timeout 0; Form Login.Submit;
             Form (Login.Change "guess"); Form Login.Submit;
             HomeClick; Click App.CMS; Timeout 0]
            _ _))).
  - rewrite lookup_empty. discriminate.
  - apply (bool_decide_unpack _). vm_compute. exact I.
Defined.

(** ** [useGitHubDB]: the file names *)

Lemma string_app_cons a (s1 s2 : string) : String a s1 +:+ s2 = String a (s1 +:+ s2).
Proof. reflexivity. Qed.

Lemma string_app_nil (s : string) : EmptyString +:+ s = s.
Proof. reflexivity. Qed.

Lemma string_app_assoc (s1 s2 s3 : string) : (s1 +:+ s2) +:+ s3 = s1 +:+ (s2 +:+ s3).
Proof.
  induction s1 as [|a s1 IH]; [done|]. by rewrite !string_app_cons, IH.
Qed.

Lemma string_rev_app_append (s acc : string) :
  String.rev_app s acc = String.rev s +:+ acc.
Proof.
  unfold String.rev. revert acc. induction s as [|a s IH]; intros acc; [done|].
  simpl String.rev_app. rewrite (IH (String a acc)), (IH (String a EmptyString)).
  by rewrite string_app_assoc.
Qed.

Lemma string_rev_app_app (s1 s2 acc : string) :
  String.rev_app (s1 +:+ s2) acc = String.rev_app s2 (String.rev_app s1 acc).
Proof.
  revert acc. induction s1 as [|a s1 IH]; intros acc; [done|].
  rewrite string_app_cons. simpl String.rev_app. apply IH.
Qed.

Lemma string_rev_app (s1 s2 : string) :
  String.rev (s1 +:+ s2) = String.rev s2 +:+ String.rev s1.
Proof.
  unfold String.rev at 1. rewrite string_rev_app_app.
  apply string_rev_app_append.
Qed.

Lemma string_prefix_app (p s : string) : String.prefix p (p +:+ s) = true.
Proof.
  induction p as [|a p IH]; [by destruct s|].
  rewrite string_app_cons. simpl. by destruct (ascii_dec a a).
Qed.

Lemma endsWith_app (s suffix : string) : GitHub.endsWith (s +:+ suffix) suffix = true.
Proof. unfold GitHub.endsWith. rewrite string_rev_app. apply string_prefix_app. Qed.

Lemma all_chars_app p (s1 s2 : string) :
  all_chars p (s1 +:+ s2) = all_chars p s1 && all_chars p s2.
Proof.
  induction s1 as [|a s1 IH]; [done|].
  rewrite string_app_cons. simpl. by rewrite IH, andb_assoc.
Qed.

Lemma all_chars_rev p (s : string) : all_chars p (String.rev s) = all_chars p s.
Proof.
  induction s as [|a s IH]; [done|].
  unfold String.rev. simpl String.rev_app.
  rewrite string_rev_app_append, all_chars_app, IH.
  simpl. by rewrite andb_true_r, andb_comm.
Qed.

Lemma all_chars_strip_leading_dash p (s : string) :
  all_chars p s = true → all_chars p (GitHub.strip_leading_dash s) = true.
Proof.
  destruct s as [|a s]; [done|]. simpl. intros [Ha Hs]%andb_true_iff.
  destruct a as [[] [] [] [] [] [] [] []]; simpl; rewrite ?Ha; done.
Qed.

Lemma all_chars_replace_runs in_run (s : string) :
  all_chars is_filename_char (GitHub.replace_runs in_run s) = true.
Proof.
  revert in_run. induction s as [|a s IH]; intros in_run; [done|]. simpl.
  destruct (GitHub.is_slug_char a) eqn:Ea; simpl.
  - unfold is_filename_char. by rewrite Ea, IH.
  - destruct in_run; simpl; by rewrite IH.
Qed.

Lemma all_chars_substring p n (s : string) :
  all_chars p s = true → all_chars p (String.substring 0 n s) = true.
Proof.
  revert s. induction n as [|n IH]; intros [|a s]; simpl; try done.
  intros [Ha Hs]%andb_true_iff. by rewrite Ha, IH.
Qed.

Lemma length_substring n (s : string) : String.length (String.substring 0 n s) ≤ n.
Proof.
  revert s. induction n as [|n IH]; intros [|a s]; simpl; try lia.
  specialize (IH s). lia.
Qed.

Lemma filename_prefix_eq t :
  filename_prefix t
  = match t with STORY => "story" | POEM => "poem" | QUOTE => "quote" end +:+ "-".
Proof. by destruct t. Qed.

Lemma all_chars_slug (s : string) :
  all_chars is_filename_char
    (String.substring 0 30 (GitHub.strip_dashes (GitHub.replace_runs false s))) = true.
Proof.
  apply all_chars_substring. unfold GitHub.strip_dashes.
  rewrite all_chars_rev. apply all_chars_strip_leading_dash.
  rewrite all_chars_rev. apply all_chars_strip_leading_dash.
  apply all_chars_replace_runs.
Qed.

(** The two shapes of a file name. *)
Lemma generateFilename_shape item :
  ∃ slug, GitHub.generateFilename item = filename_prefix (type item) +:+ slug +:+ ".json"
    ∧ match type item, title item with
      | QUOTE, _ | _, None | _, Some EmptyString => slug = id item
      | _, Some _ =>
          all_chars is_filename_char slug = true ∧ String.length slug ≤ 30
      end.
Proof.
  unfold GitHub.generateFilename. rewrite filename_prefix_eq.
  destruct (type item), (title item) as [[|c t]|];
    try (exists (id item); split; [by rewrite string_app_assoc|done]);
    (eexists; split; [by rewrite string_app_assoc|]; split;
     [apply all_chars_slug|apply length_substring]).
Qed.

(** X14. The file name [generateFilename] gives an item passes the filter
    by which [fetchContent] and [deleteItem] take the content files of the
    folder: it ends with [.json] and is neither [settings.json] nor
    [meta.json], whatever the id and the title of the item. *)
Theorem generateFilename_is_a_content_file (item : ContentItem) :
  let name := GitHub.generateFilename item in
  GitHub.endsWith name ".json" = true
  ∧ name ≠ "settings.json"
  ∧ name ≠ "meta.json"
  ∧ filter (λ name, GitHub.endsWith name ".json" = true
                    ∧ name ≠ "settings.json" ∧ name ≠ "meta.json") [name] = [name].
Proof.
  intros name.
  assert (GitHub.endsWith name ".json" = true ∧ name ≠ "settings.json" ∧ name ≠ "meta.json")
    as H.
  { subst name. destruct (generateFilename_shape item) as (slug & -> & _).
    split_and!.
    - rewrite <- string_app_assoc. apply endsWith_app.
    - destruct (type item); cbn; discriminate.
    - destruct (type item); cbn; discriminate. }
  split_and!; try apply H. by rewrite filter_cons_True.
Qed.

(** X15. The file name of a story or a poem with a title is the name of
    the type, a dash, a slug and [.json], where the slug has at most 30
    characters, all of them in [[a-z0-9-]]: whatever the title holds, the
    name holds no slash, no dot and no space before its extension. *)
Theorem generateFilename_slug_is_safe (item : ContentItem) (c : ascii) (t : string) :
  type item ≠ QUOTE →
  title item = Some (String c t) →
  ∃ slug,
    GitHub.generateFilename item = filename_prefix (type item) +:+ slug +:+ ".json"
    ∧ all_chars is_filename_char slug = true
    ∧ String.length slug ≤ 30.
Proof.
  intros Htype Htitle.
  destruct (generateFilename_shape item) as (slug & Hname & Hslug).
  exists slug. split; [done|].
  rewrite Htitle in Hslug. by destruct (type item).
Qed.

Lemma generateFilename_slug_is_safe_witness :
  ∃ slug,
    GitHub.generateFilename hello_2 = "story-" +:+ slug +:+ ".json"
    ∧ all_chars is_filename_char slug = true
    ∧ String.length slug ≤ 30.
Proof.
  apply (generateFilename_slug_is_safe hello_2 "h"%char "ello, world!").
  - discriminate.
  - reflexivity.
Defined.

(** ** [useGitHubDB]: what a save writes *)

(** X16. [saveItem] writes to one content file only, the one
    [generateFilename] names: whatever the API does, every other content
    file and [settings.json] are as they were.  In particular the file an
    item was stored in under an earlier title is neither removed nor
    changed when the item is saved under a new title. *)
Theorem GitHub_saveItem_touches_one_content_file
    (env : GitHub.Env) (item : ContentItem) (w : GitHub.World) :
  let w' := final (GitHub.saveItem env item w) in
  (∀ name, name ≠ GitHub.generateFilename item →
     GitHub.content_json (GitHub.repo w') !! name
     = GitHub.content_json (GitHub.repo w) !! name)
  ∧ GitHub.settings_json (GitHub.repo w') = GitHub.settings_json (GitHub.repo w)
  ∧ GitHub.settings w' = GitHub.settings w.
Proof.
  run_github.
  github_cases; split_and!; try done; intros name Hname; by rewrite lookup_insert_ne.
Qed.

Lemma encodes_item_id item :
  GitHub.encodes_item item = true → GitHub.btoa_accepts (id item) = true.
Proof. unfold GitHub.encodes_item. rewrite !andb_true_iff. tauto. Qed.

Lemma encodes_meta_cons_filter new (order : list string) :
  GitHub.btoa_accepts new = true →
  GitHub.encodes_meta {| contentOrder := order |} = true →
  GitHub.encodes_meta {| contentOrder := new :: filter (λ i, i ≠ new) order |} = true.
Proof.
  unfold GitHub.encodes_meta. simpl. intros -> Hall. simpl.
  rewrite forallb_forall in Hall |- *. intros i Hi.
  apply list_elem_of_In, list_elem_of_filter in Hi as [_ Hi].
  by apply Hall, list_elem_of_In.
Qed.

(** What a [saveItem] leaves in the repository when its calls all go
    through and what it writes can be encoded. *)
Lemma GitHub_saveItem_run env item w :
  GitHub.isGitHubConfigured env = true →
  (∀ call, GitHub.throws env call = false) →
  GitHub.encodes_item item = true →
  GitHub.encodes_meta {| contentOrder := GitHub.ledger (GitHub.repo w) |} = true →
  let r := GitHub.saveItem env item w in
  let order := GitHub.ledger (GitHub.repo w) in
  result r = Normal true
  ∧ GitHub.content_json (GitHub.repo (final r))
    = <[GitHub.generateFilename item := file_of env item]> (GitHub.content_json (GitHub.repo w))
  ∧ GitHub.ledger (GitHub.repo (final r))
    = (if decide (id item ∈ order) then order
       else id item :: filter (λ i, i ≠ id item) order)
  ∧ GitHub.encodes_meta {| contentOrder := GitHub.ledger (GitHub.repo (final r)) |} = true.
Proof.
  intros Hcfg Hok Henc Hmeta.
  pose proof (encodes_meta_cons_filter (id item) (GitHub.ledger (GitHub.repo w))
                (encodes_item_id item Henc) Hmeta) as Hnew.
  run_github. rewrite Hcfg. simpl. rewrite !Hok. simpl.
  destruct (GitHub.content_json (GitHub.repo w) !! GitHub.generateFilename item)
    as [[fsha [old|]]|]; simpl; rewrite ?Henc; simpl; rewrite ?Hcfg; simpl;
    rewrite ?Hok; simpl; rewrite ?Hcfg; simpl; rewrite ?Hok; simpl;
    destruct (GitHub.meta_json (GitHub.repo w)) as [[msha [meta|]]|] eqn:Em; simpl;
    simpl in Hnew;
    try (destruct (decide (id item ∈ contentOrder meta)) as [Hin|Hin];
         rewrite ?(bool_decide_eq_true_2 _ Hin), ?(bool_decide_eq_false_2 _ Hin));
    simpl; rewrite ?Hnew; simpl; rewrite ?Hcfg; simpl; rewrite ?Hok; simpl; rewrite ?Em;
    simpl; rewrite ?decide_True, ?decide_False by done; done.
Qed.

(** X17. Two items whose file names coincide share one file: when both
    are saved, all calls going through and the two items and the ledger
    being text that [btoa] encodes (no character above U+00FF), the second
    save overwrites the file of the first, and the content files of the
    repository are those that saving the second item alone would have
    left; the first item is still in the item list of the session (when
    the ids differ) and its id is in the ledger, but no file holds it under
    that name. *)
Theorem GitHub_same_file_name_overwrites
    (env : GitHub.Env) (a b : ContentItem) (w : GitHub.World) :
  GitHub.isGitHubConfigured env = true →
  (∀ call, GitHub.throws env call = false) →
  GitHub.encodes_item a = true →
  GitHub.encodes_item b = true →
  GitHub.encodes_meta {| contentOrder := GitHub.ledger (GitHub.repo w) |} = true →
  GitHub.generateFilename a = GitHub.generateFilename b →
  id a ≠ id b →
  let both := final (GitHub.saveItem env b (final (GitHub.saveItem env a w))) in
  GitHub.content_json (GitHub.repo both)
  = GitHub.content_json (GitHub.repo (final (GitHub.saveItem env b w)))
  ∧ GitHub.content_json (GitHub.repo both) !! GitHub.generateFilename a
    = Some (file_of env b)
  ∧ a ∈ GitHub.items both
  ∧ b ∈ GitHub.items both
  ∧ id a ∈ GitHub.ledger (GitHub.repo both)
  ∧ id b ∈ GitHub.ledger (GitHub.repo both).
Proof.
  intros Hcfg Hok Hea Heb Hem Hname Hid both.
  destruct (GitHub_saveItem_run env a w Hcfg Hok Hea Hem) as (_ & Hc1 & Hl1 & Hem1).
  destruct (GitHub_saveItem_run env b (final (GitHub.saveItem env a w)) Hcfg Hok Heb Hem1)
    as (_ & Hc2 & Hl2 & _).
  destruct (GitHub_saveItem_run env b w Hcfg Hok Heb Hem) as (_ & Hc3 & _).
  fold both in Hc2, Hl2.
  assert (∀ item (l : list ContentItem), item ∈ saveItem_update item l) as Hself.
  { intros item l. destruct (saveItem_update_cases item l) as [Hex|Hnew].
    - rewrite saveItem_update_existing by done.
      destruct Hex as (old & Hin & Hold). apply list_elem_of_fmap.
      exists old. by rewrite decide_True.
    - rewrite saveItem_update_new by done. left. }
  assert (∀ item x (l : list ContentItem),
            x ∈ l → id x ≠ id item → x ∈ saveItem_update item l) as Hother.
  { intros item x l Hx Hne. destruct (saveItem_update_cases item l) as [Hex|Hnew].
    - rewrite saveItem_update_existing by done. apply list_elem_of_fmap.
      exists x. by rewrite decide_False.
    - rewrite saveItem_update_new by done. by right. }
  assert (id a ∈ GitHub.ledger (GitHub.repo (final (GitHub.saveItem env a w)))) as Ha.
  { rewrite Hl1. destruct (decide (id a ∈ GitHub.ledger (GitHub.repo w))); [done|left]. }
  split_and!.
  - rewrite Hc2, Hc3, Hc1, Hname. apply insert_insert_eq.
  - rewrite Hc2, Hname. apply lookup_insert_eq.
  - subst both. rewrite !GitHub_saveItem_local. apply Hother; [apply Hself|done].
  - subst both. rewrite GitHub_saveItem_local. apply Hself.
  - rewrite Hl2. destruct (decide (id b ∈ _)); [done|]. right.
    apply list_elem_of_filter. split; [congruence|done].
  - rewrite Hl2. destruct (decide (id b ∈ _)); [done|left].
Qed.

Lemma GitHub_same_file_name_overwrites_witness :
  GitHub.content_json
    (GitHub.repo (final (GitHub.saveItem github_ok hello_2
                           (final (GitHub.saveItem github_ok hello_1
                                     (github_world [] empty_repo))))))
  !! "story-hello-world.json"
  = Some (file_of github_ok hello_2).
Proof.
  refine (proj1 (proj2 (GitHub_same_file_name_overwrites github_ok hello_1 hello_2
                          (github_world [] empty_repo) _ _ _ _ _ _ _))).
  - reflexivity.
  - intros call. reflexivity.
  - reflexivity.
  - reflexivity.
  - reflexivity.
  - vm_compute. reflexivity.
  - discriminate.
Defined.

(** ** The editor of the CMS over [useFirebaseDB] *)

Lemma saveItem_update_Forall (P : ContentItem → Prop) item (prev : list ContentItem) :
  P item → Forall P prev → Forall P (saveItem_update item prev).
Proof.
  intros Hitem Hprev. destruct (saveItem_update_cases item prev) as [Hex|Hnew].
  - rewrite saveItem_update_existing by done. apply Forall_fmap.
    eapply Forall_impl; [exact Hprev|]. intros x Hx. simpl. by case_decide.
  - rewrite saveItem_update_new by done. by constructor.
Qed.

Lemma saveItem_update_elem_of item (prev : list ContentItem) :
  item ∈ saveItem_update item prev.
Proof.
  destruct (saveItem_update_cases item prev) as [Hex|Hnew].
  - rewrite saveItem_update_existing by done.
    destruct Hex as (old & Hin & Hold). apply list_elem_of_fmap.
    exists old. by rewrite decide_True.
  - rewrite saveItem_update_new by done. left.
Qed.

(** [saveItem] of [useFirebaseDB] always completes with a boolean, and
    leaves the collection as it was or with the item stored. *)
Lemma Firebase_saveItem_outcome env item w :
  ∃ success w',
    Firebase.saveItem env item w = (Normal success, w')
    ∧ Firebase.items w' = saveItem_update item (Firebase.items w)
    ∧ (Firebase.isFirebaseConfigured env = false → success = true)
    ∧ (Firebase.isFirebaseConfigured env = true →
         success = negb (Firebase.throws env (Firebase.SetDoc "content" (id item))))
    ∧ (Firebase.content (Firebase.db w') = Firebase.content (Firebase.db w)
       ∨ Firebase.content (Firebase.db w')
         = <[id item := item]> (Firebase.content (Firebase.db w)))
    ∧ (success = false → Firebase.db w' = Firebase.db w).
Proof.
  run_firebase. firebase_cases; eexists _, _; (split; [reflexivity|]); simpl;
    split_and!; auto; done.
Qed.

Lemma CMS_onChange_frame inputs st :
  let st' := foldl (λ st i, CMS.onChange i st) st inputs in
  CMS.editingItem st' = CMS.editingItem st
  ∧ CMS.isCreating st' = CMS.isCreating st
  ∧ CMS.form_body (CMS.formData st') = typedBody (CMS.form_body (CMS.formData st)) inputs.
Proof.
  revert st. induction inputs as [|i inputs IH]; intros st; [done|].
  simpl. destruct (IH (CMS.onChange i st)) as (H1 & H2 & H3).
  rewrite H1, H2, H3. by destruct i.
Qed.

(** X18. The editor saves no piece without a body: with an empty body
    (or none) in the form, [handleSaveItem] calls nothing and changes
    nothing; otherwise the item it passes to [saveItem] has the body of the
    form.  So if every item of the list and every document of the
    collection has a body, this is still so after [handleSaveItem],
    whatever the form holds and whatever the backend does. *)
Theorem CMS_saves_no_piece_without_body
    (env : Firebase.Env) (now : string) (st : CMS.State) (w : Firebase.World) :
  let r := App_handleSaveItem env now st w in
  ((CMS.form_body (CMS.formData st) = None
    ∨ CMS.form_body (CMS.formData st) = Some EmptyString) → r = (st, w))
  ∧ (Forall (λ i, body i ≠ EmptyString) (Firebase.items w) →
     Forall (λ i, body i ≠ EmptyString) (Firebase.items r.2))
  ∧ (map_Forall (λ _ i, body i ≠ EmptyString) (Firebase.content (Firebase.db w)) →
     map_Forall (λ _ i, body i ≠ EmptyString) (Firebase.content (Firebase.db r.2))).
Proof.
  intros r. subst r. unfold App_handleSaveItem, CMS.handleSaveItem.
  destruct (CMS.form_body (CMS.formData st)) as [[|c rest]|] eqn:Eb.
  - split_and!; done.
  - set (item := CMS.newItem _ _ _).
    destruct (Firebase_saveItem_outcome env item w)
      as (success & w' & -> & Hitems & _ & _ & Hcontent & _).
    assert (body item ≠ EmptyString) as Hbody by done.
    split_and!.
    + intros [?|?]; done.
    + intros Hall. destruct success; simpl; rewrite Hitems;
        by apply saveItem_update_Forall.
    + intros Hall. destruct success; simpl;
        (destruct Hcontent as [->| ->]; [done|by apply map_Forall_insert_2]).
  - split_and!; done.
Qed.

(** X19. Editing keeps the id and the place of an item: when an item of
    the list is opened in the editor from the dashboard, fields are changed
    and the form is saved with a body, the list holds the same ids in the same order as
    before, an item with the id of the edited one holds the body of the
    form, and the editor is still open on the item (the timeout of a
    successful save closes it). *)
Theorem CMS_edit_keeps_id_and_place
    (env : Firebase.Env) (today now : string) (item : ContentItem)
    (inputs : list CMS.Input) (st : CMS.State) (w : Firebase.World)
    (c : ascii) (rest : string) :
  CMS.showsEditor st = false →
  item ∈ Firebase.items w →
  id item ≠ EmptyString →
  typedBody (Some (body item)) inputs = Some (String c rest) →
  let r := editSession env today now item inputs st w in
  id <$> Firebase.items r.2 = id <$> Firebase.items w
  ∧ (∃ saved, saved ∈ Firebase.items r.2
              ∧ id saved = id item ∧ body saved = String c rest)
  ∧ CMS.editingItem r.1 = Some item
  ∧ CMS.showsEditor (CMS.savedTimeout r.1) = false.
Proof.
  intros _ Hin Hid Hbody r. subst r. unfold editSession.
  set (st0 := CMS.resetForm today (CMS.handleEdit item st)).
  destruct (CMS_onChange_frame inputs st0) as (He & _ & Hb).
  set (st1 := foldl _ st0 inputs) in *.
  assert (CMS.editingItem st1 = Some item) as He' by (by rewrite He).
  assert (CMS.form_body (CMS.formData st1) = Some (String c rest)) as Hb'
    by (by rewrite Hb).
  unfold App_handleSaveItem, CMS.handleSaveItem. rewrite Hb'.
  set (new := CMS.newItem _ _ _).
  assert (id new = id item) as Hnew.
  { subst new. unfold CMS.newItem. simpl. rewrite He'. by rewrite decide_False. }
  destruct (Firebase_saveItem_outcome env new w)
    as (success & w' & -> & Hitems & _).
  assert (id <$> Firebase.items w' = id <$> Firebase.items w) as Hids.
  { rewrite Hitems. apply saveItem_update_ids_existing.
    exists item. by rewrite Hnew. }
  assert (new ∈ Firebase.items w') as Hsaved.
  { rewrite Hitems. apply saveItem_update_elem_of. }
  destruct success; simpl; (split_and!; [done|by exists new|done|done]).
Qed.

Lemma CMS_edit_keeps_id_and_place_witness :
  id <$> Firebase.items
           (editSession firebase_ok "Jan 1, 2026" "1767225600000" item_a
              [CMS.InputBody "edited"] (CMS.initial DEFAULT_SETTINGS)
              (firebase_world [mkItem "0"; item_a; mkItem "2"] db_one)).2
  = ["0"; "1"; "2"].
Proof.
  refine (proj1 (CMS_edit_keeps_id_and_place firebase_ok "Jan 1, 2026" "1767225600000"
                   item_a [CMS.InputBody "edited"] (CMS.initial DEFAULT_SETTINGS)
                   (firebase_world [mkItem "0"; item_a; mkItem "2"] db_one)
                   "e"%char "dited" _ _ _ _)).
  - reflexivity.
  - simpl. right. left.
  - discriminate.
  - reflexivity.
Defined.

(** X20. Creating puts the new piece in front: when the editor is opened
    from the dashboard for a new piece, the form is filled and saved with a body, and no item
    of the list has the time stamp of the save as its id, the list is the
    old list with one item in front of it, whose id is the time stamp and
    whose body is that of the form. *)
Theorem CMS_create_puts_new_piece_in_front
    (env : Firebase.Env) (today now : string)
    (inputs : list CMS.Input) (st : CMS.State) (w : Firebase.World)
    (c : ascii) (rest : string) :
  CMS.showsEditor st = false →
  (now ∉ id <$> Firebase.items w) →
  typedBody (Some EmptyString) inputs = Some (String c rest) →
  let r := createSession env today now inputs st w in
  ∃ new, Firebase.items r.2 = new :: Firebase.items w
         ∧ id new = now ∧ body new = String c rest.
Proof.
  intros _ Hfresh Hbody r. subst r. unfold createSession.
  set (st0 := CMS.resetForm today (CMS.handleCreateNew st)).
  destruct (CMS_onChange_frame inputs st0) as (He & _ & Hb).
  set (st1 := foldl _ st0 inputs) in *.
  assert (CMS.editingItem st1 = None) as He' by (by rewrite He).
  assert (CMS.form_body (CMS.formData st1) = Some (String c rest)) as Hb'
    by (by rewrite Hb).
  unfold App_handleSaveItem, CMS.handleSaveItem. rewrite Hb'.
  set (new := CMS.newItem _ _ _).
  assert (id new = now) as Hnew.
  { subst new. unfold CMS.newItem. simpl. by rewrite He'. }
  destruct (Firebase_saveItem_outcome env new w)
    as (success & w' & -> & Hitems & _).
  assert (Firebase.items w' = new :: Firebase.items w) as Hcons.
  { rewrite Hitems. apply saveItem_update_new. intros old Hold Heq.
    apply Hfresh. rewrite <- Hnew, <- Heq. by apply list_elem_of_fmap_2. }
  destruct success; simpl; by exists new.
Qed.

Lemma CMS_create_puts_new_piece_in_front_witness :
  ∃ new,
    Firebase.items
      (createSession firebase_ok "Jan 1, 2026" "1767225600000"
         [CMS.InputTitle "A title"; CMS.InputBody "text"] (CMS.initial DEFAULT_SETTINGS)
         (firebase_world [item_a] db_one)).2
    = new :: [item_a]
    ∧ id new = "1767225600000" ∧ body new = "text".
Proof.
  apply (CMS_create_puts_new_piece_in_front firebase_ok "Jan 1, 2026" "1767225600000"
           [CMS.InputTitle "A title"; CMS.InputBody "text"] (CMS.initial DEFAULT_SETTINGS)
           (firebase_world [item_a] db_one) "t"%char "ext").
  - reflexivity.
  - apply (bool_decide_unpack _). vm_compute. exact I.
  - reflexivity.
Defined.

(** X21. What the editor reports in the application.  [handleSaveItem]
    never leaves the status at ['saving']: it ends with ['saved'] or with
    ['error'] (or has returned at once, for a form without body); without
    a configured backend it always ends with ['saved']; with a backend, it
    ends with ['error'] exactly when the write of the document throws, and
    then the message is the one for the local mode (the editor is not told
    that a backend is configured), the database is as it was, the list
    shows the piece all the same, and the editor stays open with the form
    as it was filled. *)
Theorem App_CMS_save_report
    (env : Firebase.Env) (now : string) (st : CMS.State) (w : Firebase.World)
    (c : ascii) (rest : string) :
  CMS.form_body (CMS.formData st) = Some (String c rest) →
  let item := CMS.newItem now st (String c rest) in
  let r := App_handleSaveItem env now st w in
  (CMS.saveStatus r.1 = CMS.saved ∨ CMS.saveStatus r.1 = CMS.error)
  ∧ (Firebase.isFirebaseConfigured env = false → CMS.saveStatus r.1 = CMS.saved)
  ∧ (Firebase.isFirebaseConfigured env = true →
       (CMS.saveStatus r.1 = CMS.error
        ↔ Firebase.throws env (Firebase.SetDoc "content" (id item)) = true))
  ∧ (CMS.saveStatus r.1 = CMS.saved → CMS.errorMessage r.1 = None)
  ∧ (CMS.saveStatus r.1 = CMS.error →
       CMS.errorMessage r.1 = Some "Saved locally. Configure GitHub to persist changes."
       ∧ Firebase.db r.2 = Firebase.db w
       ∧ item ∈ Firebase.items r.2)
  ∧ CMS.formData r.1 = CMS.formData st
  ∧ CMS.editingItem r.1 = CMS.editingItem st
  ∧ CMS.isCreating r.1 = CMS.isCreating st.
Proof.
  intros Hbody item r. subst r. unfold App_handleSaveItem, CMS.handleSaveItem.
  rewrite Hbody.
  change (CMS.newItem now (CMS.setErrorMessage None (CMS.setSaveStatus CMS.saving st))
            (String c rest)) with item.
  destruct (Firebase_saveItem_outcome env item w)
    as (success & w' & -> & Hitems & Hlocal & Hremote & _ & Hdb).
  destruct success; simpl.
  - split; [by left|]. split; [done|]. split.
    { intros Hcfg. specialize (Hremote Hcfg). split; [done|]. intros Ht.
      change (Firebase.throws env (Firebase.SetDoc "content" (id item)) = true) in Ht.
      by rewrite Ht in Hremote. }
    split; [done|]. split; [intros ?; done|]. done.
  - split; [by right|]. split; [intros Hcfg; by specialize (Hlocal Hcfg)|]. split.
    { intros Hcfg. specialize (Hremote Hcfg). split; [|done]. intros _.
      change (Firebase.throws env (Firebase.SetDoc "content" (id item)) = true).
      by destruct (Firebase.throws env _). }
    split; [done|]. split; [|done].
    intros _. split_and!; [done|by apply Hdb|].
    rewrite Hitems. apply saveItem_update_elem_of.
Qed.

Lemma App_CMS_save_report_witness :
  CMS.errorMessage
    (App_handleSaveItem firebase_unreachable "1767225600000"
       (CMS.onChange (CMS.InputBody "text")
          (CMS.resetForm "Jan 1, 2026" (CMS.handleCreateNew (CMS.initial DEFAULT_SETTINGS))))
       (firebase_world [item_a] db_one)).1
  = Some "Saved locally. Configure GitHub to persist changes.".
Proof.
  refine (proj1 (proj1 (proj2 (proj2 (proj2 (proj2
            (App_CMS_save_report firebase_unreachable "1767225600000"
               (CMS.onChange (CMS.InputBody "text")
                  (CMS.resetForm "Jan 1, 2026"
                     (CMS.handleCreateNew (CMS.initial DEFAULT_SETTINGS))))
               (firebase_world [item_a] db_one) "t"%char "ext" _))))) _)).
  - reflexivity.
  - apply (proj2 (proj1 (proj2 (proj2
             (App_CMS_save_report firebase_unreachable "1767225600000"
                (CMS.onChange (CMS.InputBody "text")
                   (CMS.resetForm "Jan 1, 2026"
                      (CMS.handleCreateNew (CMS.initial DEFAULT_SETTINGS))))
                (firebase_world [item_a] db_one) "t"%char "ext" eq_refl))) eq_refl)).
    reflexivity.
Defined.

(** ** Deleting and saving the settings from the CMS *)

Lemma Firebase_deleteItem_outcome env id' w :
  ∃ success w',
    Firebase.deleteItem env id' w = (Normal success, w')
    ∧ Firebase.items w' = deleteItem_update id' (Firebase.items w)
    ∧ (Firebase.isFirebaseConfigured env = false → success = true)
    ∧ (Firebase.isFirebaseConfigured env = true →
       Firebase.throws env (Firebase.DeleteDoc "content" id') = true →
       success = false ∧ Firebase.db w' = Firebase.db w).
Proof.
  run_firebase. firebase_cases; eexists _, _; (split; [reflexivity|]); simpl;
    split_and!; auto; done.
Qed.

Lemma Firebase_saveSettings_outcome env newSettings w :
  ∃ success w',
    Firebase.saveSettings env newSettings w = (Normal success, w')
    ∧ Firebase.settings w' = newSettings
    ∧ (Firebase.isFirebaseConfigured env = false → success = true)
    ∧ (Firebase.isFirebaseConfigured env = true →
       success = negb (Firebase.throws env (Firebase.SetDoc "config" "settings")))
    ∧ (success = false → Firebase.db w' = Firebase.db w)
    ∧ (success = true → Firebase.isFirebaseConfigured env = true →
       Firebase.config_settings (Firebase.db w') = Some newSettings).
Proof.
  run_firebase. firebase_cases; eexists _, _; (split; [reflexivity|]); simpl;
    split_and!; auto; done.
Qed.

(** X22. Deleting from the dashboard: [handleDelete] closes the
    confirmation dialog and the list holds no item of the id any more,
    whatever the backend does; the message of failure is shown exactly
    when [deleteItem] reports a failure, which without a configured backend
    never happens; when the deletion of the document throws, the message
    is shown and the database still holds what it held, although the list
    does not show the item. *)
Theorem App_CMS_delete_report
    (env : Firebase.Env) (id' : string) (st : CMS.State) (w : Firebase.World) :
  let r := App_handleDelete env id' st w in
  CMS.showDeleteConfirm r.1 = None
  ∧ Firebase.items r.2 = deleteItem_update id' (Firebase.items w)
  ∧ Forall (λ i, id i ≠ id') (Firebase.items r.2)
  ∧ (result (Firebase.deleteItem env id' w) = Normal true →
       CMS.errorMessage r.1 = CMS.errorMessage st)
  ∧ (result (Firebase.deleteItem env id' w) = Normal false →
       CMS.errorMessage r.1 = Some "Failed to delete item. Please try again.")
  ∧ (Firebase.isFirebaseConfigured env = false →
       CMS.errorMessage r.1 = CMS.errorMessage st)
  ∧ (Firebase.isFirebaseConfigured env = true →
     Firebase.throws env (Firebase.DeleteDoc "content" id') = true →
       CMS.errorMessage r.1 = Some "Failed to delete item. Please try again."
       ∧ Firebase.db r.2 = Firebase.db w).
Proof.
  intros r. subst r. unfold App_handleDelete, CMS.handleDelete.
  destruct (Firebase_deleteItem_outcome env id' w)
    as (success & w' & -> & Hitems & Hlocal & Hremote).
  unfold result. simpl. split_and!.
  - by destruct success.
  - done.
  - rewrite Hitems. apply deleteItem_update_spec.
  - intros [= ->]. done.
  - intros [= ->]. done.
  - intros Hcfg. by rewrite (Hlocal Hcfg).
  - intros Hcfg Ht. destruct (Hremote Hcfg Ht) as [-> Hdb]. done.
Qed.

(** X23. Saving the settings from the CMS: the settings of the site are
    those of the form at once, whatever the backend does; the status ends
    as ['saved'], or as ['error'] with the message of the local mode;
    without a configured backend it is ['saved']; with one, it is
    ['error'] exactly when the write of [config/settings] throws, the
    database being then as it was, and otherwise the database holds the
    settings of the form. *)
Theorem App_CMS_settings_report
    (env : Firebase.Env) (st : CMS.State) (w : Firebase.World) :
  let r := App_handleSaveSettings env st w in
  Firebase.settings r.2 = CMS.settingsForm st
  ∧ CMS.settingsForm r.1 = CMS.settingsForm st
  ∧ ((CMS.saveStatus r.1 = CMS.saved ∧ CMS.errorMessage r.1 = None)
     ∨ (CMS.saveStatus r.1 = CMS.error
        ∧ CMS.errorMessage r.1 = Some "Settings saved locally."
        ∧ Firebase.db r.2 = Firebase.db w))
  ∧ (Firebase.isFirebaseConfigured env = false → CMS.saveStatus r.1 = CMS.saved)
  ∧ (Firebase.isFirebaseConfigured env = true →
       (CMS.saveStatus r.1 = CMS.error
        ↔ Firebase.throws env (Firebase.SetDoc "config" "settings") = true)
       ∧ (CMS.saveStatus r.1 = CMS.saved →
            Firebase.config_settings (Firebase.db r.2) = Some (CMS.settingsForm st))).
Proof.
  intros r. subst r. unfold App_handleSaveSettings, CMS.handleSaveSettings.
  change (CMS.settingsForm (CMS.setErrorMessage None (CMS.setSaveStatus CMS.saving st)))
    with (CMS.settingsForm st).
  destruct (Firebase_saveSettings_outcome env (CMS.settingsForm st) w)
    as (success & w' & -> & Hsettings & Hlocal & Hremote & Hdb & Hstored).
  destruct success; simpl.
  - split; [done|]. split; [done|]. split; [by left|]. split; [done|].
    intros Hcfg. specialize (Hremote Hcfg). split.
    + split; [done|]. intros Ht. by rewrite Ht in Hremote.
    + intros _. by apply Hstored.
  - split; [done|]. split; [done|].
    split; [right; split_and!; [done|done|by apply Hdb]|].
    split; [intros Hcfg; by specialize (Hlocal Hcfg)|].
    intros Hcfg. specialize (Hremote Hcfg). split; [|done].
    split; [|done]. intros _. by destruct (Firebase.throws env _).
Qed.

(** ** The field of the author roles *)

Lemma split_comma_cons_inv (s : string) : ∃ piece pieces, split_comma s = piece :: pieces.
Proof.
  induction s as [|c s (piece & pieces & IH)]; simpl; [by eexists _, _|].
  case_decide; [by eexists _, _|]. rewrite IH. by eexists _, _.
Qed.

Lemma split_comma_no_comma (s : string) :
  all_chars (λ c, negb (bool_decide (c = ","%char))) s = true → split_comma s = [s].
Proof.
  induction s as [|c s IH]; [done|]. simpl.
  intros [Hc Hs]%andb_true_iff. apply negb_true_iff, bool_decide_eq_false in Hc.
  rewrite decide_False by done. by rewrite IH.
Qed.

Lemma split_comma_app (s1 s2 : string) :
  all_chars (λ c, negb (bool_decide (c = ","%char))) s1 = true →
  split_comma (s1 +:+ "," +:+ s2) = s1 :: split_comma s2.
Proof.
  induction s1 as [|c s1 IH]; [done|].
  rewrite string_app_cons. simpl.
  intros [Hc Hs]%andb_true_iff. apply negb_true_iff, bool_decide_eq_false in Hc.
  rewrite decide_False by done. by rewrite IH.
Qed.

Lemma split_comma_snoc_comma (s : string) :
  split_comma (s +:+ ",") = split_comma s ++ [EmptyString].
Proof.
  induction s as [|c s IH]; [done|].
  rewrite string_app_cons. simpl. rewrite IH.
  case_decide; [done|].
  by destruct (split_comma_cons_inv s) as (piece & pieces & ->).
Qed.

Lemma split_comma_snoc_space (s : string) :
  ∃ pieces piece,
    split_comma s = pieces ++ [piece]
    ∧ split_comma (s +:+ " ") = pieces ++ [piece +:+ " "].
Proof.
  induction s as [|c s (pieces & piece & IH1 & IH2)].
  - by exists [], EmptyString.
  - rewrite string_app_cons. simpl. rewrite IH1, IH2.
    case_decide.
    + by exists (EmptyString :: pieces), piece.
    + destruct pieces as [|p pieces]; simpl.
      * by exists [], (String c piece).
      * by exists (String c p :: pieces), piece.
Qed.

Lemma trimEnd_snoc_space (s : string) : trimEnd (s +:+ " ") = trimEnd s.
Proof. unfold trimEnd. by rewrite string_rev_app. Qed.

Lemma trimStart_snoc_space (s : string) :
  trimStart (s +:+ " ") = trimStart s +:+ " "
  ∨ (trimStart (s +:+ " ") = EmptyString ∧ trimStart s = EmptyString).
Proof.
  induction s as [|c s IH]; [by right|].
  rewrite string_app_cons. simpl. destruct (is_white_space c); [done|by left].
Qed.

Lemma trim_snoc_space (s : string) : trim (s +:+ " ") = trim s.
Proof.
  unfold trim. destruct (trimStart_snoc_space s) as [->|[-> ->]]; [|done].
  apply trimEnd_snoc_space.
Qed.

Lemma parseRoles_join (pre : string) (roles : list string) :
  pre = EmptyString ∨ pre = " " →
  roles ≠ [] →
  Forall is_role roles →
  parseRoles (pre +:+ showRoles roles) = roles.
Proof.
  intros Hpre Hne Hroles. revert pre Hpre Hne.
  induction Hroles as [|r roles (Hr & Hcomma & _ & Htrim) Hroles IH]; intros pre Hpre Hne; [done|].
  assert (all_chars (λ c, negb (bool_decide (c = ","%char))) (pre +:+ r) = true) as Hprer.
  { rewrite all_chars_app, Hcomma. by destruct Hpre as [-> | ->]. }
  assert (trim (pre +:+ r) = r) as Htrim'.
  { by destruct Hpre as [-> | ->]. }
  unfold parseRoles, showRoles in *.
  destruct roles as [|r' roles].
  - simpl join. rewrite split_comma_no_comma by done. simpl.
    rewrite Htrim'. by rewrite filter_cons_True, filter_nil.
  - change (join ", " (r :: r' :: roles))
      with (r +:+ "," +:+ (" " +:+ join ", " (r' :: roles))).
    rewrite <- string_app_assoc. rewrite split_comma_app by done.
    rewrite fmap_cons, Htrim', filter_cons_True by done.
    f_equal. apply IH; [by right|done].
Qed.

(** X24. The field of the author roles gives back what it shows: for a
    list of roles (texts of ASCII characters that are not empty, hold no
    comma and neither begin nor end with white space), the text the field
    shows for the list, [join(', ')], is stored again as the same list by
    [split(',')], [trim] and [filter(Boolean)]. *)
Theorem roles_field_round_trip (roles : list string) :
  Forall is_role roles → parseRoles (showRoles roles) = roles.
Proof.
  intros Hroles. destruct roles as [|r roles]; [done|].
  exact (parseRoles_join EmptyString (r :: roles) (or_introl eq_refl) ltac:(done) Hroles).
Qed.

Lemma roles_field_round_trip_witness :
  parseRoles (showRoles (authorRoles DEFAULT_SETTINGS)) = authorRoles DEFAULT_SETTINGS.
Proof.
  apply roles_field_round_trip.
  repeat constructor; try discriminate; vm_compute; reflexivity.
Defined.

(** X25. The field of the author roles drops a comma or a space typed at
    its end: the text with the comma (or the space) is stored as the same
    list of roles as the text without it, so the field shows again what it
    showed before the key was pressed. *)
Theorem roles_field_drops_trailing_separator (value : string) :
  all_chars is_ascii value = true →
  parseRoles (value +:+ ",") = parseRoles value
  ∧ parseRoles (value +:+ " ") = parseRoles value
  ∧ showRoles (parseRoles (value +:+ ",")) = showRoles (parseRoles value)
  ∧ showRoles (parseRoles (value +:+ " ")) = showRoles (parseRoles value).
Proof.
  intros _.
  assert (parseRoles (value +:+ ",") = parseRoles value) as Hcomma.
  { unfold parseRoles. rewrite split_comma_snoc_comma, fmap_app, filter_app.
    simpl. rewrite filter_cons_False by (intros H; by apply H).
    by rewrite filter_nil, app_nil_r. }
  assert (parseRoles (value +:+ " ") = parseRoles value) as Hspace.
  { unfold parseRoles.
    destruct (split_comma_snoc_space value) as (pieces & piece & -> & ->).
    rewrite !fmap_app. simpl. by rewrite trim_snoc_space. }
  by rewrite Hcomma, Hspace.
Qed.

Lemma roles_field_drops_trailing_separator_witness :
  showRoles (parseRoles "Author,") = "Author".
Proof.
  etrans.
  - refine (proj1 (proj2 (proj2 (roles_field_drops_trailing_separator "Author" _)))).
    reflexivity.
  - reflexivity.
Defined.

(** ** The two columns of the home view *)

Lemma mod_2_succ k : S k mod 2 = 0 ↔ k mod 2 ≠ 0.
Proof.
  pose proof (Nat.div_mod_eq k 2). pose proof (Nat.div_mod_eq (S k) 2).
  pose proof (Nat.mod_upper_bound k 2). pose proof (Nat.mod_upper_bound (S k) 2).
  lia.
Qed.

Lemma columns_interleave {A} (l : list A) k :
  (k mod 2 = 0 →
     interleave (filter_from (λ _ i, bool_decide (i mod 2 = 0)) k l)
                (filter_from (λ _ i, bool_decide (i mod 2 ≠ 0)) k l) = l)
  ∧ (k mod 2 ≠ 0 → ∀ x,
       interleave (x :: filter_from (λ _ i, bool_decide (i mod 2 = 0)) k l)
                  (filter_from (λ _ i, bool_decide (i mod 2 ≠ 0)) k l) = x :: l).
Proof.
  revert k. induction l as [|y l IH]; intros k; [done|].
  destruct (IH (S k)) as [IHeven IHodd]. cbn [filter_from]. split.
  - intros Hk. rewrite bool_decide_eq_true_2, bool_decide_eq_false_2 by tauto.
    apply IHodd. rewrite mod_2_succ. tauto.
  - intros Hk x. rewrite bool_decide_eq_false_2, bool_decide_eq_true_2 by tauto.
    cbn [interleave]. f_equal. f_equal. apply IHeven. by apply mod_2_succ.
Qed.

Lemma columns_length {A} (l : list A) k :
  length (filter_from (λ _ i, bool_decide (i mod 2 = 0)) k l)
  + length (filter_from (λ _ i, bool_decide (i mod 2 ≠ 0)) k l) = length l
  ∧ (k mod 2 = 0 →
       length (filter_from (λ _ i, bool_decide (i mod 2 ≠ 0)) k l)
       ≤ length (filter_from (λ _ i, bool_decide (i mod 2 = 0)) k l)
       ≤ S (length (filter_from (λ _ i, bool_decide (i mod 2 ≠ 0)) k l)))
  ∧ (k mod 2 ≠ 0 →
       length (filter_from (λ _ i, bool_decide (i mod 2 = 0)) k l)
       ≤ length (filter_from (λ _ i, bool_decide (i mod 2 ≠ 0)) k l)
       ≤ S (length (filter_from (λ _ i, bool_decide (i mod 2 = 0)) k l))).
Proof.
  revert k. induction l as [|y l IH]; intros k; [cbn [filter_from length]; lia|].
  destruct (IH (S k)) as (IHsum & IHeven & IHodd).
  pose proof (mod_2_succ k) as Hs. cbn [filter_from].
  destruct (decide (k mod 2 = 0)) as [Hk|Hk].
  - rewrite bool_decide_eq_true_2, bool_decide_eq_false_2 by tauto. cbn [length].
    split_and!; [lia| |tauto]. intros _. assert (S k mod 2 ≠ 0) as H by tauto.
    specialize (IHodd H). lia.
  - rewrite bool_decide_eq_false_2, bool_decide_eq_true_2 by tauto. cbn [length].
    split_and!; [lia|tauto|]. intros _. assert (S k mod 2 = 0) as H by tauto.
    specialize (IHeven H). lia.
Qed.

(** X26. The two columns of the home view share out the feed, which is
    the list of the items of type story, poem or quote in their order: the
    left column holds the items at the even places of the feed and the
    right column those at the odd places, so that taking the items of the
    two columns in turn, left first, gives the feed in its order; the left
    column is as long as the right one or one item longer. *)
Theorem HomeView_columns_share_out_the_items (items : list ContentItem) :
  interleave (leftColItems items) (rightColItems items) = feedItems items
  ∧ length (leftColItems items) + length (rightColItems items) = length (feedItems items)
  ∧ length (rightColItems items) ≤ length (leftColItems items)
    ≤ S (length (rightColItems items))
  ∧ feedItems items `sublist_of` items.
Proof.
  unfold leftColItems, rightColItems, filter_with_index.
  destruct (columns_length (feedItems items) 0) as (Hsum & Heven & _).
  split; [by apply (columns_interleave (feedItems items) 0)|].
  split; [done|]. split; [by apply Heven|].
  apply sublist_filter.
Qed.

(** ** More on loading, deleting and the settings *)

Lemma fetchContent_finally_settles (body : Eff GitHub.World unit) (w : GitHub.World) :
  let r := (GitHub.setIsLoading true ;;
            GitHub.setError None ;;
            try_finally (try_catch body GitHub.fetchFailed) (GitHub.setIsLoading false)) w in
  result r = Normal tt ∧ GitHub.isLoading (final r) = false.
Proof.
  unfold GitHub.fetchFailed, GitHub.setIsLoading, GitHub.setError, GitHub.setItems.
  run_eff. simpl.
  destruct (body _) as [[[]|] w1]; simpl; done.
Qed.

(** X27. [fetchContent] of [useGitHubDB] always completes, without an
    exception, and with the loading flag off: whatever the API, the cache
    and the static files give, the [finally] block clears the flag, and the
    [catch] block itself cannot throw. *)
Theorem GitHub_fetchContent_settles (env : GitHub.Env) (w : GitHub.World) :
  result (GitHub.fetchContent env w) = Normal tt
  ∧ GitHub.isLoading (final (GitHub.fetchContent env w)) = false.
Proof. apply fetchContent_finally_settles. Qed.

Lemma removeFromOrder_idempotent id' (l : list string) :
  removeFromOrder id' (removeFromOrder id' l) = removeFromOrder id' l.
Proof.
  apply removeFromOrder_spec. apply removeFromOrder_spec.
Qed.

Lemma deleteItem_update_idempotent id' (prev : list ContentItem) :
  deleteItem_update id' (deleteItem_update id' prev) = deleteItem_update id' prev.
Proof.
  unfold deleteItem_update. induction prev as [|x prev IH]; [done|].
  rewrite (filter_cons _ x prev). case_decide; [|done].
  by rewrite filter_cons_True, IH.
Qed.

(** X28. Deleting the same id twice is the same as deleting it once: the
    second [deleteItem] leaves the item list and the database as the first
    left them, for every backend that treats the calls of the second
    deletion as it treated those of the first. *)
Theorem Firebase_deleteItem_idempotent
    (env : Firebase.Env) (id' : string) (w : Firebase.World) :
  let once := Firebase.deleteItem env id' w in
  let twice := Firebase.deleteItem env id' (final once) in
  Firebase.items (final twice) = Firebase.items (final once)
  ∧ Firebase.db (final twice) = Firebase.db (final once)
  ∧ result twice = result once.
Proof.
  intros once twice. subst once twice. split_and!.
  - rewrite !Firebase_deleteItem_local. apply deleteItem_update_idempotent.
  - run_firebase. firebase_cases;
      rewrite ?delete_delete_eq, ?removeFromOrder_idempotent; try done; decided_contra.
  - run_firebase. firebase_cases; try done; decided_contra.
Qed.

(** X29. Saved settings are there when the content is loaded again,
    provided the collection holds a document: after a [saveSettings] whose
    call goes through, a new session that reads the backend without error
    shows the settings that were saved. *)
Theorem Firebase_saved_settings_are_loaded
    (env : Firebase.Env) (newSettings : SiteSettings) (w : Firebase.World) :
  Firebase.isFirebaseConfigured env = true →
  (∀ call, Firebase.throws env call = false) →
  Firebase.content (Firebase.db w) ≠ ∅ →
  let saved := Firebase.saveSettings env newSettings w in
  result saved = Normal true
  ∧ Firebase.settings (Firebase_reload env (final saved)) = newSettings
  ∧ Firebase.items (Firebase_reload env (final saved))
    = sortByContentOrder (Firebase.ledger (Firebase.db w)) (loadedDocs (Firebase.db w)).
Proof.
  intros Hcfg Hok Hne saved. subst saved. unfold Firebase_reload.
  assert (0 < length (sortByContentOrder (Firebase.ledger (Firebase.db w))
                        (loadedDocs (Firebase.db w)))) as Hlen.
  { rewrite sortByContentOrder_length.
    destruct (loadedDocs (Firebase.db w)) eqn:E; [|simpl; lia].
    by apply loadedDocs_empty in E. }
  unfold loadedDocs, Firebase.ledger in *.
  run_fetch. run_firebase. rewrite Hcfg. simpl. rewrite ?Hok. simpl.
  rewrite ?Hok. simpl. rewrite bool_decide_eq_true_2 by done. done.
Qed.

Lemma Firebase_saved_settings_are_loaded_witness :
  Firebase.settings
    (Firebase_reload firebase_ok
       (final (Firebase.saveSettings firebase_ok
                 {| siteTitle := "A title"; siteDescription := EmptyString;
                    authorName := "A name"; authorBio := EmptyString; authorRoles := [] |}
                 (firebase_world [item_a] db_one))))
  = {| siteTitle := "A title"; siteDescription := EmptyString;
       authorName := "A name"; authorBio := EmptyString; authorRoles := [] |}.
Proof.
  refine (proj1 (proj2 (Firebase_saved_settings_are_loaded firebase_ok _
                          (firebase_world [item_a] db_one) _ _ _))).
  - reflexivity.
  - intros call. reflexivity.
  - apply insert_non_empty.
Defined.
